(** * catsof.dev: the image ingestion pipeline of [submit-cat.js] and the
      record reader of [src/_data/cats.js]

    A shallow embedding of the Netlify function that accepts a cat
    submission (an uploaded file or a remote URL), validates it, uploads it
    to the image host and writes a pending record to the store; and of the
    build-time data file that reads the approved records back.

    Conventions.
    - JavaScript strings are [string]s of 8-bit code units; case mapping
      touches the ASCII letters only, and the white space of [trim] is the
      white space below code point 256.
    - A JavaScript number is a [jsnum]: NaN, an infinity, or an exact
      rational (every finite double is one).  The code compares numbers and
      never computes with fractions.
    - Everything the runtime supplies ([Number], [URL], [dns.lookup],
      [fetch], [FormData], [JSON.parse], [process.env], [Date.parse],
      [Array.prototype.sort]) is a
      field of a [Platform] record.  Oracles that talk to the outside world
      receive the trace of the effects performed so far, so that their
      answer may change from one call to the next.
    - Asynchronous functions are computations in the monad [M]: they take
      the trace, append their events to it, and either return a value or
      throw.
    - Left out: the lines written with [console.error]; the timer of the
      fetch, whose expiry is the outcome [FetchAborted]; a rejection of
      [reader.cancel()] or of [File.arrayBuffer()]. *)

From Stdlib Require Import ZArith QArith Lia Ascii String List DecimalString
  Sorting.Sorted Sorting.Permutation.
From stdpp Require Import base option list strings gmap.

Local Open Scope string_scope.
Local Open Scope list_scope.
Local Open Scope Z_scope.

(** ** JavaScript strings *)

Module JsString.

Definition code (c : ascii) : N := N_of_ascii c.

Definition is_upper (c : ascii) : bool :=
  ((65 <=? code c) && (code c <=? 90))%N.

Definition lower_char (c : ascii) : ascii :=
  if is_upper c then ascii_of_N (code c + 32) else c.

(** [s.toLowerCase()] *)
Fixpoint toLowerCase (s : string) : string :=
  match s with
  | EmptyString => EmptyString
  | String c s' => String (lower_char c) (toLowerCase s')
  end.

(** White space removed by [trim]: TAB, LF, VT, FF, CR, SP and NBSP. *)
Definition is_space (c : ascii) : bool :=
  let n := code c in
  ((9 <=? n) && (n <=? 13) || (n =? 32) || (n =? 160))%N.

Fixpoint trimStart (s : string) : string :=
  match s with
  | EmptyString => EmptyString
  | String c s' => if is_space c then trimStart s' else s
  end.

Fixpoint trimEnd (s : string) : string :=
  match s with
  | EmptyString => EmptyString
  | String c s' =>
      match trimEnd s' with
      | EmptyString => if is_space c then EmptyString else String c EmptyString
      | t => String c t
      end
  end.

(** [s.trim()] *)
Definition trim (s : string) : string := trimEnd (trimStart s).

(** [s.split(sep)] for a separator of one character; the result is never
    empty, [split sep ""] is [[""]]. *)
Fixpoint split (sep : ascii) (s : string) : list string :=
  match s with
  | EmptyString => [EmptyString]
  | String c s' =>
      if Ascii.eqb c sep then EmptyString :: split sep s'
      else match split sep s' with
           | [] => [String c EmptyString]
           | p :: ps => String c p :: ps
           end
  end.

(** [s.split(sep)[0]] *)
Definition first_piece (sep : ascii) (s : string) : string :=
  match split sep s with
  | [] => EmptyString
  | p :: _ => p
  end.

(** [s.startsWith(p)] *)
Definition startsWith (p s : string) : bool := String.prefix p s.

(** [s.includes(p)] *)
Fixpoint includes (p s : string) : bool :=
  String.prefix p s ||
  match s with
  | EmptyString => false
  | String _ s' => includes p s'
  end.

(** [s.endsWith(p)] *)
Fixpoint endsWith (p s : string) : bool :=
  String.eqb p s ||
  match s with
  | EmptyString => false
  | String _ s' => endsWith p s'
  end.

(** Truthiness of a string: only [""] is falsy. *)
Definition nonempty (s : string) : bool :=
  match s with EmptyString => false | _ => true end.

(** [a || b] on strings *)
Definition or_else (a b : string) : string := if nonempty a then a else b.

End JsString.

Import JsString.

(** ** Numbers and values *)

Inductive jsnum : Type :=
| NaN
| Inf (negative : bool)
| Fin (q : Q).

Definition num_of_Z (z : Z) : jsnum := Fin (inject_Z z).

(** [x === z] for an integer literal [z] *)
Definition num_eqZ (x : jsnum) (z : Z) : bool :=
  match x with
  | Fin q => Qeq_bool q (inject_Z z)
  | _ => false
  end.

(** [x >= z] *)
Definition num_geZ (x : jsnum) (z : Z) : bool :=
  match x with
  | NaN => false
  | Inf neg => negb neg
  | Fin q => Qle_bool (inject_Z z) q
  end.

(** [x <= z] *)
Definition num_leZ (x : jsnum) (z : Z) : bool :=
  match x with
  | NaN => false
  | Inf neg => neg
  | Fin q => Qle_bool q (inject_Z z)
  end.

(** [x > z] *)
Definition num_gtZ (x : jsnum) (z : Z) : bool :=
  match x with
  | NaN => false
  | Inf neg => negb neg
  | Fin q => negb (Qle_bool q (inject_Z z))
  end.

Definition isNaN (x : jsnum) : bool :=
  match x with NaN => true | _ => false end.

(** The values a parsed form field can hold.  Multipart and URL-encoded
    bodies give strings; a JSON body can give anything.  [VOther] stands for
    the objects and arrays, which are all truthy. *)
Inductive jsvalue : Type :=
| VUndefined
| VNull
| VBool (b : bool)
| VNumber (n : jsnum)
| VString (s : string)
| VOther (id : nat).

Definition truthy (v : jsvalue) : bool :=
  match v with
  | VUndefined | VNull => false
  | VBool b => b
  | VNumber NaN => false
  | VNumber (Inf _) => true
  | VNumber (Fin q) => negb (Qeq_bool q 0)
  | VString s => nonempty s
  | VOther _ => true
  end.

(** ** Constants of [submit-cat.js] *)

Definition MAX_IMAGE_BYTES : Z := 8 * 1024 * 1024.
Definition FETCH_TIMEOUT_MS : Z := 15000.
Definition MAX_REDIRECTS : nat := 4.
Definition ALLOWED_IMAGE_MIME_TYPES : list string :=
  ["image/jpeg"; "image/png"; "image/webp"; "image/gif"; "image/avif"].

(** [ALLOWED_IMAGE_MIME_TYPES.has(s)] *)
Definition allowed_has (s : string) : bool :=
  existsb (String.eqb s) ALLOWED_IMAGE_MIME_TYPES.

(** ** Errors

    [SubmissionError message statusCode] is the class of the source, whose
    constructor defaults [statusCode] to 400.  [OtherError] is any other
    exception (a [TypeError], a rejected network call). *)
Inductive error : Type :=
| SubmissionError (message : string) (statusCode : Z)
| OtherError.

Definition SubmissionError_default (message : string) : error :=
  SubmissionError message 400.

Inductive result (A : Type) : Type :=
| Ok (a : A)
| Throw (e : error).
Arguments Ok {A} a.
Arguments Throw {A} e.

(** ** Pure helpers *)

(** [map[lowerMime] || "jpg"].  [map] is an object literal, so the lookup
    also finds what the object inherits from [Object.prototype]; of the
    inherited names only [constructor] and [__proto__] are written in lower
    case, as [lowerMime] is.  Their values, the function [Object] and the
    object [Object.prototype], are truthy and are returned.  Every caller
    interpolates the result into a template literal: the result is given
    here as the text that the literal receives. *)
Definition extensionFromMime (mimeType : string) : string :=
  let lowerMime := toLowerCase mimeType in
  if String.eqb lowerMime "image/jpeg" then "jpg"
  else if String.eqb lowerMime "image/png" then "png"
  else if String.eqb lowerMime "image/webp" then "webp"
  else if String.eqb lowerMime "image/gif" then "gif"
  else if String.eqb lowerMime "image/avif" then "avif"
  else if String.eqb lowerMime "constructor" then "function Object() { [native code] }"
  else if String.eqb lowerMime "__proto__" then "[object Object]"
  else "jpg".

Definition msg_unsupported_media : string :=
  "Only JPEG, PNG, WEBP, GIF, and AVIF images are allowed.".

Definition normalizeMime (mimeType : string) : string :=
  toLowerCase (trim (first_piece ";" mimeType)).

Definition sanitizeImageMimeType (mimeType : string) : result string :=
  let normalized := normalizeMime mimeType in
  if negb (allowed_has normalized)
  then Throw (SubmissionError_default msg_unsupported_media)
  else Ok normalized.

(** ** [net.isIP]

    Node's text test for IP addresses: an IPv4 address is four decimal
    segments in 0..255 without leading zeros; an IPv6 address is up to eight
    groups of one to four hexadecimal digits, with at most one [::], an
    optional dotted-quad tail that stands for two groups, and an optional
    zone after [%]. *)

Module Net.

Definition chars (s : string) : list ascii := list_ascii_of_string s.

Definition is_digit (c : ascii) : bool :=
  ((48 <=? code c) && (code c <=? 57))%N.

Definition is_hex (c : ascii) : bool :=
  (is_digit c
   || (97 <=? code c) && (code c <=? 102)
   || (65 <=? code c) && (code c <=? 70))%N.

Definition is_alpha (c : ascii) : bool :=
  ((97 <=? code c) && (code c <=? 122) || (65 <=? code c) && (code c <=? 90))%N.

Definition digit_value (c : ascii) : Z := Z.of_N (code c) - 48.

(** Value of a string of decimal digits. *)
Definition decimal_value (s : string) : Z :=
  fold_left (fun acc c => 10 * acc + digit_value c) (chars s) 0.

Definition v4Seg (s : string) : bool :=
  let cs := chars s in
  forallb is_digit cs
  && match cs with
     | [] => false
     | [_] => true
     | c :: _ => negb (Ascii.eqb c "0") && (length cs <=? 3)%nat
     end
  && (decimal_value s <=? 255).

Definition isIPv4 (s : string) : bool :=
  let parts := split "." s in
  (length parts =? 4)%nat && forallb v4Seg parts.

Definition v6Seg (s : string) : bool :=
  let cs := chars s in
  forallb is_hex cs && (1 <=? length cs)%nat && (length cs <=? 4)%nat.

(** Splits at the first [::]. *)
Fixpoint cut_double_colon (s : string) : option (string * string) :=
  match s with
  | EmptyString => None
  | String c s' =>
      if String.prefix "::" s then Some (EmptyString, String.substring 2 (String.length s - 2) s)
      else match cut_double_colon s' with
           | Some (l, r) => Some (String c l, r)
           | None => None
           end
  end.

(** Number of 16-bit groups spelled by a colon-separated run whose last
    piece may be a dotted quad; [None] when a piece is malformed. *)
Fixpoint count_groups (allow_v4 : bool) (pieces : list string) : option nat :=
  match pieces with
  | [] => Some 0%nat
  | [p] => if v6Seg p then Some 1%nat
           else if allow_v4 && isIPv4 p then Some 2%nat
           else None
  | p :: rest =>
      if v6Seg p
      then match count_groups allow_v4 rest with
           | Some n => Some (S n)
           | None => None
           end
      else None
  end.

Definition groups_of (allow_v4 : bool) (s : string) : option nat :=
  match s with
  | EmptyString => Some 0%nat
  | _ => count_groups allow_v4 (split ":" s)
  end.

Definition is_zone_char (c : ascii) : bool :=
  is_digit c || is_alpha c || Ascii.eqb c "-" || Ascii.eqb c "." || Ascii.eqb c ":".

Definition isIPv6_address (s : string) : bool :=
  match cut_double_colon s with
  | None =>
      match groups_of true s with
      | Some n => (n =? 8)%nat && nonempty s
      | None => false
      end
  | Some (l, r) =>
      match groups_of false l, groups_of true r with
      | Some n, Some m => (n + m <=? 7)%nat
      | _, _ => false
      end
  end.

Definition isIPv6 (s : string) : bool :=
  match split "%" s with
  | [addr] => isIPv6_address addr
  | [addr; zone] =>
      isIPv6_address addr && nonempty zone && forallb is_zone_char (chars zone)
  | _ => false
  end.

(** [net.isIP(s)]: 4, 6 or 0. *)
Definition isIP (s : string) : Z :=
  if isIPv4 s then 4 else if isIPv6 s then 6 else 0.

End Net.

(** ** [path.basename] (POSIX) *)

Definition is_slash (c : ascii) : bool := Ascii.eqb c "/".

Fixpoint drop_while {A} (f : A -> bool) (l : list A) : list A :=
  match l with
  | [] => []
  | x :: l' => if f x then drop_while f l' else l
  end.

Fixpoint take_while {A} (f : A -> bool) (l : list A) : list A :=
  match l with
  | [] => []
  | x :: l' => if f x then x :: take_while f l' else []
  end.

(** Trailing slashes are dropped, then the last segment is kept. *)
Definition basename (p : string) : string :=
  let r := drop_while is_slash (rev (Net.chars p)) in
  string_of_list_ascii (rev (take_while (fun c => negb (is_slash c)) r)).

Definition is_filename_char (c : ascii) : bool :=
  Net.is_alpha c || Net.is_digit c
  || Ascii.eqb c "." || Ascii.eqb c "_" || Ascii.eqb c "-".

(** [base.replace(/[^a-zA-Z0-9._-]/g, "_")] *)
Fixpoint replace_unsafe (s : string) : string :=
  match s with
  | EmptyString => EmptyString
  | String c s' =>
      String (if is_filename_char c then c else "_"%char) (replace_unsafe s')
  end.

Definition safeFilename (filename : string) : string :=
  let base := basename (or_else filename "cat-image") in
  let normalized := replace_unsafe base in
  or_else normalized "cat-image".

(** [String(z)] for an integer *)
Definition String_of_Z (z : Z) : string := NilZero.string_of_int (Z.to_int z).

(** ** Data exchanged with the outside world *)

Definition bytes : Type := list Byte.byte.

Definition byteLength (b : bytes) : Z := Z.of_nat (length b).

(** The fields of a parsed [URL] that the code reads. *)
Record URL : Type := mkURL {
  protocol : string;
  hostname : string;
  pathname : string;
  href : string
}.

(** One [reader.read()] that is not [done]: a chunk, or a rejection. *)
Inductive read_step : Type :=
| Chunk (value : bytes)
| ReadFails.

(** A response body.  [NoReader whole]: [response.body] is missing or has
    no [getReader]; [whole] is what [arrayBuffer()] gives, [None] when it
    rejects.  [Reader steps]: a stream that yields [steps] and is then done. *)
Inductive Body : Type :=
| NoReader (whole : option bytes)
| Reader (steps : list read_step).

Record Response : Type := mkResponse {
  status : Z;
  headers : gmap string string;
  body : Body
}.

(** [response.headers.get(name)], header names kept in lower case *)
Definition headers_get (r : Response) (name : string) : option string :=
  headers r !! toLowerCase name.

(** [response.ok] *)
Definition response_ok (r : Response) : bool :=
  (200 <=? status r) && (status r <=? 299).

Inductive fetch_outcome : Type :=
| FetchAborted
| FetchFailed
| FetchResponse (r : Response).

(** [{ buffer, mimeType, filename }], with [size] for an uploaded file *)
Record image : Type := mkImage {
  filename : string;
  mimeType : string;
  size : option Z;
  buffer : bytes
}.

Record cloudinaryConfig : Type := mkConfig {
  cloudName : string;
  apiKey : string;
  apiSecret : string;
  folder : string
}.

(** The multipart request posted to the image host. *)
Record upload_request : Type := mkUpload {
  up_endpoint : string;
  up_file : bytes;
  up_file_type : string;
  up_file_name : string;
  up_api_key : string;
  up_timestamp : string;
  up_folder : option string;
  up_signature : string
}.

(** What the image host answers: the request rejects, the response is not
    [ok] (and its text can be read or not), its JSON cannot be read, or it
    is JSON with an optional [secure_url]. *)
Inductive upload_outcome : Type :=
| UploadFetchFails
| UploadNotOk (text_read : bool)
| UploadJsonFails
| UploadJson (secure_url : option string).

(** [fields] of the record posted to the store *)
Record payload : Type := mkPayload {
  Cat_Name : string;
  Human_Name : string;
  Developer_URL : string;
  Photo_URL : string;
  Story : string;
  Status : string
}.

Record store_request : Type := mkStore {
  st_endpoint : string;
  st_authorization : string;
  st_payload : payload
}.

Inductive store_outcome : Type :=
| StoreFetchFails
| StoreResponse (ok : bool) (st_status : Z) (text : option string).

(** A row of the store as the list API returns it; [rec_fields] is [None]
    when the row has no [fields] object. *)
Record airtable_record : Type := mkRecord {
  rec_id : jsvalue;
  rec_createdTime : jsvalue;
  rec_fields : option (gmap string jsvalue)
}.

(** What the store answers to the list request: the request rejects, the
    response is not [ok] (with its status and text), its JSON cannot be
    read, or it is JSON with an optional [records] array. *)
Inductive read_outcome : Type :=
| ReadFetchFails
| ReadNotOk (rd_status : Z) (text : option string)
| ReadJsonFails
| ReadJson (records : option (list airtable_record)).

(** Effects, in the order they happen. *)
Inductive event : Type :=
| EvDnsLookup (host : string)
| EvFetch (url : string)
| EvArrayBuffer
| EvRead
| EvCancel
| EvUpload (req : upload_request)
| EvStoreWrite (req : store_request)
| EvStoreRead (url : string).

Definition trace : Type := list event.

(** An entry of a parsed multipart form. *)
Record form_file : Type := mkFile {
  file_name : string;
  file_type : string;
  file_bytes : bytes
}.

Definition file_size (f : form_file) : Z := byteLength (file_bytes f).

Inductive form_value : Type :=
| FormString (s : string)
| FormFile (f : form_file).

(** [parsedBody.fields]: [null] (a JSON body can be [null]) or an object.
    A JSON primitive or array has none of the properties the handler
    reads, and is the empty object here. *)
Inductive fields_t : Type :=
| FieldsNull
| FieldsObject (props : gmap string jsvalue).

(** The Lambda event. *)
Record lambda_event : Type := mkEvent {
  httpMethod : string;
  ev_headers : option (gmap string string);
  ev_body : option string;
  isBase64Encoded : bool
}.

Inductive response_body : Type :=
| Text (s : string)
| JsonOk (photoUrl : string).

Record http_response : Type := mkHttp {
  statusCode : Z;
  out_headers : list (string * string);
  out_body : response_body
}.

(** ** The runtime *)

Record Platform : Type := mkPlatform {
  (** [Number(s)] *)
  Number : string -> jsnum;
  (** [v.toString()] for a truthy value that is not a string; [None] when
      it throws *)
  valueToString : jsvalue -> option string;
  (** [new URL(s)]; [None] when it throws *)
  URL_new : string -> option URL;
  (** [new URL(s, base)] *)
  URL_new_base : string -> string -> option URL;
  (** [dns.lookup(host, { all: true, verbatim: true })]: the addresses of
      the records, [None] when it rejects *)
  dns_lookup : trace -> string -> option (list string);
  (** [fetch(url, { redirect: "manual", signal })] *)
  fetch_get : trace -> string -> fetch_outcome;
  (** [new Response(body, { headers }).formData()] and its entries *)
  formData : string -> string -> bool -> option (list (string * form_value));
  (** [JSON.parse(s)] as the [fields] object *)
  JSON_parse : string -> option fields_t;
  (** [new URLSearchParams(s).entries()] *)
  URLSearchParams : string -> list (string * string);
  (** [process.env] *)
  env : string -> option string;
  (** [Math.floor(Date.now() / 1000)] *)
  now_seconds : trace -> Z;
  (** SHA-1, in hexadecimal *)
  sha1_hex : string -> string;
  encodeURIComponent : string -> string;
  (** the POST to the image host *)
  cloudinary_post : trace -> upload_request -> upload_outcome;
  (** the POST to the record store *)
  airtable_post : trace -> store_request -> store_outcome;
  (** [parsed.error] or [parsed.error.type] of a JSON error text *)
  airtable_error_label : string -> option string;
  (** the GET of the record list *)
  airtable_get : trace -> string -> read_outcome;
  (** [new URLSearchParams(object).toString()] *)
  URLSearchParams_toString : list (string * string) -> string;
  (** [Date.parse(v)]; [None] is NaN *)
  Date_parse : jsvalue -> option Z;
  (** [array.sort(comparefn)] on an array of defined elements; a result
      [None] of [comparefn] is NaN *)
  Array_sort : forall A : Type, (A -> A -> option Z) -> list A -> list A
}.

(** ** Computations with effects and exceptions *)

Definition M (A : Type) : Type := trace -> result A * trace.

Definition ret {A} (a : A) : M A := fun tr => (Ok a, tr).

Definition throw {A} (e : error) : M A := fun tr => (Throw e, tr).

Definition bind {A B} (c : M A) (k : A -> M B) : M B :=
  fun tr =>
    match c tr with
    | (Ok a, tr') => k a tr'
    | (Throw e, tr') => (Throw e, tr')
    end.

Definition lift {A} (r : result A) : M A := fun tr => (r, tr).

(** Ask an oracle with the trace so far, then record the event. *)
Definition perform {A} (oracle : trace -> A) (e : event) : M A :=
  fun tr => (Ok (oracle tr), tr ++ [e]).

Declare Scope js_scope.
Delimit Scope js_scope with js.
Notation "x <- c ;; k" := (bind c (fun x => k))
  (at level 100, c at next level, right associativity) : js_scope.
Notation "c ;;; k" := (bind c (fun _ => k))
  (at level 100, right associativity) : js_scope.
Local Open Scope js_scope.

Definition get_trace : M trace := fun tr => (Ok tr, tr).

(** [try { x = c } catch (error) { return h error }], then [k x] *)
Definition try_or_return {A B} (c : M A) (h : error -> B) (k : A -> M B) : M B :=
  fun tr =>
    match c tr with
    | (Ok a, tr') => k a tr'
    | (Throw e, tr') => (Ok (h e), tr')
    end.

(** [a || b] when [a] may be [null] or [undefined] *)
Definition opt_or_else (a : option string) (b : string) : string :=
  match a with
  | Some s => or_else s b
  | None => b
  end.

(** Truthiness of a value that is an object or [null] *)
Definition present {A} (o : option A) : bool :=
  match o with Some _ => true | None => false end.

(** ** Messages of the source *)

Definition msg_invalid_url : string := "photoUrl must be a valid absolute URL.".
Definition msg_bad_scheme : string := "photoUrl must start with http:// or https://.".
Definition msg_internal_host : string := "photoUrl cannot target local/internal hosts.".
Definition msg_unresolved : string := "photoUrl host could not be resolved.".
Definition msg_too_large : string := "Image is too large (max 8MB).".
Definition msg_upload_too_large : string := "Uploaded image is too large (max 8MB).".
Definition msg_url_required : string := "photoUrl is required when no file is uploaded.".
Definition msg_timeout : string := "Timed out while fetching photoUrl.".
Definition msg_fetch_failed : string := "Could not fetch photoUrl.".
Definition msg_no_location : string := "photoUrl redirect is missing location.".
Definition msg_http_status (st : Z) : string :=
  "photoUrl returned HTTP " +:+ String_of_Z st +:+ ".".
Definition msg_empty_image : string := "Fetched image is empty.".
Definition msg_too_many_redirects : string := "photoUrl has too many redirects.".
Definition msg_cloudinary_config : string := "Missing Cloudinary configuration.".
Definition msg_upload_failed : string := "Image upload to Cloudinary failed.".
Definition msg_no_secure_url : string := "Cloudinary response missing secure_url.".
Definition msg_names_required : string := "catName and humanName are required.".
Definition msg_photo_required : string := "Provide either photoFile or photoUrl.".

Definition AIRTABLE_API : string := "https://api.airtable.com/v0".

(** ** The submission function *)

Section Pipeline.

Variable P : Platform.

(** *** Host safety *)

Definition isPrivateIPv4 (ip : string) : bool :=
  let parts := map (Number P) (split "." ip) in
  if negb (length parts =? 4)%nat || existsb isNaN parts then false
  else
    let p0 := nth 0 parts NaN in
    let p1 := nth 1 parts NaN in
    if num_eqZ p0 10 then true
    else if num_eqZ p0 127 then true
    else if num_eqZ p0 169 && num_eqZ p1 254 then true
    else if num_eqZ p0 172 && num_geZ p1 16 && num_leZ p1 31 then true
    else if num_eqZ p0 192 && num_eqZ p1 168 then true
    else if num_eqZ p0 0 then true
    else false.

Definition isPrivateIPv6 (ip : string) : bool :=
  let value := toLowerCase ip in
  String.eqb value "::1"
  || startsWith "fc" value
  || startsWith "fd" value
  || startsWith "fe80:" value.

Definition isPrivateIpAddress (ip : string) : bool :=
  let version := Net.isIP ip in
  if version =? 4 then isPrivateIPv4 ip
  else if version =? 6 then isPrivateIPv6 ip
  else true.

(** The [for (const record of records)] loop of [assertPublicUrl]. *)
Fixpoint check_records (records : list string) : result unit :=
  match records with
  | [] => Ok tt
  | address :: rest =>
      if isPrivateIpAddress address
      then Throw (SubmissionError_default msg_internal_host)
      else check_records rest
  end.

Definition assertPublicUrl (urlString : string) : M string :=
  match URL_new P urlString with
  | None => throw (SubmissionError_default msg_invalid_url)
  | Some parsedUrl =>
      if negb (String.eqb (protocol parsedUrl) "https:"
               || String.eqb (protocol parsedUrl) "http:")
      then throw (SubmissionError_default msg_bad_scheme)
      else
        let hostname := toLowerCase (hostname parsedUrl) in
        if String.eqb hostname "localhost"
           || endsWith ".local" hostname
           || endsWith ".localhost" hostname
        then throw (SubmissionError_default msg_internal_host)
        else if negb (Net.isIP hostname =? 0)
        then
          if isPrivateIpAddress hostname
          then throw (SubmissionError_default msg_internal_host)
          else ret (href parsedUrl)
        else
          lookup <- perform (fun tr => dns_lookup P tr hostname)
                            (EvDnsLookup hostname) ;;
          match lookup with
          | None => throw (SubmissionError_default msg_unresolved)
          | Some records =>
              if (length records =? 0)%nat
              then throw (SubmissionError_default msg_unresolved)
              else
                lift (check_records records) ;;;
                ret (href parsedUrl)
          end
  end.

(** *** Reading a body under a byte limit *)

(** The [while (true)] loop: [chunks] and [total] are the loop's variables. *)
Fixpoint read_loop (maxBytes : Z) (steps : list read_step)
    (chunks : list bytes) (total : Z) : M bytes :=
  match steps with
  | [] =>
      perform (fun _ => tt) EvRead ;;;
      ret (concat chunks)
  | ReadFails :: _ =>
      perform (fun _ => tt) EvRead ;;;
      throw OtherError
  | Chunk value :: rest =>
      perform (fun _ => tt) EvRead ;;;
      let total := total + byteLength value in
      if total >? maxBytes
      then
        perform (fun _ => tt) EvCancel ;;;
        throw (SubmissionError msg_too_large 413)
      else read_loop maxBytes rest (chunks ++ [value]) total
  end.

Definition readResponseWithLimit (response : Response) (maxBytes : Z) : M bytes :=
  match body response with
  | NoReader whole =>
      perform (fun _ => tt) EvArrayBuffer ;;;
      match whole with
      | None => throw OtherError
      | Some fallbackBuffer =>
          if byteLength fallbackBuffer >? maxBytes
          then throw (SubmissionError msg_too_large 413)
          else ret fallbackBuffer
      end
  | Reader steps => read_loop maxBytes steps [] 0
  end.

(** *** Fetching a remote image *)

Definition getFilenameFromUrl (urlString mimeType : string) : result string :=
  match URL_new P urlString with
  | None => Throw OtherError
  | Some parsed =>
      let fromPath := safeFilename (basename (or_else (pathname parsed) "")) in
      if includes "." fromPath then Ok fromPath
      else Ok (fromPath +:+ "." +:+ extensionFromMime mimeType)
  end.

(** [cleanText(value)] *)
Definition cleanText (value : jsvalue) : result string :=
  if truthy value
  then match value with
       | VString s => Ok (trim s)
       | _ => match valueToString P value with
              | Some s => Ok (trim s)
              | None => Throw OtherError
              end
       end
  else Ok (trim "").

(** How one iteration of the redirect loop ends when it does not throw. *)
Inductive hop_result : Type :=
| Continue (currentUrl : string)
| Return (img : image).

(** The body of the [for] loop of [fetchImageFromUrl]. *)
Definition fetch_hop (currentUrl0 : string) : M hop_result :=
  currentUrl <- assertPublicUrl currentUrl0 ;;
  outcome <- perform (fun tr => fetch_get P tr currentUrl) (EvFetch currentUrl) ;;
  match outcome with
  | FetchAborted => throw (SubmissionError_default msg_timeout)
  | FetchFailed => throw (SubmissionError_default msg_fetch_failed)
  | FetchResponse response =>
      if (status response >=? 300) && (status response <? 400)
      then
        let location := opt_or_else (headers_get response "location") "" in
        if negb (nonempty location)
        then throw (SubmissionError_default msg_no_location)
        else match URL_new_base P location currentUrl with
             | None => throw OtherError
             | Some next => ret (Continue (href next))
             end
      else if negb (response_ok response)
      then throw (SubmissionError_default (msg_http_status (status response)))
      else
        let contentLength :=
          Number P (opt_or_else (headers_get response "content-length") "0") in
        if num_gtZ contentLength MAX_IMAGE_BYTES
        then throw (SubmissionError msg_too_large 413)
        else
          mimeType <- lift (sanitizeImageMimeType
                              (opt_or_else (headers_get response "content-type") "")) ;;
          buffer <- readResponseWithLimit response MAX_IMAGE_BYTES ;;
          if (length buffer =? 0)%nat
          then throw (SubmissionError_default msg_empty_image)
          else
            filename <- lift (getFilenameFromUrl currentUrl mimeType) ;;
            ret (Return (mkImage filename mimeType None buffer))
  end.

(** The loop itself, by the number of iterations left:
    [redirectCount = MAX_REDIRECTS + 1 - remaining]. *)
Fixpoint fetch_loop (remaining : nat) (currentUrl : string) : M image :=
  match remaining with
  | O => throw (SubmissionError_default msg_too_many_redirects)
  | S remaining' =>
      r <- fetch_hop currentUrl ;;
      match r with
      | Continue next => fetch_loop remaining' next
      | Return img => ret img
      end
  end.

Definition fetchImageFromUrl (urlString : string) : M image :=
  currentUrl <- lift (cleanText (VString urlString)) ;;
  if negb (nonempty currentUrl)
  then throw (SubmissionError_default msg_url_required)
  else fetch_loop (S MAX_REDIRECTS) currentUrl.

(** *** Parsing the request *)

(** [getHeader(event, name)] *)
Definition getHeader (event : lambda_event) (name : string) : string :=
  let headers := default ∅ (ev_headers event) in
  opt_or_else (headers !! name) (opt_or_else (headers !! toLowerCase name) "").

(** The [for (const [key, value] of parsed.entries())] loop of [parseBody];
    [fields] and [photoFile] are the loop's variables. *)
Fixpoint parse_entries (entries : list (string * form_value))
    (fields : gmap string jsvalue) (photoFile : option image)
    : result (gmap string jsvalue * option image) :=
  match entries with
  | [] => Ok (fields, photoFile)
  | (key, FormString value) :: rest =>
      parse_entries rest (<[key := VString value]> fields) photoFile
  | (key, FormFile value) :: rest =>
      if negb (String.eqb key "photoFile") || (file_size value =? 0)
      then parse_entries rest fields photoFile
      else if file_size value >? MAX_IMAGE_BYTES
      then Throw (SubmissionError msg_upload_too_large 413)
      else
        match sanitizeImageMimeType (or_else (file_type value) "") with
        | Throw e => Throw e
        | Ok mimeType =>
            parse_entries rest fields
              (Some (mkImage
                       (safeFilename
                          (or_else (file_name value)
                                   ("upload." +:+ extensionFromMime mimeType)))
                       mimeType
                       (Some (file_size value))
                       (file_bytes value)))
        end
  end.

(** [Object.fromEntries(entries)]: a later entry replaces an earlier one. *)
Definition fromEntries (entries : list (string * string)) : gmap string jsvalue :=
  fold_left (fun m kv => <[fst kv := VString (snd kv)]> m) entries ∅.

Definition parseBody (event : lambda_event) : result (fields_t * option image) :=
  let contentType := getHeader event "content-type" in
  if includes "multipart/form-data" contentType
  then
    match formData P contentType (opt_or_else (ev_body event) "")
                   (isBase64Encoded event) with
    | None => Throw OtherError
    | Some entries =>
        match parse_entries entries ∅ None with
        | Throw e => Throw e
        | Ok (fields, photoFile) => Ok (FieldsObject fields, photoFile)
        end
    end
  else if includes "application/json" contentType
  then
    match JSON_parse P (opt_or_else (ev_body event) "{}") with
    | None => Throw OtherError
    | Some fields => Ok (fields, None)
    end
  else
    Ok (FieldsObject (fromEntries (URLSearchParams P (opt_or_else (ev_body event) ""))),
        None).

(** *** Uploading to the image host *)

Definition getCloudinaryConfig : result cloudinaryConfig :=
  let cloudName := opt_or_else (env P "CLOUDINARY_CLOUD_NAME") "" in
  let apiKey := opt_or_else (env P "CLOUDINARY_API_KEY") "" in
  let apiSecret := opt_or_else (env P "CLOUDINARY_API_SECRET") "" in
  let folder := trim (opt_or_else (env P "CLOUDINARY_FOLDER") "catsof-dev") in
  if negb (nonempty cloudName) || negb (nonempty apiKey) || negb (nonempty apiSecret)
  then Throw (SubmissionError msg_cloudinary_config 500)
  else Ok (mkConfig cloudName apiKey apiSecret folder).

Definition uploadToCloudinary (img : image) (config : cloudinaryConfig) : M string :=
  tr <- get_trace ;;
  let timestamp := String_of_Z (now_seconds P tr) in
  let paramString :=
    if nonempty (folder config)
    then "folder=" +:+ folder config +:+ "&timestamp=" +:+ timestamp
    else "timestamp=" +:+ timestamp in
  let signature := sha1_hex P (paramString +:+ apiSecret config) in
  let request :=
    mkUpload
      ("https://api.cloudinary.com/v1_1/" +:+ cloudName config +:+ "/image/upload")
      (buffer img)
      (mimeType img)
      (or_else (filename img) ("upload." +:+ extensionFromMime (mimeType img)))
      (apiKey config)
      timestamp
      (if nonempty (folder config) then Some (folder config) else None)
      signature in
  outcome <- perform (fun tr => cloudinary_post P tr request) (EvUpload request) ;;
  match outcome with
  | UploadFetchFails => throw OtherError
  | UploadNotOk text_read =>
      if text_read
      then throw (SubmissionError msg_upload_failed 502)
      else throw OtherError
  | UploadJsonFails => throw OtherError
  | UploadJson secure_url =>
      if negb (nonempty (opt_or_else secure_url ""))
      then throw (SubmissionError msg_no_secure_url 502)
      else ret (opt_or_else secure_url "")
  end.

Definition resolveCanonicalPhotoUrl (photoUrl : string) (photoFile : option image)
    (config : cloudinaryConfig) : M string :=
  match photoFile with
  | Some file =>
      if negb (length (buffer file) =? 0)%nat
      then uploadToCloudinary file config
      else
        remoteImage <- fetchImageFromUrl photoUrl ;;
        uploadToCloudinary remoteImage config
  | None =>
      remoteImage <- fetchImageFromUrl photoUrl ;;
      uploadToCloudinary remoteImage config
  end.

(** *** The handler *)

Definition formatAirtableError (st : Z) (text : string) : string :=
  match airtable_error_label P text with
  | Some label => label +:+ " (status " +:+ String_of_Z st +:+ ")"
  | None => or_else text "Unknown Airtable error" +:+ " (status " +:+ String_of_Z st +:+ ")"
  end.

(** [fields.name]; reading a property of [null] throws. *)
Definition field (fields : fields_t) (name : string) : result jsvalue :=
  match fields with
  | FieldsNull => Throw OtherError
  | FieldsObject props => Ok (default VUndefined (props !! name))
  end.

Definition plain (st : Z) (text : string) : http_response :=
  mkHttp st [] (Text text).

(** The response of a [catch (error)] block: a [SubmissionError] gives its
    own status and message, anything else the fallback. *)
Definition error_response (fallback : http_response) (e : error) : http_response :=
  match e with
  | SubmissionError message st => plain st message
  | OtherError => fallback
  end.

Definition redirect_thanks : http_response :=
  mkHttp 303 [("Location", "/thanks/")] (Text "").

(** The last [try] block of the handler: the write to the store. *)
Definition store_submission (event : lambda_event) (token baseId tableName : string)
    (record : payload) : M http_response :=
  let request :=
    mkStore
      (AIRTABLE_API +:+ "/" +:+ baseId +:+ "/" +:+ encodeURIComponent P tableName)
      ("Bearer " +:+ token)
      record in
  outcome <- perform (fun tr => airtable_post P tr request) (EvStoreWrite request) ;;
  match outcome with
  | StoreFetchFails => ret (plain 500 "Could not save submission.")
  | StoreResponse false st None => ret (plain 500 "Could not save submission.")
  | StoreResponse false st (Some text) =>
      ret (mkHttp 500 [("Content-Type", "text/plain")]
             (Text ("Could not save submission. " +:+ formatAirtableError st text)))
  | StoreResponse true _ _ =>
      if includes "application/json" (getHeader event "accept")
      then ret (mkHttp 200 [("Content-Type", "application/json")]
                  (JsonOk (Photo_URL record)))
      else ret redirect_thanks
  end.

(** [cleanText(fields.name)] *)
Definition cleanField (fields : fields_t) (name : string) : M string :=
  value <- lift (field fields name) ;;
  lift (cleanText value).

(** The end of the handler, once the canonical URL is known: the record is
    built and written to the store. *)
Definition save_record (event : lambda_event) (token baseId tableName : string)
    (fields : fields_t) (catName humanName canonicalPhotoUrl : string)
    : M http_response :=
  devUrl <- cleanField fields "devUrl" ;;
  story <- cleanField fields "story" ;;
  store_submission event token baseId tableName
    (mkPayload catName humanName devUrl canonicalPhotoUrl story "Pending").

(** [exports.handler].  A [Throw] of the whole computation is an exception
    that no [catch] of the handler sees: the returned promise rejects. *)
Definition handler (event : lambda_event) : M http_response :=
  if negb (String.eqb (httpMethod event) "POST")
  then ret (plain 405 "Method Not Allowed")
  else
    let token := opt_or_else (env P "AIRTABLE_TOKEN") "" in
    let baseId := opt_or_else (env P "AIRTABLE_BASE_ID") "" in
    let tableName := opt_or_else (env P "AIRTABLE_TABLE_NAME") "Cats" in
    if negb (nonempty token) || negb (nonempty baseId)
    then ret (plain 500 "Missing Airtable configuration.")
    else
      try_or_return (lift (parseBody event))
        (error_response (plain 400 "Invalid form payload."))
        (fun parsedBody =>
           let fields := fst parsedBody in
           let photoFile := snd parsedBody in
           website <- lift (field fields "website") ;;
           if truthy website
           then ret redirect_thanks
           else
             catName <- cleanField fields "catName" ;;
             humanName <- cleanField fields "humanName" ;;
             photoUrl <- cleanField fields "photoUrl" ;;
             if negb (nonempty catName) || negb (nonempty humanName)
             then ret (plain 400 msg_names_required)
             else if negb (present photoFile) && negb (nonempty photoUrl)
             then ret (plain 400 msg_photo_required)
             else
               try_or_return (lift getCloudinaryConfig)
                 (error_response (plain 500 msg_cloudinary_config))
                 (fun config =>
                    try_or_return (resolveCanonicalPhotoUrl photoUrl photoFile config)
                      (error_response (plain 500 "Could not process image input."))
                      (save_record event token baseId tableName fields
                                   catName humanName))).

End Pipeline.

(** ** The record reader, [src/_data/cats.js] *)

Record cat : Type := mkCat {
  cat_id : jsvalue;
  cat_createdTime : jsvalue;
  cat_name : jsvalue;
  cat_human : jsvalue;
  cat_developerUrl : jsvalue;
  cat_photoUrl : jsvalue;
  cat_story : jsvalue
}.

(** [v || d] *)
Definition value_or (v : jsvalue) (d : string) : jsvalue :=
  if truthy v then v else VString d.

Section CatsData.

Variable P : Platform.

(** The callback of [.map]; it throws when the row has no [fields]. *)
Definition to_cat (record : airtable_record) : result cat :=
  match rec_fields record with
  | None => Throw OtherError
  | Some fields =>
      let get name := default VUndefined (fields !! name) in
      Ok (mkCat (rec_id record)
                (value_or (rec_createdTime record) "")
                (value_or (get "Cat Name") "Unnamed Cat")
                (value_or (get "Human Name") "Anonymous Developer")
                (value_or (get "Developer URL") "")
                (value_or (get "Photo URL") "")
                (value_or (get "Story") ""))
  end.

Fixpoint map_records (records : list airtable_record) : result (list cat) :=
  match records with
  | [] => Ok []
  | record :: rest =>
      match to_cat record with
      | Throw e => Throw e
      | Ok c => match map_records rest with
                | Throw e => Throw e
                | Ok cs => Ok (c :: cs)
                end
      end
  end.

(** The comparator [(a, b) => Date.parse(b.createdTime) -
    Date.parse(a.createdTime)]; the difference is NaN when one of the two is. *)
Definition by_creation_time (a b : cat) : option Z :=
  match Date_parse P (cat_createdTime b), Date_parse P (cat_createdTime a) with
  | Some tb, Some ta => Some (tb - ta)
  | _, _ => None
  end.

(** [.map(...).sort(...).filter((cat) => Boolean(cat.photoUrl))] *)
Definition render_records (records : list airtable_record) : result (list cat) :=
  match map_records records with
  | Throw e => Throw e
  | Ok cats =>
      Ok (List.filter (fun c => truthy (cat_photoUrl c))
                      (Array_sort P cat by_creation_time cats))
  end.

(** [module.exports] of [cats.js] *)
Definition cats_data : M (list cat) :=
  let token := opt_or_else (env P "AIRTABLE_TOKEN") "" in
  let baseId := opt_or_else (env P "AIRTABLE_BASE_ID") "" in
  let tableName := opt_or_else (env P "AIRTABLE_TABLE_NAME") "Cats" in
  let viewName := opt_or_else (env P "AIRTABLE_VIEW") "Approved" in
  if negb (nonempty token) || negb (nonempty baseId)
  then ret []
  else
    let params := URLSearchParams_toString P [("view", viewName); ("pageSize", "100")] in
    let url := AIRTABLE_API +:+ "/" +:+ baseId +:+ "/"
               +:+ encodeURIComponent P tableName +:+ "?" +:+ params in
    outcome <- perform (fun tr => airtable_get P tr url) (EvStoreRead url) ;;
    match outcome with
    | ReadFetchFails => ret []
    | ReadNotOk _ _ => ret []
    | ReadJsonFails => ret []
    | ReadJson records =>
        match render_records (default [] records) with
        | Throw _ => ret []
        | Ok cats => ret cats
        end
    end.

End CatsData.

(** ** A sample runtime

    A small concrete [Platform], used to run the definitions on closed
    inputs.  [sample_Number] reads strings of decimal digits, and
    [sample_URL] reads [scheme://host/path]. *)

Definition sample_Number (s : string) : jsnum :=
  match s with
  | EmptyString => num_of_Z 0
  | _ => if forallb Net.is_digit (Net.chars s)
         then num_of_Z (Net.decimal_value s)
         else NaN
  end.

(** Splits at the first occurrence of [sep], which is dropped. *)
Fixpoint cut_at (sep : ascii) (s : string) : string * string :=
  match s with
  | EmptyString => (EmptyString, EmptyString)
  | String c s' =>
      if Ascii.eqb c sep then (EmptyString, s')
      else let '(l, r) := cut_at sep s' in (String c l, r)
  end.

Definition sample_URL (s : string) : option URL :=
  let '(scheme, rest) := cut_at ":" s in
  if String.prefix "//" rest && nonempty scheme
  then
    let '(host, path) := cut_at "/" (String.substring 2 (String.length rest - 2) rest) in
    if nonempty host
    then Some (mkURL (scheme +:+ ":") host ("/" +:+ path)
                     (scheme +:+ "://" +:+ host +:+ "/" +:+ path))
    else None
  else None.

(** [Date.parse] on three dates. *)
Definition sample_Date_parse (v : jsvalue) : option Z :=
  match v with
  | VString s =>
      if String.eqb s "2024-01-01T00:00:00.000Z" then Some 1704067200000
      else if String.eqb s "2024-02-01T00:00:00.000Z" then Some 1706745600000
      else if String.eqb s "2024-03-01T00:00:00.000Z" then Some 1709251200000
      else None
  | _ => None
  end.

(** [SortCompare] of the language: a NaN from the comparator counts as
    zero. *)
Definition sort_compare {A} (cmp : A -> A -> option Z) (x y : A) : Z :=
  default 0 (cmp x y).

(** The sort of the sample runtime.  Like the sort of V8, it looks for runs
    first and leaves alone an array that is a single run already: one in
    which the comparator puts no element before its predecessor.  Any other
    array is sorted by insertion, each element going behind the elements it
    is not put before. *)
Section SampleSort.

Context {A : Type} (cmp : A -> A -> option Z).

Fixpoint is_run (l : list A) : bool :=
  match l with
  | x :: (y :: _) as rest => negb (sort_compare cmp y x <? 0) && is_run rest
  | _ => true
  end.

Fixpoint sort_insert (x : A) (sorted : list A) : list A :=
  match sorted with
  | [] => [x]
  | y :: rest =>
      if sort_compare cmp x y <? 0 then x :: y :: rest else y :: sort_insert x rest
  end.

Definition insertion_sort (l : list A) : list A :=
  fold_left (fun sorted x => sort_insert x sorted) l [].

Definition sample_sort (l : list A) : list A :=
  if is_run l then l else insertion_sort l.

End SampleSort.

Definition sample_platform
    (lookup : trace -> string -> option (list string))
    (get : trace -> string -> fetch_outcome)
    (form : option (list (string * form_value)))
    (environment : string -> option string)
    (upload : trace -> upload_request -> upload_outcome)
    (store : trace -> store_request -> store_outcome) : Platform :=
  {| Number := sample_Number;
     valueToString := fun _ => None;
     URL_new := sample_URL;
     URL_new_base := fun location _ => sample_URL location;
     dns_lookup := lookup;
     fetch_get := get;
     formData := fun _ _ _ => form;
     JSON_parse := fun _ => None;
     URLSearchParams := fun _ => [];
     env := environment;
     now_seconds := fun _ => 1700000000;
     sha1_hex := fun _ => "da39a3ee5e6b4b0d3255bfef95601890afd80709";
     encodeURIComponent := fun s => s;
     cloudinary_post := upload;
     airtable_post := store;
     airtable_error_label := fun _ => None;
     airtable_get := fun _ _ => ReadFetchFails;
     URLSearchParams_toString := fun _ => "view=Approved&pageSize=100";
     Date_parse := sample_Date_parse;
     Array_sort := @sample_sort |}.

Definition no_lookup : trace -> string -> option (list string) := fun _ _ => None.
Definition no_fetch : trace -> string -> fetch_outcome := fun _ _ => FetchFailed.
Definition no_upload : trace -> upload_request -> upload_outcome :=
  fun _ _ => UploadFetchFails.
Definition no_store : trace -> store_request -> store_outcome :=
  fun _ _ => StoreFetchFails.

(** An environment with every variable of the function set. *)
Definition full_env (name : string) : option string :=
  if String.eqb name "AIRTABLE_TOKEN" then Some "pat-token"
  else if String.eqb name "AIRTABLE_BASE_ID" then Some "appBase"
  else if String.eqb name "CLOUDINARY_CLOUD_NAME" then Some "cats"
  else if String.eqb name "CLOUDINARY_API_KEY" then Some "key"
  else if String.eqb name "CLOUDINARY_API_SECRET" then Some "secret"
  else None.

(** * Vocabulary of the statements *)

(** ** Host safety and the fetcher *)

(** The host names refused before any lookup. *)
Definition local_name (host : string) : bool :=
  String.eqb host "localhost" || endsWith ".local" host || endsWith ".localhost" host.

(** The answer of the remote host makes the loop go round again. *)
Definition redirect_to (P : Platform) (response : Response) (currentUrl next : string)
    : Prop :=
  300 <= status response < 400
  /\ exists location target,
      headers_get response "location" = Some location
      /\ location <> EmptyString
      /\ URL_new_base P location currentUrl = Some target
      /\ next = href target.

(** The answer of the remote host is an acceptable image. *)
Definition serves_image (P : Platform) (response : Response) (currentUrl : string)
    (img : image) (tr tr' : trace) : Prop :=
  200 <= status response <= 299
  /\ num_gtZ (Number P (opt_or_else (headers_get response "content-length") "0"))
             MAX_IMAGE_BYTES = false
  /\ sanitizeImageMimeType (opt_or_else (headers_get response "content-type") "")
     = Ok (mimeType img)
  /\ readResponseWithLimit response MAX_IMAGE_BYTES tr = (Ok (buffer img), tr')
  /\ buffer img <> []
  /\ getFilenameFromUrl P currentUrl (mimeType img) = Ok (filename img)
  /\ size img = None.

(** [n] redirects in a row: starting from [url] with trace [tr], each of
    [n] successive URLs passes the host check and is answered by a redirect;
    [last] is the target of the last redirect and [tr'] the trace then. *)
Inductive redirect_chain (P : Platform)
  : nat -> string -> trace -> string -> trace -> Prop :=
| chain_end (url : string) (tr : trace) : redirect_chain P 0 url tr url tr
| chain_hop (n : nat) (url checked next last : string) (response : Response)
            (tr t1 tr' : trace) :
    assertPublicUrl P url tr = (Ok checked, t1) ->
    fetch_get P t1 checked = FetchResponse response ->
    redirect_to P response checked next ->
    redirect_chain P n next (t1 ++ [EvFetch checked]) last tr' ->
    redirect_chain P (S n) url tr last tr'.

(** Value of a string of hexadecimal digits. *)
Definition hex_digit_value (c : ascii) : Z :=
  let n := Z.of_N (code c) in
  if Net.is_digit c then n - 48
  else if (97 <=? n) && (n <=? 102) then n - 87
  else n - 55.

Definition hex_value (s : string) : Z :=
  fold_left (fun acc c => 16 * acc + hex_digit_value c) (Net.chars s) 0.

(** The first group of an IPv6 address lies in [fe80::/10], that is between
    [fe80] and [febf]. *)
Definition in_fe80_10 (ip : string) : bool :=
  let group := hex_value (first_piece ":" ip) in
  (0xfe80 <=? group) && (group <=? 0xfebf).

(** Dotted-quad text of four octets. *)
Definition dotted (a b c d : Z) : string :=
  String_of_Z a +:+ "." +:+ String_of_Z b +:+ "." +:+ String_of_Z c
  +:+ "." +:+ String_of_Z d.

(** The private IPv4 ranges: 10/8, 127/8, 169.254/16, 172.16/12,
    192.168/16 and 0/8. *)
Definition private_v4 (a b : Z) : bool :=
  (a =? 10) || (a =? 127) || ((a =? 169) && (b =? 254))
  || ((a =? 172) && (16 <=? b) && (b <=? 31))
  || ((a =? 192) && (b =? 168)) || (a =? 0).

(** The decimal text of [n] is a segment of an IPv4 literal and holds no
    dot. *)
Definition octet_text_ok (n : Z) : bool :=
  Net.v4Seg (String_of_Z n)
  && negb (existsb (Ascii.eqb ".") (Net.chars (String_of_Z n))).

(** The runtime's [Number] reads the decimal text of an octet. *)
Definition reads_octets (P : Platform) : Prop :=
  forall n, 0 <= n <= 255 -> Number P (String_of_Z n) = num_of_Z n.

(** The addresses that the classifier is written to count as private: an
    IPv4 address of one of the six ranges, the IPv6 loopback, and an IPv6
    address whose text, in lower case, begins with [fc], [fd] or [fe80:]. *)
Definition listed_private (address : string) : Prop :=
  (exists a b c d,
      0 <= a <= 255 /\ 0 <= b <= 255 /\ 0 <= c <= 255 /\ 0 <= d <= 255
      /\ address = dotted a b c d /\ private_v4 a b = true)
  \/ (Net.isIP address = 6
      /\ (toLowerCase address = "::1"
          \/ startsWith "fc" (toLowerCase address) = true
          \/ startsWith "fd" (toLowerCase address) = true
          \/ startsWith "fe80:" (toLowerCase address) = true)).

(** What the host check has established of an address that it lets
    through: it is an IP address; written as a dotted quad it lies outside
    the six private IPv4 ranges; as an IPv6 address it is not the loopback
    and its text, in lower case, begins with none of [fc], [fd] and
    [fe80:].  For IPv6 this is less than lying outside of [fc00::/7] and
    [fe80::/10]. *)
Definition cleared (address : string) : Prop :=
  Net.isIP address <> 0
  /\ (forall a b c d,
        0 <= a <= 255 -> 0 <= b <= 255 -> 0 <= c <= 255 -> 0 <= d <= 255 ->
        address = dotted a b c d -> private_v4 a b = false)
  /\ (Net.isIP address = 6 ->
      toLowerCase address <> "::1"
      /\ startsWith "fc" (toLowerCase address) = false
      /\ startsWith "fd" (toLowerCase address) = false
      /\ startsWith "fe80:" (toLowerCase address) = false).

(** ** Traces *)

(** A computation only adds events to the trace, and all of them are
    [allowed]. *)
Definition extends_by {A} (allowed : event -> bool) (c : M A) : Prop :=
  forall tr r tr', c tr = (r, tr') ->
    exists evs, tr' = tr ++ evs /\ forallb allowed evs = true.

(** Classes of events. *)
Definition is_lookup (e : event) : bool :=
  match e with EvDnsLookup _ => true | _ => false end.

Definition is_body_read (e : event) : bool :=
  match e with EvArrayBuffer | EvRead | EvCancel => true | _ => false end.

Definition is_fetch (e : event) : bool :=
  match e with EvFetch _ => true | _ => false end.

Definition is_upload (e : event) : bool :=
  match e with EvUpload _ => true | _ => false end.

Definition is_store_write (e : event) : bool :=
  match e with EvStoreWrite _ => true | _ => false end.

(** The events of the ingestion pipeline: everything but the store. *)
Definition is_ingestion (e : event) : bool :=
  is_lookup e || is_fetch e || is_body_read e || is_upload e.

(** In the trace [t], every [EvFetch url] added after the first [n0] events
    sits exactly where a run of [assertPublicUrl] ended with [url] as its
    result. *)
Definition fetches_validated (P : Platform) (n0 : nat) (t : trace) : Prop :=
  forall before url after,
    t = before ++ EvFetch url :: after ->
    (n0 <= length before)%nat ->
    exists current t0, assertPublicUrl P current t0 = (Ok url, before).

(** A canonical URL is the non-empty [secure_url] of the answer to the
    upload that ends the run. *)
Definition obtained_from_upload (P : Platform) (url : string) (t : trace) : Prop :=
  exists t0 request,
    t = t0 ++ [EvUpload request]
    /\ cloudinary_post P t0 request = UploadJson (Some url)
    /\ url <> EmptyString.

(** ** The handler *)

(** The request reached the parser: it is a POST and the store is
    configured. *)
Definition accepted_request (P : Platform) (event : lambda_event) : Prop :=
  httpMethod event = "POST"
  /\ opt_or_else (env P "AIRTABLE_TOKEN") "" <> EmptyString
  /\ opt_or_else (env P "AIRTABLE_BASE_ID") "" <> EmptyString.

(** The request is a multipart form whose entries are [entries]. *)
Definition multipart_with (P : Platform) (event : lambda_event)
    (entries : list (string * form_value)) : Prop :=
  includes "multipart/form-data" (getHeader event "content-type") = true
  /\ formData P (getHeader event "content-type") (opt_or_else (ev_body event) "")
       (isBase64Encoded event) = Some entries.

(** The same runtime, whose multipart parser finds the entries [entries]. *)
Definition with_form (P : Platform) (entries : list (string * form_value))
    : Platform :=
  {| Number := Number P;
     valueToString := valueToString P;
     URL_new := URL_new P;
     URL_new_base := URL_new_base P;
     dns_lookup := dns_lookup P;
     fetch_get := fetch_get P;
     formData := fun _ _ _ => Some entries;
     JSON_parse := JSON_parse P;
     URLSearchParams := URLSearchParams P;
     env := env P;
     now_seconds := now_seconds P;
     sha1_hex := sha1_hex P;
     encodeURIComponent := encodeURIComponent P;
     cloudinary_post := cloudinary_post P;
     airtable_post := airtable_post P;
     airtable_error_label := airtable_error_label P;
     airtable_get := airtable_get P;
     URLSearchParams_toString := URLSearchParams_toString P;
     Date_parse := Date_parse P;
     Array_sort := Array_sort P |}.

(** Reading a field has no effect. *)
Definition read_field (P : Platform) (fields : fields_t) (name : string)
    : result string :=
  match field fields name with
  | Ok value => cleanText P value
  | Throw e => Throw e
  end.

(** The fields of a parsed form as the handler reads them. *)
Definition reads_field (P : Platform) (fields : gmap string jsvalue)
    (name text : string) : Prop :=
  cleanText P (default VUndefined (fields !! name)) = Ok text.

(** ** Status codes *)

(** The kinds of failure of a submission, by what fails: the request itself
    (a body that cannot be parsed, a missing name or photo, a photo URL that
    the host check refuses); the host of the photo URL, which does not
    deliver; an image that is too large; a media type that is not allowed;
    the configuration of the function; the store, which does not accept the
    record; the image host, which refuses the upload or answers without a
    URL. *)
Inductive failure_kind : Type :=
| Validation
| RemoteFetch
| TooLarge
| UnsupportedMedia
| Configuration
| Upstream
| UploadFailure.



(** The response declares an image of an allowed type and of a size within
    the limit. *)
Definition announces_image (P : Platform) (response : Response) : Prop :=
  200 <= status response <= 299
  /\ num_gtZ (Number P (opt_or_else (headers_get response "content-length") "0"))
             MAX_IMAGE_BYTES = false
  /\ In (normalizeMime (opt_or_else (headers_get response "content-type") ""))
        ALLOWED_IMAGE_MIME_TYPES.

(** Why the answer of the remote host to the request for the image is not
    accepted. *)
Inductive answer_fails (P : Platform) (response : Response) : failure_kind -> Prop :=
| redirect_without_location :
    300 <= status response < 400 ->
    opt_or_else (headers_get response "location") "" = EmptyString ->
    answer_fails P response RemoteFetch
| status_not_ok :
    status response < 200 \/ 400 <= status response ->
    answer_fails P response RemoteFetch
| declared_too_large :
    200 <= status response <= 299 ->
    num_gtZ (Number P (opt_or_else (headers_get response "content-length") "0"))
            MAX_IMAGE_BYTES = true ->
    answer_fails P response TooLarge
| type_not_allowed :
    200 <= status response <= 299 ->
    num_gtZ (Number P (opt_or_else (headers_get response "content-length") "0"))
            MAX_IMAGE_BYTES = false ->
    ~ In (normalizeMime (opt_or_else (headers_get response "content-type") ""))
         ALLOWED_IMAGE_MIME_TYPES ->
    answer_fails P response UnsupportedMedia
| stream_too_large (pre : list bytes) (value : bytes) (rest : list read_step) :
    announces_image P response ->
    body response = Reader (map Chunk pre ++ Chunk value :: rest) ->
    byteLength (concat pre) <= MAX_IMAGE_BYTES ->
    byteLength (concat pre) + byteLength value > MAX_IMAGE_BYTES ->
    answer_fails P response TooLarge
| buffer_too_large (whole : bytes) :
    announces_image P response ->
    body response = NoReader (Some whole) ->
    byteLength whole > MAX_IMAGE_BYTES ->
    answer_fails P response TooLarge
| body_empty :
    announces_image P response ->
    body response = NoReader (Some [])
    \/ (exists chunks, body response = Reader (map Chunk chunks) /\ concat chunks = []) ->
    answer_fails P response RemoteFetch.

(** Why one iteration of the redirect loop does not go through. *)
Inductive hop_fails (P : Platform) (url : string) (tr : trace)
  : failure_kind -> Prop :=
| host_refused (e : error) (tr' : trace) :
    assertPublicUrl P url tr = (Throw e, tr') ->
    hop_fails P url tr Validation
| fetch_timed_out (checked : string) (t1 : trace) :
    assertPublicUrl P url tr = (Ok checked, t1) ->
    fetch_get P t1 checked = FetchAborted ->
    hop_fails P url tr RemoteFetch
| fetch_rejected (checked : string) (t1 : trace) :
    assertPublicUrl P url tr = (Ok checked, t1) ->
    fetch_get P t1 checked = FetchFailed ->
    hop_fails P url tr RemoteFetch
| answer_refused (checked : string) (t1 : trace) (response : Response)
                 (kind : failure_kind) :
    assertPublicUrl P url tr = (Ok checked, t1) ->
    fetch_get P t1 checked = FetchResponse response ->
    answer_fails P response kind ->
    hop_fails P url tr kind.

(** Why the image behind a photo URL is not obtained: after at most
    [MAX_REDIRECTS] redirects an iteration fails, or there is one redirect
    more. *)
Inductive fetch_fails (P : Platform) (urlString : string) (tr : trace)
  : failure_kind -> Prop :=
| hop_failed (n : nat) (last : string) (t1 : trace) (kind : failure_kind) :
    (n <= MAX_REDIRECTS)%nat ->
    redirect_chain P n (trim urlString) tr last t1 ->
    hop_fails P last t1 kind ->
    fetch_fails P urlString tr kind
| too_many_redirects (last : string) (t1 : trace) :
    redirect_chain P (S MAX_REDIRECTS) (trim urlString) tr last t1 ->
    fetch_fails P urlString tr RemoteFetch.

(** The request is accepted, its body is parsed, the honeypot is empty and
    the three fields that the handler reads first are as given. *)
Definition submits (P : Platform) (event : lambda_event) (fields : fields_t)
    (photoFile : option image) (catName humanName photoUrl : string) : Prop :=
  accepted_request P event
  /\ parseBody P event = Ok (fields, photoFile)
  /\ (exists website, field fields "website" = Ok website /\ truthy website = false)
  /\ read_field P fields "catName" = Ok catName
  /\ read_field P fields "humanName" = Ok humanName
  /\ read_field P fields "photoUrl" = Ok photoUrl.

(** The submission also names the cat, its human and a photo, and the image
    host is configured: the handler goes on to the photo. *)
Definition ingests (P : Platform) (event : lambda_event) (fields : fields_t)
    (photoFile : option image) (catName humanName photoUrl : string)
    (config : cloudinaryConfig) : Prop :=
  submits P event fields photoFile catName humanName photoUrl
  /\ catName <> EmptyString
  /\ humanName <> EmptyString
  /\ (photoFile <> None \/ photoUrl <> EmptyString)
  /\ getCloudinaryConfig P = Ok config.

(** The image that goes to the image host: the uploaded file, or else the
    image fetched from the photo URL; [t1] is the trace then. *)
Definition obtains (P : Platform) (photoUrl : string) (photoFile : option image)
    (tr : trace) (img : image) (t1 : trace) : Prop :=
  (photoFile = Some img /\ buffer img <> [] /\ t1 = tr)
  \/ (photoFile = None /\ fetchImageFromUrl P photoUrl tr = (Ok img, t1)).

(** Why a submission fails, by what fails. *)
Inductive fails_with (P : Platform) (event : lambda_event) (tr : trace)
  : failure_kind -> Prop :=
| store_unconfigured :
    httpMethod event = "POST" ->
    opt_or_else (env P "AIRTABLE_TOKEN") "" = EmptyString
    \/ opt_or_else (env P "AIRTABLE_BASE_ID") "" = EmptyString ->
    fails_with P event tr Configuration
| body_unparsed :
    accepted_request P event ->
    (includes "multipart/form-data" (getHeader event "content-type") = true
     /\ formData P (getHeader event "content-type") (opt_or_else (ev_body event) "")
          (isBase64Encoded event) = None)
    \/ (includes "multipart/form-data" (getHeader event "content-type") = false
        /\ includes "application/json" (getHeader event "content-type") = true
        /\ JSON_parse P (opt_or_else (ev_body event) "{}") = None) ->
    fails_with P event tr Validation
| uploaded_file_too_large (pre post : list (string * form_value)) (f : form_file)
                          (fields0 : gmap string jsvalue) (file0 : option image) :
    accepted_request P event ->
    multipart_with P event (pre ++ ("photoFile", FormFile f) :: post) ->
    parse_entries pre ∅ None = Ok (fields0, file0) ->
    file_size f > MAX_IMAGE_BYTES ->
    fails_with P event tr TooLarge
| uploaded_file_type_refused (pre post : list (string * form_value)) (f : form_file)
                             (fields0 : gmap string jsvalue) (file0 : option image) :
    accepted_request P event ->
    multipart_with P event (pre ++ ("photoFile", FormFile f) :: post) ->
    parse_entries pre ∅ None = Ok (fields0, file0) ->
    file_size f <> 0 ->
    file_size f <= MAX_IMAGE_BYTES ->
    ~ In (normalizeMime (or_else (file_type f) "")) ALLOWED_IMAGE_MIME_TYPES ->
    fails_with P event tr UnsupportedMedia
| names_missing (fields : fields_t) (photoFile : option image)
                (catName humanName photoUrl : string) :
    submits P event fields photoFile catName humanName photoUrl ->
    catName = EmptyString \/ humanName = EmptyString ->
    fails_with P event tr Validation
| photo_missing (fields : fields_t) (catName humanName : string) :
    submits P event fields None catName humanName EmptyString ->
    catName <> EmptyString ->
    humanName <> EmptyString ->
    fails_with P event tr Validation
| image_host_unconfigured (fields : fields_t) (photoFile : option image)
                          (catName humanName photoUrl : string) :
    submits P event fields photoFile catName humanName photoUrl ->
    catName <> EmptyString ->
    humanName <> EmptyString ->
    photoFile <> None \/ photoUrl <> EmptyString ->
    opt_or_else (env P "CLOUDINARY_CLOUD_NAME") "" = EmptyString
    \/ opt_or_else (env P "CLOUDINARY_API_KEY") "" = EmptyString
    \/ opt_or_else (env P "CLOUDINARY_API_SECRET") "" = EmptyString ->
    fails_with P event tr Configuration
| photo_not_fetched (fields : fields_t) (catName humanName photoUrl : string)
                    (config : cloudinaryConfig) (kind : failure_kind) :
    ingests P event fields None catName humanName photoUrl config ->
    fetch_fails P photoUrl tr kind ->
    fails_with P event tr kind
| upload_refused (fields : fields_t) (photoFile : option image)
                 (catName humanName photoUrl : string) (config : cloudinaryConfig)
                 (img : image) (t1 : trace) (request : upload_request) :
    ingests P event fields photoFile catName humanName photoUrl config ->
    obtains P photoUrl photoFile tr img t1 ->
    snd (uploadToCloudinary P img config t1) = t1 ++ [EvUpload request] ->
    cloudinary_post P t1 request = UploadNotOk true
    \/ (exists secure_url,
          cloudinary_post P t1 request = UploadJson secure_url
          /\ opt_or_else secure_url "" = EmptyString) ->
    fails_with P event tr UploadFailure
| record_not_stored (fields : fields_t) (photoFile : option image)
                    (catName humanName photoUrl : string) (config : cloudinaryConfig)
                    (url : string) (t1 : trace) (request : store_request) :
    ingests P event fields photoFile catName humanName photoUrl config ->
    resolveCanonicalPhotoUrl P photoUrl photoFile config tr = (Ok url, t1) ->
    snd (save_record P event
           (opt_or_else (env P "AIRTABLE_TOKEN") "")
           (opt_or_else (env P "AIRTABLE_BASE_ID") "")
           (opt_or_else (env P "AIRTABLE_TABLE_NAME") "Cats")
           fields catName humanName url t1)
      = t1 ++ [EvStoreWrite request] ->
    airtable_post P t1 request = StoreFetchFails
    \/ (exists st text, airtable_post P t1 request = StoreResponse false st text) ->
    fails_with P event tr Upstream.


(** The statuses that the function gives to an error it throws, and to a
    response. *)
Definition coded_error (e : error) : Prop :=
  match e with
  | SubmissionError _ st => In st [400; 413; 500; 502]
  | OtherError => True
  end.

Definition coded_response (r : http_response) : Prop :=
  In (statusCode r) [200; 303; 405; 400; 413; 500; 502].

(** Every run of [c] returns a value that satisfies [Q] or throws an error
    that satisfies [E]. *)
Definition run_spec {A} (Q : A -> Prop) (E : error -> Prop) (c : M A) : Prop :=
  forall tr r tr', c tr = (r, tr') ->
    match r with Ok a => Q a | Throw e => E e end.

(** The same for a result without effects. *)
Definition result_spec {A} (Q : A -> Prop) (E : error -> Prop) (r : result A) : Prop :=
  match r with Ok a => Q a | Throw e => E e end.

(** ** The record reader *)



(** [Boolean(cat.photoUrl)] *)
Definition has_photo (c : cat) : bool := truthy (cat_photoUrl c).





(** ** Further vocabulary *)

(** The lower-case names that the table of extensions inherits from
    [Object.prototype]. *)
Definition inherited_name (lowerMime : string) : bool :=
  String.eqb lowerMime "constructor" || String.eqb lowerMime "__proto__".

(** An uploaded file as the parser lets it through. *)
Definition valid_upload (file : image) : Prop :=
  In (mimeType file) ALLOWED_IMAGE_MIME_TYPES
  /\ size file = Some (byteLength (buffer file))
  /\ 0 < byteLength (buffer file) <= MAX_IMAGE_BYTES
  /\ nonempty (filename file) = true
  /\ forallb is_filename_char (Net.chars (filename file)) = true.

(** Every property of the parsed fields is a string. *)
Definition all_strings (props : gmap string jsvalue) : Prop :=
  forall key value, props !! key = Some value -> exists s, value = VString s.

(** The same runtime, whose JSON parser is [parse]. *)
Definition with_json (P : Platform) (parse : string -> option fields_t) : Platform :=
  {| Number := Number P;
     valueToString := valueToString P;
     URL_new := URL_new P;
     URL_new_base := URL_new_base P;
     dns_lookup := dns_lookup P;
     fetch_get := fetch_get P;
     formData := formData P;
     JSON_parse := parse;
     URLSearchParams := URLSearchParams P;
     env := env P;
     now_seconds := now_seconds P;
     sha1_hex := sha1_hex P;
     encodeURIComponent := encodeURIComponent P;
     cloudinary_post := cloudinary_post P;
     airtable_post := airtable_post P;
     airtable_error_label := airtable_error_label P;
     airtable_get := airtable_get P;
     URLSearchParams_toString := URLSearchParams_toString P;
     Date_parse := Date_parse P;
     Array_sort := Array_sort P |}.


(** The address of the list request. *)
Definition records_url (P : Platform) : string :=
  AIRTABLE_API +:+ "/" +:+ opt_or_else (env P "AIRTABLE_BASE_ID") "" +:+ "/"
  +:+ encodeURIComponent P (opt_or_else (env P "AIRTABLE_TABLE_NAME") "Cats")
  +:+ "?"
  +:+ URLSearchParams_toString P
        [("view", opt_or_else (env P "AIRTABLE_VIEW") "Approved"); ("pageSize", "100")].

(** The same runtime, whose store answers the list request with [answer]. *)
Definition with_rows (P : Platform) (answer : read_outcome) : Platform :=
  {| Number := Number P;
     valueToString := valueToString P;
     URL_new := URL_new P;
     URL_new_base := URL_new_base P;
     dns_lookup := dns_lookup P;
     fetch_get := fetch_get P;
     formData := formData P;
     JSON_parse := JSON_parse P;
     URLSearchParams := URLSearchParams P;
     env := env P;
     now_seconds := now_seconds P;
     sha1_hex := sha1_hex P;
     encodeURIComponent := encodeURIComponent P;
     cloudinary_post := cloudinary_post P;
     airtable_post := airtable_post P;
     airtable_error_label := airtable_error_label P;
     airtable_get := fun _ _ => answer;
     URLSearchParams_toString := URLSearchParams_toString P;
     Date_parse := Date_parse P;
     Array_sort := Array_sort P |}.

(** The events of the remote fetch: lookups, requests and body reads. *)
Definition is_remote (e : event) : bool :=
  is_lookup e || is_fetch e || is_body_read e.

(** * Sample data *)

(** A resolver that gives every host a public and a private address. *)
Definition mixed_lookup : trace -> string -> option (list string) :=
  fun _ _ => Some ["93.184.216.34"; "10.0.0.1"].

Definition mixed_platform : Platform :=
  sample_platform mixed_lookup no_fetch None full_env no_upload no_store.

(** A resolver that gives every host a public address and a link-local
    one. *)
Definition rebind_platform : Platform :=
  sample_platform (fun _ _ => Some ["93.184.216.34"; "fe90::1"])
    no_fetch None full_env no_upload no_store.

(** A resolver that gives every host one public address. *)
Definition public_lookup : trace -> string -> option (list string) :=
  fun _ _ => Some ["93.184.216.34"].

(** A response that declares two bytes and streams five, read with a limit
    of four bytes: the second chunk is the last one read. *)
Definition understated_response : Response :=
  mkResponse 200 {[ "content-length" := "2"; "content-type" := "image/png" ]}
    (Reader [Chunk [Byte.x61; Byte.x62]; Chunk [Byte.x63; Byte.x64; Byte.x65];
             Chunk [Byte.x66]]).

(** A redirect to [location]. *)
Definition redirect_response (location : string) : Response :=
  mkResponse 302 {[ "location" := location ]} (Reader []).

(** A four-byte body served as [image/png]. *)
Definition png_response : Response :=
  mkResponse 200 {[ "content-type" := "image/png" ]}
    (Reader [Chunk [Byte.x89; Byte.x50; Byte.x4e; Byte.x47]]).

(** A host that answers every request with a redirect to itself. *)
Definition loop_platform : Platform :=
  sample_platform public_lookup
    (fun _ _ => FetchResponse (redirect_response "http://loop.example/"))
    None full_env no_upload no_store.

(** The number of requests sent so far. *)
Definition count_fetches (tr : trace) : nat := length (List.filter is_fetch tr).

(** A host that redirects the first four requests and then serves a PNG. *)
Definition four_then_png : trace -> string -> fetch_outcome :=
  fun tr _ =>
    if (count_fetches tr <? 4)%nat
    then FetchResponse (redirect_response "http://cats.example/cat.png")
    else FetchResponse png_response.

Definition four_platform : Platform :=
  sample_platform public_lookup four_then_png None full_env no_upload no_store.

(** A multipart POST; the sample runtimes fix what its body parses to. *)
Definition multipart_event : lambda_event :=
  mkEvent "POST"
    (Some {[ "content-type" := "multipart/form-data; boundary=xyz" ]})
    (Some "--xyz") false.

(** A form filled by a bot: the hidden [website] field is not empty. *)
Definition bot_form : list (string * form_value) :=
  [ ("catName", FormString "Tom"); ("humanName", FormString "Jerry");
    ("photoUrl", FormString "https://cats.example/tom.png");
    ("website", FormString "https://spam.example") ].

Definition bot_platform : Platform :=
  sample_platform public_lookup no_fetch (Some bot_form) full_env no_upload no_store.

(** A form whose file input was left empty, without a photo URL. *)
Definition empty_file : form_file := mkFile "tom.png" "image/png" [].

Definition empty_file_form : list (string * form_value) :=
  [ ("catName", FormString "Tom");
    ("photoFile", FormFile empty_file);
    ("humanName", FormString "Jerry") ].

Definition empty_file_platform : Platform :=
  sample_platform public_lookup no_fetch (Some empty_file_form) full_env
    no_upload no_store.

(** A complete submission with an uploaded PNG. *)
Definition tom_file : form_file :=
  mkFile "tom.png" "image/png" [Byte.x89; Byte.x50; Byte.x4e; Byte.x47].

Definition upload_form : list (string * form_value) :=
  [ ("catName", FormString "Tom"); ("humanName", FormString "Jerry");
    ("photoFile", FormFile tom_file) ].

Definition hosted_url : string := "https://res.cloudinary.com/cats/tom.png".

Definition good_platform : Platform :=
  sample_platform public_lookup no_fetch (Some upload_form) full_env
    (fun _ _ => UploadJson (Some hosted_url))
    (fun _ _ => StoreResponse true 200 None).

(** The upload request and the store request of that submission. *)
Definition tom_upload : upload_request :=
  mkUpload "https://api.cloudinary.com/v1_1/cats/image/upload"
    [Byte.x89; Byte.x50; Byte.x4e; Byte.x47] "image/png" "tom.png" "key"
    "1700000000" (Some "catsof-dev") "da39a3ee5e6b4b0d3255bfef95601890afd80709".

Definition tom_record : store_request :=
  mkStore "https://api.airtable.com/v0/appBase/Cats" "Bearer pat-token"
    (mkPayload "Tom" "Jerry" "" hosted_url "" "Pending").

(** A submission whose uploaded file is declared as [text/html]. *)
Definition html_form : list (string * form_value) :=
  [ ("catName", FormString "Tom"); ("humanName", FormString "Jerry");
    ("photoFile", FormFile (mkFile "tom.html" "text/html" [Byte.x3c])) ].

Definition html_platform : Platform :=
  sample_platform public_lookup no_fetch (Some html_form) full_env
    no_upload no_store.

(** A submission by URL, to a host that answers 404. *)
Definition url_form : list (string * form_value) :=
  [ ("catName", FormString "Tom"); ("humanName", FormString "Jerry");
    ("photoUrl", FormString "https://cats.example/gone.png") ].

Definition gone_platform : Platform :=
  sample_platform public_lookup
    (fun _ _ => FetchResponse (mkResponse 404 ∅ (Reader [])))
    (Some url_form) full_env no_upload no_store.

(** A row of the store, and the cat it is rendered as. *)
Definition row (created photo : string) : airtable_record :=
  mkRecord (VString created) (VString created)
    (Some {[ "Cat Name" := VString "Tom"; "Photo URL" := VString photo ]}).

Definition shown (created photo : string) : cat :=
  mkCat (VString created) (VString created) (VString "Tom")
    (VString "Anonymous Developer") (VString "") (VString photo) (VString "").

Definition sample_rows : list airtable_record :=
  [ row "2024-01-01T00:00:00.000Z" "https://res.cloudinary.com/cats/a.png";
    row "2024-03-01T00:00:00.000Z" "";
    row "2024-02-01T00:00:00.000Z" "https://res.cloudinary.com/cats/b.png" ].



Definition sample_cats : list cat :=
  [ shown "2024-02-01T00:00:00.000Z" "https://res.cloudinary.com/cats/b.png";
    shown "2024-01-01T00:00:00.000Z" "https://res.cloudinary.com/cats/a.png" ].

(** ** Further sample data *)

(** A response that declares more than eight megabytes. *)
Definition declared_response : Response :=
  mkResponse 200 {[ "content-length" := "8388609"; "content-type" := "image/png" ]}
    (Reader [Chunk [Byte.x89; Byte.x50; Byte.x4e; Byte.x47]]).

Definition declared_platform : Platform :=
  sample_platform public_lookup (fun _ _ => FetchResponse declared_response)
    None full_env no_upload no_store.

(** A public host that redirects to the link-local metadata address. *)
Definition metadata_platform : Platform :=
  sample_platform public_lookup
    (fun _ _ => FetchResponse
                  (redirect_response "http://169.254.169.254/latest/meta-data"))
    None full_env no_upload no_store.

(** The file of the complete submission, as parsed. *)
Definition tom_image : image :=
  mkImage "tom.png" "image/png" (Some 4) [Byte.x89; Byte.x50; Byte.x4e; Byte.x47].

(** An environment without the variables of the image host. *)
Definition store_only_env (name : string) : option string :=
  if String.eqb name "AIRTABLE_TOKEN" then Some "pat-token"
  else if String.eqb name "AIRTABLE_BASE_ID" then Some "appBase"
  else None.

Definition unhosted_platform : Platform :=
  sample_platform public_lookup no_fetch (Some upload_form) store_only_env
    (fun _ _ => UploadJson (Some hosted_url))
    (fun _ _ => StoreResponse true 200 None).

(** A JSON POST whose body is [null]. *)
Definition null_event : lambda_event :=
  mkEvent "POST" (Some {[ "content-type" := "application/json" ]}) (Some "null") false.

Definition null_platform : Platform :=
  with_json good_platform
    (fun s => if String.eqb s "null" then Some FieldsNull else None).

(** The complete submission, sent by a client that asks for JSON. *)
Definition api_event : lambda_event :=
  mkEvent "POST"
    (Some {[ "content-type" := "multipart/form-data; boundary=xyz";
             "accept" := "application/json" ]})
    (Some "--xyz") false.



(** Rows of which the last has no [fields]. *)
Definition bare_row : airtable_record :=
  mkRecord (VString "recBare") (VString "2024-02-01T00:00:00.000Z") None.

Definition broken_platform : Platform :=
  with_rows good_platform (ReadJson (Some (sample_rows ++ [bare_row]))).

(** A capitalised content type on a JSON body. *)
Definition capitalised_event : lambda_event :=
  mkEvent "POST" (Some {[ "Content-Type" := "application/json" ]})
    (Some "{}") false.

(** An image host that answers the upload with an error. *)
Definition refusing_platform : Platform :=
  sample_platform public_lookup no_fetch (Some upload_form) full_env
    (fun _ _ => UploadNotOk true) no_store.

(** A store that does not accept the record. *)
Definition rejecting_platform : Platform :=
  sample_platform public_lookup no_fetch (Some upload_form) full_env
    (fun _ _ => UploadJson (Some hosted_url))
    (fun _ _ => StoreResponse false 422 (Some "INVALID_VALUE_FOR_COLUMN")).

(** * Properties *)

(** ** Strings *)

Lemma split_no_sep (sep : ascii) (s : string) :
  ~ In sep (Net.chars s) -> split sep s = [s].
Proof.
  induction s as [|c s IH]; simpl; intros Hnot; [reflexivity|].
  destruct (Ascii.eqb_spec c sep) as [->|Hne].
  - exfalso. apply Hnot. now left.
  - rewrite IH; [reflexivity|]. intros Hin. apply Hnot. now right.
Qed.

Lemma split_at_sep (sep : ascii) (s r : string) :
  ~ In sep (Net.chars s) ->
  split sep (s +:+ String sep r) = s :: split sep r.
Proof.
  induction s as [|c s IH]; simpl; intros Hnot.
  - now rewrite Ascii.eqb_refl.
  - destruct (Ascii.eqb_spec c sep) as [->|Hne].
    + exfalso. apply Hnot. now left.
    + rewrite IH; [reflexivity|]. intros Hin. apply Hnot. now right.
Qed.



Lemma allowed_has_In (s : string) :
  allowed_has s = true <-> In s ALLOWED_IMAGE_MIME_TYPES.
Proof.
  unfold allowed_has. rewrite existsb_exists. split.
  - intros (x & Hx & Heq). apply String.eqb_eq in Heq. now subst.
  - intros H. exists s. split; [exact H|apply String.eqb_refl].
Qed.

Lemma sanitize_Ok_iff (raw out : string) :
  sanitizeImageMimeType raw = Ok out <->
  out = normalizeMime raw /\ In out ALLOWED_IMAGE_MIME_TYPES.
Proof.
  unfold sanitizeImageMimeType.
  destruct (allowed_has (normalizeMime raw)) eqn:E; simpl; split.
  - intros [= <-]. split; [reflexivity|now apply allowed_has_In].
  - now intros [-> _].
  - discriminate.
  - intros [-> H]. apply allowed_has_In in H. congruence.
Qed.

(** ** Host safety *)

Lemma check_records_private (P : Platform) (records : list string) (address : string) :
  In address records ->
  isPrivateIpAddress P address = true ->
  check_records P records = Throw (SubmissionError_default msg_internal_host).
Proof.
  induction records as [|a rest IH]; simpl; [easy|].
  intros [->|Hin] Hpriv.
  - now rewrite Hpriv.
  - destruct (isPrivateIpAddress P a); [reflexivity|now apply IH].
Qed.

Lemma check_records_public (P : Platform) (records : list string) :
  (forall address, In address records -> isPrivateIpAddress P address = false) ->
  check_records P records = Ok tt.
Proof.
  induction records as [|a rest IH]; simpl; [easy|].
  intros Hall. rewrite (Hall a) by now left.
  apply IH. intros address Hin. apply Hall. now right.
Qed.

(** The run of the host check on a host name that is neither local nor an
    IP literal: one lookup, then the walk over its answer. *)
Lemma assertPublicUrl_resolves (P : Platform) (urlString : string)
    (parsedUrl : URL) (tr : trace) :
  URL_new P urlString = Some parsedUrl ->
  protocol parsedUrl = "https:" \/ protocol parsedUrl = "http:" ->
  local_name (toLowerCase (hostname parsedUrl)) = false ->
  Net.isIP (toLowerCase (hostname parsedUrl)) = 0 ->
  assertPublicUrl P urlString tr
  = (match dns_lookup P tr (toLowerCase (hostname parsedUrl)) with
     | None => Throw (SubmissionError_default msg_unresolved)
     | Some [] => Throw (SubmissionError_default msg_unresolved)
     | Some records =>
         match check_records P records with
         | Ok _ => Ok (href parsedUrl)
         | Throw e => Throw e
         end
     end,
     tr ++ [EvDnsLookup (toLowerCase (hostname parsedUrl))]).
Proof.
  intros Hurl Hproto Hlocal Hip. unfold assertPublicUrl. rewrite Hurl.
  assert (Hp : negb (String.eqb (protocol parsedUrl) "https:"
                     || String.eqb (protocol parsedUrl) "http:") = false).
  { destruct Hproto as [-> | ->]; reflexivity. }
  rewrite Hp. fold (local_name (toLowerCase (hostname parsedUrl))).
  rewrite Hlocal, Hip. simpl. unfold bind, perform.
  destruct (dns_lookup P tr (toLowerCase (hostname parsedUrl))) as [[|a rest]|];
    try reflexivity.
  simpl length. simpl Nat.eqb. cbv iota. unfold lift.
  now destruct (check_records P (a :: rest)).
Qed.

(** A host name that is not an IP literal is looked up once, for all its
    addresses, and the URL is refused with the internal-host error as soon
    as the classifier counts one address of the answer, at any position, as
    private. *)
Lemma assertPublicUrl_rejects_any_private_record :
  forall (P : Platform) (urlString : string) (parsedUrl : URL)
         (records : list string) (address : string) (tr : trace),
    URL_new P urlString = Some parsedUrl ->
    protocol parsedUrl = "https:" \/ protocol parsedUrl = "http:" ->
    Net.isIP (toLowerCase (hostname parsedUrl)) = 0 ->
    dns_lookup P tr (toLowerCase (hostname parsedUrl)) = Some records ->
    In address records ->
    isPrivateIpAddress P address = true ->
    fst (assertPublicUrl P urlString tr)
      = Throw (SubmissionError msg_internal_host 400)
    /\ (local_name (toLowerCase (hostname parsedUrl)) = false ->
        snd (assertPublicUrl P urlString tr)
          = tr ++ [EvDnsLookup (toLowerCase (hostname parsedUrl))]).
Proof.
  intros P urlString parsedUrl records address tr Hurl Hproto Hip Hdns Hin Hpriv.
  destruct (local_name (toLowerCase (hostname parsedUrl))) eqn:Hlocal.
  - split; [|discriminate].
    unfold assertPublicUrl. rewrite Hurl.
    destruct Hproto as [Hproto|Hproto]; rewrite Hproto; simpl negb; cbv iota;
      fold (local_name (toLowerCase (hostname parsedUrl)));
      now rewrite Hlocal.
  - rewrite (assertPublicUrl_resolves P urlString parsedUrl tr Hurl Hproto Hlocal Hip).
    rewrite Hdns, (check_records_private P records address Hin Hpriv).
    destruct records as [|a rest]; [destruct Hin|].
    split; [reflexivity|intros _; reflexivity].
Qed.

Example mixed_answer_is_refused :
  fst (assertPublicUrl mixed_platform "https://cats.example/a.png" [])
    = Throw (SubmissionError msg_internal_host 400)
  /\ (local_name "cats.example" = false ->
      snd (assertPublicUrl mixed_platform "https://cats.example/a.png" [])
        = [EvDnsLookup "cats.example"]).
Proof.
  apply (assertPublicUrl_rejects_any_private_record mixed_platform
           "https://cats.example/a.png"
           (mkURL "https:" "cats.example" "/a.png" "https://cats.example/a.png")
           ["93.184.216.34"; "10.0.0.1"] "10.0.0.1" []).
  - reflexivity.
  - left. reflexivity.
  - reflexivity.
  - reflexivity.
  - right. left. reflexivity.
  - vm_compute. reflexivity.
Qed.

Example mixed_lookup_first_is_public :
  isPrivateIpAddress mixed_platform "93.184.216.34" = false
  /\ isPrivateIpAddress mixed_platform "10.0.0.1" = true.
Proof. split; vm_compute; reflexivity. Qed.

(** ** The bounded reader *)

Lemma byteLength_nonneg (b : bytes) : 0 <= byteLength b.
Proof. unfold byteLength. lia. Qed.

Lemma byteLength_concat_cons (c : bytes) (l : list bytes) :
  byteLength (concat (c :: l)) = byteLength c + byteLength (concat l).
Proof. unfold byteLength. simpl. rewrite length_app. lia. Qed.

(** While the running total stays within the limit the loop keeps reading;
    the chunk that takes it over the limit is the last one read. *)
Lemma read_loop_over (maxBytes : Z) (pre : list bytes) :
  forall (value : bytes) (rest : list read_step) (chunks : list bytes)
         (total : Z) (tr : trace),
    total + byteLength (concat pre) <= maxBytes ->
    total + byteLength (concat pre) + byteLength value > maxBytes ->
    read_loop maxBytes (map Chunk pre ++ Chunk value :: rest) chunks total tr
      = (Throw (SubmissionError msg_too_large 413),
         tr ++ repeat EvRead (S (length pre)) ++ [EvCancel]).
Proof.
  induction pre as [|c pre IH]; intros value rest chunks total tr Hle Hgt.
  - simpl. unfold bind, perform. simpl in Hle, Hgt.
    replace (total + byteLength value >? maxBytes) with true
      by (symmetry; apply Z.gtb_lt; unfold byteLength in *; simpl in *; lia).
    unfold throw. now rewrite <- app_assoc.
  - rewrite byteLength_concat_cons in Hle, Hgt.
    pose proof (byteLength_nonneg (concat pre)) as Hpre.
    simpl map. simpl app. simpl read_loop. unfold bind at 1, perform at 1.
    replace (total + byteLength c >? maxBytes) with false
      by (symmetry; rewrite Z.gtb_ltb; apply Z.ltb_ge; lia).
    rewrite IH by lia.
    f_equal. rewrite <- !app_assoc. reflexivity.
Qed.

Lemma read_loop_within (maxBytes : Z) (cs : list bytes) :
  forall (chunks : list bytes) (total : Z) (tr : trace),
    total + byteLength (concat cs) <= maxBytes ->
    read_loop maxBytes (map Chunk cs) chunks total tr
      = (Ok (concat (chunks ++ cs)), tr ++ repeat EvRead (S (length cs))).
Proof.
  induction cs as [|c cs IH]; intros chunks total tr Hle.
  - simpl. unfold bind, perform, ret. now rewrite app_nil_r.
  - rewrite byteLength_concat_cons in Hle.
    pose proof (byteLength_nonneg (concat cs)) as Hcs.
    simpl map. simpl read_loop. unfold bind at 1, perform at 1.
    replace (total + byteLength c >? maxBytes) with false
      by (symmetry; rewrite Z.gtb_ltb; apply Z.ltb_ge; lia).
    rewrite IH by lia.
    rewrite <- !app_assoc. reflexivity.
Qed.

(** C3. Whatever the headers of the response say, reading a streamed body
    stops with the too-large error (status 413) at the first chunk that
    takes the running total over [maxBytes]: nothing after that chunk is
    read, and the stream is cancelled.  A stream that stays within the limit
    is returned whole.  A body without a reader is read in one piece and its
    length is checked afterwards. *)
Theorem readResponseWithLimit_enforces_limit :
  forall (response : Response) (maxBytes : Z) (tr : trace),
    (forall (pre : list bytes) (value : bytes) (rest : list read_step),
        body response = Reader (map Chunk pre ++ Chunk value :: rest) ->
        byteLength (concat pre) <= maxBytes ->
        byteLength (concat pre) + byteLength value > maxBytes ->
        readResponseWithLimit response maxBytes tr
          = (Throw (SubmissionError msg_too_large 413),
             tr ++ repeat EvRead (S (length pre)) ++ [EvCancel]))
    /\ (forall chunks : list bytes,
           body response = Reader (map Chunk chunks) ->
           byteLength (concat chunks) <= maxBytes ->
           readResponseWithLimit response maxBytes tr
             = (Ok (concat chunks), tr ++ repeat EvRead (S (length chunks))))
    /\ (forall whole : bytes,
           body response = NoReader (Some whole) ->
           readResponseWithLimit response maxBytes tr
             = (if byteLength whole >? maxBytes
                then Throw (SubmissionError msg_too_large 413)
                else Ok whole,
                tr ++ [EvArrayBuffer])).
Proof.
  intros response maxBytes tr. unfold readResponseWithLimit. repeat split.
  - intros pre value rest -> Hle Hgt. apply read_loop_over; lia.
  - intros chunks -> Hle. now rewrite read_loop_within by lia.
  - intros whole ->. unfold bind, perform, throw, ret.
    now destruct (byteLength whole >? maxBytes).
Qed.

Lemma readResponseWithLimit_enforces_limit_witness :
  readResponseWithLimit understated_response 4 []
    = (Throw (SubmissionError msg_too_large 413), [EvRead; EvRead; EvCancel]).
Proof.
  apply (proj1 (readResponseWithLimit_enforces_limit understated_response 4 [])
           [[Byte.x61; Byte.x62]] [Byte.x63; Byte.x64; Byte.x65] [Chunk [Byte.x66]]).
  - reflexivity.
  - vm_compute. discriminate.
  - vm_compute. reflexivity.
Defined.

(** ** Running monadic code in proofs *)

Ltac unfold_M :=
  unfold bind, perform, lift, throw, ret, try_or_return, get_trace in *.

(** Case analysis on the scrutinees met along a run that is known to end
    in a given result. *)
Ltac split_run H :=
  repeat match type of H with
         | context [match ?x with _ => _ end] =>
             destruct x eqn:?; try discriminate H
         end.

(** ** The redirect loop, one iteration at a time *)

Lemma nonempty_false (s : string) : nonempty s = false <-> s = EmptyString.
Proof. destruct s; simpl; split; congruence. Qed.

Lemma nonempty_true (s : string) : nonempty s = true <-> s <> EmptyString.
Proof. destruct s; simpl; split; congruence. Qed.

Lemma opt_or_else_nonempty (o : option string) (s : string) :
  nonempty (opt_or_else o "") = true ->
  opt_or_else o "" = s -> o = Some s.
Proof.
  destruct o as [x|]; simpl; [|discriminate].
  unfold or_else. destruct (nonempty x) eqn:E; [|discriminate].
  now intros _ ->.
Qed.

Lemma opt_or_else_Some (s d : string) :
  s <> EmptyString -> opt_or_else (Some s) d = s.
Proof. intros H. apply nonempty_true in H. unfold opt_or_else, or_else. now rewrite H. Qed.

Lemma fetch_hop_Continue_inv (P : Platform) (url next : string) (tr tr' : trace) :
  fetch_hop P url tr = (Ok (Continue next), tr') ->
  exists checked t1 response,
    assertPublicUrl P url tr = (Ok checked, t1)
    /\ fetch_get P t1 checked = FetchResponse response
    /\ redirect_to P response checked next
    /\ tr' = t1 ++ [EvFetch checked].
Proof.
  unfold fetch_hop. unfold bind at 1.
  destruct (assertPublicUrl P url tr) as [[checked|e] t1] eqn:Hassert; [|discriminate].
  unfold bind at 1, perform at 1.
  destruct (fetch_get P t1 checked) as [| |response] eqn:Hfetch; try discriminate.
  intros H. exists checked, t1, response.
  destruct ((status response >=? 300) && (status response <? 400)) eqn:H3xx.
  - destruct (nonempty (opt_or_else (headers_get response "location") "")) eqn:Hloc;
      simpl in H; [|discriminate].
    destruct (URL_new_base P _ checked) as [target|] eqn:Htarget; [|discriminate].
    unfold ret in H. injection H as <- <-.
    repeat split; try assumption.
    + apply andb_prop in H3xx as [Hge _]. apply Z.geb_le in Hge. lia.
    + apply andb_prop in H3xx as [_ Hlt]. now apply Z.ltb_lt in Hlt.
    + exists (opt_or_else (headers_get response "location") ""), target.
      repeat split; try assumption.
      * now apply opt_or_else_nonempty.
      * now apply nonempty_true.
  - exfalso. unfold_M.
    split_run H.
Qed.

Lemma fetch_hop_Continue_intro (P : Platform) (url checked next : string)
    (response : Response) (tr t1 : trace) :
  assertPublicUrl P url tr = (Ok checked, t1) ->
  fetch_get P t1 checked = FetchResponse response ->
  redirect_to P response checked next ->
  fetch_hop P url tr = (Ok (Continue next), t1 ++ [EvFetch checked]).
Proof.
  intros Hassert Hfetch (Hst & location & target & Hloc & Hne & Htarget & ->).
  unfold fetch_hop. unfold bind at 1. rewrite Hassert.
  unfold bind at 1, perform at 1. rewrite Hfetch.
  replace ((status response >=? 300) && (status response <? 400)) with true
    by (symmetry; apply andb_true_intro; split;
        [apply Z.geb_le|apply Z.ltb_lt]; lia).
  rewrite Hloc, (opt_or_else_Some location "") by assumption.
  apply nonempty_true in Hne. rewrite Hne. simpl negb. cbv iota.
  now rewrite Htarget.
Qed.

Lemma fetch_hop_Return_intro (P : Platform) (url checked : string)
    (response : Response) (img : image) (tr t1 tr' : trace) :
  assertPublicUrl P url tr = (Ok checked, t1) ->
  fetch_get P t1 checked = FetchResponse response ->
  serves_image P response checked img (t1 ++ [EvFetch checked]) tr' ->
  fetch_hop P url tr = (Ok (Return img), tr').
Proof.
  intros Hassert Hfetch (Hst & Hlen & Hmime & Hread & Hbuf & Hname & Hsize).
  unfold fetch_hop. unfold bind at 1. rewrite Hassert.
  unfold bind at 1, perform at 1. rewrite Hfetch.
  replace ((status response >=? 300) && (status response <? 400)) with false
    by (symmetry; apply andb_false_intro1; rewrite Z.geb_leb; apply Z.leb_gt; lia).
  replace (response_ok response) with true
    by (symmetry; apply andb_true_intro; split; apply Z.leb_le; lia).
  change (negb true) with false. cbv iota. rewrite Hlen, Hmime.
  unfold bind at 1, lift at 1. unfold bind at 1. rewrite Hread.
  destruct img as [fname mime sz buf]. simpl in *. subst sz.
  destruct buf as [|b buf]; [congruence|].
  simpl. unfold bind, lift. now rewrite Hname.
Qed.

Lemma fetch_hop_Return_inv (P : Platform) (url : string) (img : image)
    (tr tr' : trace) :
  fetch_hop P url tr = (Ok (Return img), tr') ->
  exists checked t1 response,
    assertPublicUrl P url tr = (Ok checked, t1)
    /\ fetch_get P t1 checked = FetchResponse response
    /\ serves_image P response checked img (t1 ++ [EvFetch checked]) tr'.
Proof.
  unfold fetch_hop. unfold bind at 1.
  destruct (assertPublicUrl P url tr) as [[checked|e] t1] eqn:Hassert; [|discriminate].
  unfold bind at 1, perform at 1.
  destruct (fetch_get P t1 checked) as [| |response] eqn:Hfetch; try discriminate.
  intros H. exists checked, t1, response.
  split; [reflexivity|]. split; [assumption|].
  destruct ((status response >=? 300) && (status response <? 400)) eqn:H3xx.
  { exfalso. unfold_M. split_run H. }
  destruct (response_ok response) eqn:Hok; simpl in H; [|discriminate].
  destruct (num_gtZ _ MAX_IMAGE_BYTES) eqn:Hlen; [discriminate|].
  unfold bind at 1, lift at 1 in H.
  destruct (sanitizeImageMimeType _) as [mime|e] eqn:Hmime; [|discriminate].
  unfold bind at 1 in H.
  destruct (readResponseWithLimit response MAX_IMAGE_BYTES _)
    as [[buf|e] t2] eqn:Hread; [|discriminate].
  destruct (length buf =? 0)%nat eqn:Hbuf; [discriminate|].
  unfold bind, lift in H.
  destruct (getFilenameFromUrl P checked mime) as [fname|e] eqn:Hname; [|discriminate].
  unfold ret in H. injection H as <- <-. simpl.
  unfold response_ok in Hok. apply andb_prop in Hok as [Hlo Hhi].
  apply Z.leb_le in Hlo, Hhi.
  repeat split; try assumption; try lia.
  simpl. destruct buf; [discriminate|easy].
Qed.

Lemma fetch_loop_chain (P : Platform) (n : nat) (url last : string) (tr tr' : trace) :
  redirect_chain P n url tr last tr' ->
  forall k, fetch_loop P (n + k) url tr = fetch_loop P k last tr'.
Proof.
  induction 1 as [url tr|n url checked next last response tr t1 tr' Ha Hf Hr _ IH];
    intros k; [reflexivity|].
  simpl. unfold bind at 1.
  rewrite (fetch_hop_Continue_intro P url checked next response tr t1 Ha Hf Hr).
  apply IH.
Qed.

(** *** Which events a computation adds to the trace *)

Section Extends.

Context {A B : Type} (allowed : event -> bool).

Lemma extends_ret (a : A) : extends_by allowed (ret a).
Proof. intros tr r tr' [= <- <-]. exists []. now rewrite app_nil_r. Qed.

Lemma extends_throw (e : error) : extends_by allowed (@throw A e).
Proof. intros tr r tr' [= <- <-]. exists []. now rewrite app_nil_r. Qed.

Lemma extends_lift (x : result A) : extends_by allowed (lift x).
Proof. intros tr r tr' [= <- <-]. exists []. now rewrite app_nil_r. Qed.

Lemma extends_perform (oracle : trace -> A) (e : event) :
  allowed e = true -> extends_by allowed (perform oracle e).
Proof.
  intros He tr r tr' [= <- <-]. exists [e]. split; [reflexivity|].
  simpl. now rewrite He.
Qed.

Lemma extends_bind (c : M A) (k : A -> M B) :
  extends_by allowed c -> (forall a, extends_by allowed (k a)) ->
  extends_by allowed (bind c k).
Proof.
  intros Hc Hk tr r tr'. unfold bind.
  destruct (c tr) as [[a|e] t1] eqn:Hrun; intros H.
  - destruct (Hc _ _ _ Hrun) as (ev1 & -> & H1).
    destruct (Hk a _ _ _ H) as (ev2 & -> & H2).
    exists (ev1 ++ ev2). rewrite app_assoc, forallb_app, H1, H2. now split.
  - injection H as <- <-. now apply (Hc _ _ _ Hrun).
Qed.

Lemma extends_try_or_return (c : M A) (h : error -> B) (k : A -> M B) :
  extends_by allowed c -> (forall a, extends_by allowed (k a)) ->
  extends_by allowed (try_or_return c h k).
Proof.
  intros Hc Hk tr r tr'. unfold try_or_return.
  destruct (c tr) as [[a|e] t1] eqn:Hrun; intros H.
  - destruct (Hc _ _ _ Hrun) as (ev1 & -> & H1).
    destruct (Hk a _ _ _ H) as (ev2 & -> & H2).
    exists (ev1 ++ ev2). rewrite app_assoc, forallb_app, H1, H2. now split.
  - injection H as <- <-. now apply (Hc _ _ _ Hrun).
Qed.

End Extends.

Lemma extends_get_trace (allowed : event -> bool) : extends_by allowed get_trace.
Proof. intros tr r tr' [= <- <-]. exists []. now rewrite app_nil_r. Qed.

Lemma extends_weaken {A} (a b : event -> bool) (c : M A) :
  (forall e, a e = true -> b e = true) ->
  extends_by a c -> extends_by b c.
Proof.
  intros Hab Hc tr r tr' H. destruct (Hc _ _ _ H) as (evs & -> & Hall).
  exists evs. split; [reflexivity|].
  rewrite forallb_forall in *. auto.
Qed.

(** Breaks a monadic term down to its effects. *)
Ltac extends_steps :=
  repeat first
    [ apply extends_ret
    | apply extends_throw
    | apply extends_lift
    | apply extends_get_trace
    | apply extends_perform; reflexivity
    | apply extends_bind; [|intros ?]
    | apply extends_try_or_return; [|intros ?]
    | match goal with
      | |- extends_by _ (match ?x with _ => _ end) => destruct x
      | |- extends_by _ (let _ := _ in _) => cbv zeta
      end ].

Lemma assertPublicUrl_events (P : Platform) (url : string) :
  extends_by is_lookup (assertPublicUrl P url).
Proof. unfold assertPublicUrl. extends_steps. Qed.

Lemma read_loop_events (maxBytes : Z) (steps : list read_step) :
  forall chunks total, extends_by is_body_read (read_loop maxBytes steps chunks total).
Proof.
  induction steps as [|step steps IH]; intros chunks total; simpl.
  - extends_steps.
  - destruct step; extends_steps. apply IH.
Qed.

Lemma readResponseWithLimit_events (response : Response) (maxBytes : Z) :
  extends_by is_body_read (readResponseWithLimit response maxBytes).
Proof.
  unfold readResponseWithLimit. destruct (body response).
  - extends_steps.
  - apply read_loop_events.
Qed.

(** *** Every fetch follows a host check of the URL fetched *)

Lemma validated_start (P : Platform) (tr : trace) :
  fetches_validated P (length tr) tr.
Proof.
  intros before url after -> Hlen. rewrite length_app in Hlen. simpl in Hlen. lia.
Qed.

Lemma validated_quiet (P : Platform) (n0 : nat) (t evs : trace) :
  fetches_validated P n0 t ->
  forallb (fun e => negb (is_fetch e)) evs = true ->
  fetches_validated P n0 (t ++ evs).
Proof.
  intros Ht Hquiet before url after Heq Hlen.
  apply app_eq_app in Heq as [l [[-> Hl]|[-> Hl]]].
  - destruct l as [|x l]; simpl in Hl.
    + subst evs. simpl in Hquiet. discriminate.
    + injection Hl as <- ->. now apply (Ht before url l).
  - subst evs. rewrite forallb_app in Hquiet. simpl in Hquiet.
    apply andb_prop in Hquiet as [_ Hquiet]. discriminate.
Qed.

Lemma validated_fetch (P : Platform) (n0 : nat) (t : trace) (current url : string)
    (t0 : trace) :
  fetches_validated P n0 t ->
  assertPublicUrl P current t0 = (Ok url, t) ->
  fetches_validated P n0 (t ++ [EvFetch url]).
Proof.
  intros Ht Hrun before u after Heq Hlen.
  apply app_eq_app in Heq as [l [[-> Hl]|[-> Hl]]].
  - destruct l as [|x l]; simpl in Hl.
    + injection Hl as Hu Ha. subst. rewrite app_nil_r in Hrun. eauto.
    + injection Hl as Hx Hl. subst x. now apply (Ht before u l).
  - destruct l as [|x l]; simpl in Hl.
    + injection Hl as Hu Ha. subst. rewrite app_nil_r. eauto.
    + injection Hl as _ Hl. destruct l; discriminate.
Qed.

Lemma lookups_are_quiet (evs : trace) :
  forallb is_lookup evs = true -> forallb (fun e => negb (is_fetch e)) evs = true.
Proof.
  rewrite !forallb_forall. intros H e He. specialize (H e He). now destruct e.
Qed.

Lemma body_reads_are_quiet (evs : trace) :
  forallb is_body_read evs = true -> forallb (fun e => negb (is_fetch e)) evs = true.
Proof.
  rewrite !forallb_forall. intros H e He. specialize (H e He). now destruct e.
Qed.

Lemma fetch_hop_validated (P : Platform) (n0 : nat) (url : string)
    (tr tr' : trace) (r : result hop_result) :
  fetches_validated P n0 tr ->
  fetch_hop P url tr = (r, tr') ->
  fetches_validated P n0 tr'.
Proof.
  intros Htr H. unfold fetch_hop in H. unfold bind at 1 in H.
  destruct (assertPublicUrl P url tr) as [[checked|e] t1] eqn:Hassert.
  - destruct (assertPublicUrl_events P url _ _ _ Hassert) as (lookups & Ht1 & Hlook).
    assert (H1 : fetches_validated P n0 t1).
    { subst t1. apply validated_quiet; [exact Htr|now apply lookups_are_quiet]. }
    pose proof (validated_fetch P n0 t1 url checked tr H1 Hassert) as H2.
    unfold bind at 1, perform at 1 in H.
    match type of H with
    | ?c _ = _ => assert (Hext : extends_by is_body_read c)
    end.
    { destruct (fetch_get P t1 checked); extends_steps.
      apply readResponseWithLimit_events. }
    destruct (Hext _ _ _ H) as (reads & -> & Hreads).
    apply validated_quiet; [exact H2|now apply body_reads_are_quiet].
  - injection H as <- <-.
    destruct (assertPublicUrl_events P url _ _ _ Hassert) as (lookups & -> & Hlook).
    apply validated_quiet; [exact Htr|now apply lookups_are_quiet].
Qed.

Lemma fetch_loop_validated (P : Platform) (n0 : nat) (remaining : nat) :
  forall (url : string) (tr tr' : trace) (r : result image),
    fetches_validated P n0 tr ->
    fetch_loop P remaining url tr = (r, tr') ->
    fetches_validated P n0 tr'.
Proof.
  induction remaining as [|k IH]; intros url tr tr' r Htr H; simpl in H.
  - injection H as <- <-. exact Htr.
  - unfold bind in H.
    destruct (fetch_hop P url tr) as [[[next|img]|e] t1] eqn:Hhop.
    + apply (IH next t1 tr' r); [|exact H].
      now apply (fetch_hop_validated P n0 url tr t1 _ Htr Hhop).
    + injection H as <- <-.
      now apply (fetch_hop_validated P n0 url tr t1 _ Htr Hhop).
    + injection H as <- <-.
      now apply (fetch_hop_validated P n0 url tr t1 _ Htr Hhop).
Qed.

(** C2. With [MAX_REDIRECTS = 4]: five redirects in a row end in the
    too-many-redirects error; four redirects followed by an acceptable 2xx
    answer give the image; and whatever happens, every request sent (the one
    of hop 0 included) is sent right after a successful host check, to the
    URL that check returned. *)
Theorem fetchImageFromUrl_redirect_budget :
  forall (P : Platform) (urlString : string) (tr : trace),
    (forall (last : string) (tr' : trace),
        trim urlString <> EmptyString ->
        redirect_chain P (S MAX_REDIRECTS) (trim urlString) tr last tr' ->
        fetchImageFromUrl P urlString tr
          = (Throw (SubmissionError msg_too_many_redirects 400), tr'))
    /\ (forall (last checked : string) (response : Response) (img : image)
               (t4 t5 tr' : trace),
           trim urlString <> EmptyString ->
           redirect_chain P MAX_REDIRECTS (trim urlString) tr last t4 ->
           assertPublicUrl P last t4 = (Ok checked, t5) ->
           fetch_get P t5 checked = FetchResponse response ->
           serves_image P response checked img (t5 ++ [EvFetch checked]) tr' ->
           fetchImageFromUrl P urlString tr = (Ok img, tr'))
    /\ (forall (r : result image) (tr' : trace),
           fetchImageFromUrl P urlString tr = (r, tr') ->
           fetches_validated P (length tr) tr').
Proof.
  intros P urlString tr.
  assert (Hclean : forall s, cleanText P (VString s) = Ok (trim s)).
  { intros s. unfold cleanText. simpl. destruct (nonempty s) eqn:E; [reflexivity|].
    apply nonempty_false in E. now subst s. }
  assert (Hstart : trim urlString <> EmptyString ->
                   fetchImageFromUrl P urlString tr
                   = fetch_loop P (S MAX_REDIRECTS) (trim urlString) tr).
  { intros Hne. unfold fetchImageFromUrl. rewrite Hclean.
    unfold bind at 1, lift at 1. apply nonempty_true in Hne. now rewrite Hne. }
  repeat split.
  - intros last tr' Hne Hchain. rewrite (Hstart Hne).
    replace (S MAX_REDIRECTS) with (S MAX_REDIRECTS + 0)%nat by lia.
    now rewrite (fetch_loop_chain P _ _ _ _ _ Hchain 0%nat).
  - intros last checked response img t4 t5 tr' Hne Hchain Hassert Hfetch Himg.
    rewrite (Hstart Hne).
    replace (S MAX_REDIRECTS) with (MAX_REDIRECTS + 1)%nat by (unfold MAX_REDIRECTS; lia).
    rewrite (fetch_loop_chain P _ _ _ _ _ Hchain 1%nat).
    simpl. unfold bind.
    now rewrite (fetch_hop_Return_intro P last checked response img t4 t5 tr'
                   Hassert Hfetch Himg).
  - intros r tr' H. unfold fetchImageFromUrl in H. rewrite Hclean in H.
    unfold bind at 1, lift at 1 in H.
    destruct (nonempty (trim urlString)).
    + simpl negb in H. cbv iota in H.
      apply (fetch_loop_validated P (length tr) _ _ tr tr' r (validated_start P tr) H).
    + injection H as <- <-. apply validated_start.
Qed.

Ltac sample_redirect :=
  split;
  [ simpl; lia
  | eexists _, _;
    split; [vm_compute; reflexivity|];
    split; [discriminate|];
    split; [vm_compute; reflexivity|reflexivity] ].

Ltac sample_hop :=
  eapply chain_hop;
  [ vm_compute; reflexivity | vm_compute; reflexivity | sample_redirect | ].

Lemma fetchImageFromUrl_redirect_budget_witness :
  fetchImageFromUrl loop_platform "http://loop.example/" []
    = (Throw (SubmissionError msg_too_many_redirects 400),
       [EvDnsLookup "loop.example"; EvFetch "http://loop.example/";
        EvDnsLookup "loop.example"; EvFetch "http://loop.example/";
        EvDnsLookup "loop.example"; EvFetch "http://loop.example/";
        EvDnsLookup "loop.example"; EvFetch "http://loop.example/";
        EvDnsLookup "loop.example"; EvFetch "http://loop.example/"])
  /\ fetchImageFromUrl four_platform " http://cats.example/start " []
     = (Ok (mkImage "cat.png" "image/png" None
              [Byte.x89; Byte.x50; Byte.x4e; Byte.x47]),
        [EvDnsLookup "cats.example"; EvFetch "http://cats.example/start";
         EvDnsLookup "cats.example"; EvFetch "http://cats.example/cat.png";
         EvDnsLookup "cats.example"; EvFetch "http://cats.example/cat.png";
         EvDnsLookup "cats.example"; EvFetch "http://cats.example/cat.png";
         EvDnsLookup "cats.example"; EvFetch "http://cats.example/cat.png";
         EvRead; EvRead]).
Proof.
  split.
  - apply (proj1 (fetchImageFromUrl_redirect_budget loop_platform
                    "http://loop.example/" []) "http://loop.example/").
    + discriminate.
    + do 5 sample_hop. apply chain_end.
  - apply (proj1 (proj2 (fetchImageFromUrl_redirect_budget four_platform
                           " http://cats.example/start " []))
             "http://cats.example/cat.png" "http://cats.example/cat.png"
             png_response
             (mkImage "cat.png" "image/png" None
                [Byte.x89; Byte.x50; Byte.x4e; Byte.x47])
             [EvDnsLookup "cats.example"; EvFetch "http://cats.example/start";
              EvDnsLookup "cats.example"; EvFetch "http://cats.example/cat.png";
              EvDnsLookup "cats.example"; EvFetch "http://cats.example/cat.png";
              EvDnsLookup "cats.example"; EvFetch "http://cats.example/cat.png"]
             [EvDnsLookup "cats.example"; EvFetch "http://cats.example/start";
              EvDnsLookup "cats.example"; EvFetch "http://cats.example/cat.png";
              EvDnsLookup "cats.example"; EvFetch "http://cats.example/cat.png";
              EvDnsLookup "cats.example"; EvFetch "http://cats.example/cat.png";
              EvDnsLookup "cats.example"]).
    + discriminate.
    + do 4 sample_hop. apply chain_end.
    + vm_compute. reflexivity.
    + vm_compute. reflexivity.
    + unfold serves_image. simpl status. simpl buffer. simpl mimeType.
      split; [lia|].
      repeat (split; [vm_compute; reflexivity|]).
      split; [discriminate|].
      split; vm_compute; reflexivity.
Defined.

(** ** The MIME policy *)




(** ** Literal addresses *)

(** C7. [fe90::1] is an IPv6 literal of the link-local range [fe80::/10],
    and the classifier answers that it is not private: the test on the
    prefix [fe80:] covers one sixty-fourth of the range.  A host name that
    resolves to this address passes the host check. *)
Theorem isPrivateIpAddress_misses_link_local :
  forall P : Platform,
    Net.isIP "fe90::1" = 6
    /\ in_fe80_10 "fe90::1" = true
    /\ isPrivateIPv6 "fe80::1" = true
    /\ isPrivateIpAddress P "fe90::1" = false
    /\ (forall urlString parsedUrl tr,
           URL_new P urlString = Some parsedUrl ->
           protocol parsedUrl = "https:" ->
           hostname parsedUrl = "link.example" ->
           dns_lookup P tr "link.example" = Some ["fe90::1"] ->
           assertPublicUrl P urlString tr
             = (Ok (href parsedUrl), tr ++ [EvDnsLookup "link.example"])).
Proof.
  intros P.
  assert (Hpriv : isPrivateIpAddress P "fe90::1" = false) by reflexivity.
  repeat split; try reflexivity.
  intros urlString parsedUrl tr Hurl Hproto Hhost Hdns.
  unfold assertPublicUrl. rewrite Hurl, Hproto, Hhost.
  replace (toLowerCase "link.example") with "link.example" by reflexivity.
  simpl.
  unfold bind at 1, perform at 1. rewrite Hdns. simpl length. simpl Nat.eqb.
  cbv iota. unfold bind, lift. unfold check_records. rewrite Hpriv. reflexivity.
Qed.

(** ** The handler *)

Lemma handler_accepted (P : Platform) (event : lambda_event) :
  accepted_request P event ->
  handler P event
  = try_or_return (lift (parseBody P event))
      (error_response (plain 400 "Invalid form payload."))
      (fun parsedBody =>
         let fields := fst parsedBody in
         let photoFile := snd parsedBody in
         website <- lift (field fields "website") ;;
         if truthy website
         then ret redirect_thanks
         else
           catName <- cleanField P fields "catName" ;;
           humanName <- cleanField P fields "humanName" ;;
           photoUrl <- cleanField P fields "photoUrl" ;;
           if negb (nonempty catName) || negb (nonempty humanName)
           then ret (plain 400 msg_names_required)
           else if negb (present photoFile) && negb (nonempty photoUrl)
           then ret (plain 400 msg_photo_required)
           else
             try_or_return (lift (getCloudinaryConfig P))
               (error_response (plain 500 msg_cloudinary_config))
               (fun config =>
                  try_or_return (resolveCanonicalPhotoUrl P photoUrl photoFile config)
                    (error_response (plain 500 "Could not process image input."))
                    (save_record P event
                       (opt_or_else (env P "AIRTABLE_TOKEN") "")
                       (opt_or_else (env P "AIRTABLE_BASE_ID") "")
                       (opt_or_else (env P "AIRTABLE_TABLE_NAME") "Cats")
                       fields catName humanName))).
Proof.
  intros (Hpost & Htoken & Hbase). unfold handler.
  rewrite Hpost. apply nonempty_true in Htoken, Hbase.
  rewrite Htoken, Hbase. reflexivity.
Qed.

(** C8. Once the body is parsed, a truthy [website] field (for a string: a
    non-empty one) makes the handler answer with the redirect to
    [/thanks/] that a successful submission gets, without any effect: the
    trace is unchanged, so nothing is fetched, uploaded or written. *)
Theorem honeypot_silent_redirect :
  forall (P : Platform) (event : lambda_event) (props : gmap string jsvalue)
         (photoFile : option image) (website : jsvalue) (tr : trace),
    accepted_request P event ->
    parseBody P event = Ok (FieldsObject props, photoFile) ->
    props !! "website" = Some website ->
    truthy website = true ->
    handler P event tr
      = (Ok (mkHttp 303 [("Location", "/thanks/")] (Text "")), tr).
Proof.
  intros P event props photoFile website tr Hacc Hparse Hfield Htruthy.
  rewrite (handler_accepted P event Hacc).
  unfold try_or_return, lift at 1. rewrite Hparse. simpl fst.
  unfold bind at 1, lift at 1, field. rewrite Hfield.
  cbn beta iota delta [default from_option id]. rewrite Htruthy.
  reflexivity.
Qed.

Lemma honeypot_silent_redirect_witness :
  handler bot_platform multipart_event []
    = (Ok (mkHttp 303 [("Location", "/thanks/")] (Text "")), []).
Proof.
  apply (honeypot_silent_redirect bot_platform multipart_event
           (<["website" := VString "https://spam.example"]>
              (<["photoUrl" := VString "https://cats.example/tom.png"]>
                 (<["humanName" := VString "Jerry"]>
                    (<["catName" := VString "Tom"]> ∅))))
           None (VString "https://spam.example") []).
  - repeat split; vm_compute; discriminate.
  - vm_compute. reflexivity.
  - vm_compute. reflexivity.
  - reflexivity.
Defined.

(** ** An uploaded file of size zero *)

Lemma parse_entries_skip_empty (pre post : list (string * form_value))
    (key : string) (f : form_file) :
  file_size f = 0 ->
  forall (fields : gmap string jsvalue) (photoFile : option image),
    parse_entries (pre ++ (key, FormFile f) :: post) fields photoFile
    = parse_entries (pre ++ post) fields photoFile.
Proof.
  intros Hsize. induction pre as [|[k v] pre IH]; intros fields photoFile.
  - simpl. rewrite Hsize. simpl. now rewrite orb_true_r.
  - simpl. destruct v as [s|g]; [apply IH|].
    destruct (negb (String.eqb k "photoFile") || (file_size g =? 0)); [apply IH|].
    destruct (file_size g >? MAX_IMAGE_BYTES); [reflexivity|].
    destruct (sanitizeImageMimeType (or_else (file_type g) "")); [apply IH|reflexivity].
Qed.

Lemma parseBody_multipart (P : Platform) (event : lambda_event)
    (entries : list (string * form_value)) :
  multipart_with P event entries ->
  parseBody P event
  = match parse_entries entries ∅ None with
    | Throw e => Throw e
    | Ok (fields, photoFile) => Ok (FieldsObject fields, photoFile)
    end.
Proof. intros [Hct Hform]. unfold parseBody. now rewrite Hct, Hform. Qed.

Lemma handler_with_form (P : Platform) (event : lambda_event)
    (entries entries' : list (string * form_value)) :
  multipart_with P event entries ->
  parse_entries entries ∅ None = parse_entries entries' ∅ None ->
  handler P event = handler (with_form P entries') event.
Proof.
  intros Hmulti Hsame.
  assert (Hparse : parseBody P event = parseBody (with_form P entries') event).
  { rewrite (parseBody_multipart P event entries Hmulti).
    rewrite (parseBody_multipart (with_form P entries') event entries').
    - now rewrite Hsame.
    - destruct Hmulti as [Hct _]. split; [exact Hct|reflexivity]. }
  unfold handler. rewrite <- Hparse. reflexivity.
Qed.

(** C10. In a multipart submission, a [photoFile] entry of size zero is
    skipped by the parser: the handler runs as it does on the same form
    without that entry.  When the form carries no other file, [photoFile]
    stays [null]; then an empty [photoUrl] field gives the 400 answer that
    asks for a photo, with no effect performed, and a non-empty one sends
    the handler down the remote-URL path. *)
Theorem zero_size_photoFile_ignored :
  forall (P : Platform) (event : lambda_event)
         (pre post : list (string * form_value)) (f : form_file),
    multipart_with P event (pre ++ ("photoFile", FormFile f) :: post) ->
    file_size f = 0 ->
    handler P event = handler (with_form P (pre ++ post)) event
    /\ forall (fields : gmap string jsvalue) (catName humanName photoUrl : string)
              (tr : trace),
        accepted_request P event ->
        parse_entries (pre ++ post) ∅ None = Ok (fields, None) ->
        truthy (default VUndefined (fields !! "website")) = false ->
        reads_field P fields "catName" catName -> catName <> EmptyString ->
        reads_field P fields "humanName" humanName -> humanName <> EmptyString ->
        reads_field P fields "photoUrl" photoUrl ->
        parseBody P event = Ok (FieldsObject fields, None)
        /\ (photoUrl = EmptyString ->
            handler P event tr = (Ok (plain 400 msg_photo_required), tr))
        /\ (photoUrl <> EmptyString ->
            forall config,
              getCloudinaryConfig P = Ok config ->
              handler P event tr
              = try_or_return
                  (remoteImage <- fetchImageFromUrl P photoUrl ;;
                   uploadToCloudinary P remoteImage config)
                  (error_response (plain 500 "Could not process image input."))
                  (save_record P event
                     (opt_or_else (env P "AIRTABLE_TOKEN") "")
                     (opt_or_else (env P "AIRTABLE_BASE_ID") "")
                     (opt_or_else (env P "AIRTABLE_TABLE_NAME") "Cats")
                     (FieldsObject fields) catName humanName)
                  tr).
Proof.
  intros P event pre post f Hmulti Hsize.
  pose proof (parse_entries_skip_empty pre post "photoFile" f Hsize ∅ None) as Hskip.
  split; [now apply (handler_with_form P event _ _ Hmulti)|].
  intros fields catName humanName photoUrl tr Hacc Hparse Hweb Hcat Hcat' Hhum Hhum'
         Hurl.
  assert (Hbody : parseBody P event = Ok (FieldsObject fields, None)).
  { rewrite (parseBody_multipart P event _ Hmulti), Hskip, Hparse. reflexivity. }
  assert (Hrun : handler P event tr
                 = (if negb (present (@None image)) && negb (nonempty photoUrl)
                    then ret (plain 400 msg_photo_required)
                    else
                      try_or_return (lift (getCloudinaryConfig P))
                        (error_response (plain 500 msg_cloudinary_config))
                        (fun config =>
                           try_or_return
                             (resolveCanonicalPhotoUrl P photoUrl None config)
                             (error_response
                                (plain 500 "Could not process image input."))
                             (save_record P event
                                (opt_or_else (env P "AIRTABLE_TOKEN") "")
                                (opt_or_else (env P "AIRTABLE_BASE_ID") "")
                                (opt_or_else (env P "AIRTABLE_TABLE_NAME") "Cats")
                                (FieldsObject fields) catName humanName))) tr).
  { rewrite (handler_accepted P event Hacc).
    unfold try_or_return at 1, lift at 1. rewrite Hbody.
    cbn beta iota delta [fst snd].
    unfold bind at 1, lift at 1, field. cbn beta iota. rewrite Hweb.
    unfold cleanField, field, reads_field in *.
    unfold bind at 1. unfold bind at 1, lift at 1, lift at 1. rewrite Hcat.
    unfold bind at 1. unfold bind at 1, lift at 1, lift at 1. rewrite Hhum.
    unfold bind at 1. unfold bind at 1, lift at 1, lift at 1. rewrite Hurl.
    apply nonempty_true in Hcat', Hhum'. rewrite Hcat', Hhum'. reflexivity. }
  split; [exact Hbody|split].
  - intros ->. rewrite Hrun. reflexivity.
  - intros Hne config Hconfig. rewrite Hrun.
    apply nonempty_true in Hne. rewrite Hne. simpl negb. simpl andb. cbv iota.
    unfold try_or_return at 1, lift at 1. rewrite Hconfig. reflexivity.
Qed.

Lemma zero_size_photoFile_ignored_witness :
  handler empty_file_platform multipart_event []
    = (Ok (plain 400 msg_photo_required), []).
Proof.
  assert (Hmulti : multipart_with empty_file_platform multipart_event
                     ([("catName", FormString "Tom")]
                        ++ ("photoFile", FormFile empty_file)
                        :: [("humanName", FormString "Jerry")])).
  { split; vm_compute; reflexivity. }
  assert (Hsize : file_size empty_file = 0) by reflexivity.
  destruct (zero_size_photoFile_ignored empty_file_platform multipart_event
              _ _ empty_file Hmulti Hsize) as [_ Hrest].
  destruct (Hrest (<["humanName" := VString "Jerry"]>
                     (<["catName" := VString "Tom"]> ∅))
                  "Tom" "Jerry" "" []) as (_ & Hempty & _).
  - repeat split; vm_compute; discriminate.
  - vm_compute. reflexivity.
  - vm_compute. reflexivity.
  - vm_compute. reflexivity.
  - discriminate.
  - vm_compute. reflexivity.
  - discriminate.
  - vm_compute. reflexivity.
  - apply Hempty. reflexivity.
Defined.

(** ** What the ingestion pipeline does before the store is written *)

Create HintDb trace_events.

Lemma assertPublicUrl_ingestion (P : Platform) (url : string) :
  extends_by is_ingestion (assertPublicUrl P url).
Proof.
  apply (extends_weaken is_lookup); [|apply assertPublicUrl_events].
  now intros [].
Qed.

Lemma readResponseWithLimit_ingestion (response : Response) (maxBytes : Z) :
  extends_by is_ingestion (readResponseWithLimit response maxBytes).
Proof.
  apply (extends_weaken is_body_read); [|apply readResponseWithLimit_events].
  now intros [].
Qed.

#[local] Hint Resolve assertPublicUrl_ingestion readResponseWithLimit_ingestion
  : trace_events.

Ltac ingestion_steps := extends_steps; auto with trace_events.

Lemma fetch_hop_ingestion (P : Platform) (url : string) :
  extends_by is_ingestion (fetch_hop P url).
Proof. unfold fetch_hop. ingestion_steps. Qed.

#[local] Hint Resolve fetch_hop_ingestion : trace_events.

Lemma fetch_loop_ingestion (P : Platform) (remaining : nat) :
  forall url, extends_by is_ingestion (fetch_loop P remaining url).
Proof.
  induction remaining as [|k IH]; intros url; simpl; ingestion_steps.
Qed.

Lemma fetchImageFromUrl_ingestion (P : Platform) (urlString : string) :
  extends_by is_ingestion (fetchImageFromUrl P urlString).
Proof.
  unfold fetchImageFromUrl. ingestion_steps.
  all: try apply fetch_loop_ingestion.
Qed.

Lemma uploadToCloudinary_ingestion (P : Platform) (img : image)
    (config : cloudinaryConfig) :
  extends_by is_ingestion (uploadToCloudinary P img config).
Proof. unfold uploadToCloudinary. ingestion_steps. Qed.

#[local] Hint Resolve fetchImageFromUrl_ingestion uploadToCloudinary_ingestion
  : trace_events.

Lemma resolveCanonicalPhotoUrl_ingestion (P : Platform) (photoUrl : string)
    (photoFile : option image) (config : cloudinaryConfig) :
  extends_by is_ingestion (resolveCanonicalPhotoUrl P photoUrl photoFile config).
Proof. unfold resolveCanonicalPhotoUrl. ingestion_steps. Qed.

Lemma uploadToCloudinary_Ok (P : Platform) (img : image) (config : cloudinaryConfig)
    (url : string) (tr tr' : trace) :
  uploadToCloudinary P img config tr = (Ok url, tr') ->
  obtained_from_upload P url tr'.
Proof.
  unfold uploadToCloudinary. unfold bind at 1, get_trace at 1.
  cbv zeta. unfold bind at 1, perform at 1.
  match goal with
  | |- context [cloudinary_post P tr ?request] =>
      set (req := request);
      destruct (cloudinary_post P tr req) as [|[|]| |su] eqn:Hpost
  end; try discriminate.
  destruct (nonempty (opt_or_else su "")) eqn:Hne; simpl; [|discriminate].
  unfold ret. intros [= <- <-].
  exists tr, req. split; [reflexivity|]. split.
  - rewrite Hpost. f_equal. now apply opt_or_else_nonempty.
  - now apply nonempty_true.
Qed.

Lemma resolveCanonicalPhotoUrl_Ok (P : Platform) (photoUrl : string)
    (photoFile : option image) (config : cloudinaryConfig) (url : string)
    (tr tr' : trace) :
  resolveCanonicalPhotoUrl P photoUrl photoFile config tr = (Ok url, tr') ->
  obtained_from_upload P url tr'.
Proof.
  assert (Hremote : (remoteImage <- fetchImageFromUrl P photoUrl ;;
                     uploadToCloudinary P remoteImage config) tr = (Ok url, tr') ->
                    obtained_from_upload P url tr').
  { unfold bind. destruct (fetchImageFromUrl P photoUrl tr) as [[img|e] t1];
      [apply uploadToCloudinary_Ok|discriminate]. }
  unfold resolveCanonicalPhotoUrl. destruct photoFile as [file|]; [|exact Hremote].
  destruct (negb (length (buffer file) =? 0)%nat);
    [apply uploadToCloudinary_Ok|exact Hremote].
Qed.

Lemma cleanField_run (P : Platform) (fields : fields_t) (name : string) (tr : trace) :
  cleanField P fields name tr = (read_field P fields name, tr).
Proof.
  unfold cleanField, read_field, bind, lift. now destruct (field fields name).
Qed.

Lemma bind_cleanField {B} (P : Platform) (fields : fields_t) (name : string)
    (k : string -> M B) (tr : trace) :
  (x <- cleanField P fields name ;; k x) tr
  = match read_field P fields name with
    | Ok x => k x tr
    | Throw e => (Throw e, tr)
    end.
Proof. unfold bind. rewrite cleanField_run. reflexivity. Qed.

(** How a run of [save_record] ends: without effect, when a field cannot
    be read, or with one write of a record that carries the canonical URL. *)
Lemma save_record_runs (P : Platform) (event : lambda_event)
    (token baseId tableName : string) (fields : fields_t)
    (catName humanName url : string) (tr tr' : trace) (r : result http_response) :
  save_record P event token baseId tableName fields catName humanName url tr
    = (r, tr') ->
  tr' = tr
  \/ exists request,
      tr' = tr ++ [EvStoreWrite request]
      /\ Photo_URL (st_payload request) = url
      /\ Status (st_payload request) = "Pending".
Proof.
  unfold save_record. rewrite bind_cleanField.
  destruct (read_field P fields "devUrl") as [devUrl|e]; [|intros [= _ <-]; now left].
  rewrite bind_cleanField.
  destruct (read_field P fields "story") as [story|e]; [|intros [= _ <-]; now left].
  unfold store_submission. unfold bind, perform.
  match goal with
  | |- context [airtable_post P tr ?request] => set (req := request)
  end.
  intros H. right. exists req. repeat split.
  destruct (airtable_post P tr req) as [|[|] st [text|]];
    try destruct (includes _ _); now injection H as _ <-.
Qed.

(** How a run of the handler ends: without any effect, or with a failed run
    of the ingestion pipeline, or with a successful one followed by
    [save_record]. *)
Lemma handler_runs (P : Platform) (event : lambda_event) (tr tr' : trace)
    (r : result http_response) :
  handler P event tr = (r, tr') ->
  tr' = tr
  \/ exists fields photoFile config photoUrl catName humanName,
      parseBody P event = Ok (fields, photoFile)
      /\ getCloudinaryConfig P = Ok config
      /\ ((exists e, resolveCanonicalPhotoUrl P photoUrl photoFile config tr
                     = (Throw e, tr'))
          \/ exists url t1,
              resolveCanonicalPhotoUrl P photoUrl photoFile config tr = (Ok url, t1)
              /\ save_record P event
                   (opt_or_else (env P "AIRTABLE_TOKEN") "")
                   (opt_or_else (env P "AIRTABLE_BASE_ID") "")
                   (opt_or_else (env P "AIRTABLE_TABLE_NAME") "Cats")
                   fields catName humanName url t1 = (r, tr')).
Proof.
  unfold handler.
  destruct (negb (String.eqb (httpMethod event) "POST")); [intros [= _ <-]; now left|].
  destruct (negb (nonempty _) || negb (nonempty _)); [intros [= _ <-]; now left|].
  unfold try_or_return at 1, lift at 1.
  destruct (parseBody P event) as [[fields photoFile]|e] eqn:Hparse;
    [|intros [= _ <-]; now left].
  cbn beta iota delta [fst snd].
  unfold bind at 1, lift at 1.
  destruct (field fields "website") as [website|e]; [|intros [= _ <-]; now left].
  destruct (truthy website); [intros [= _ <-]; now left|].
  rewrite bind_cleanField.
  destruct (read_field P fields "catName") as [catName|e]; [|intros [= _ <-]; now left].
  rewrite bind_cleanField.
  destruct (read_field P fields "humanName") as [humanName|e];
    [|intros [= _ <-]; now left].
  rewrite bind_cleanField.
  destruct (read_field P fields "photoUrl") as [photoUrl|e];
    [|intros [= _ <-]; now left].
  destruct (negb (nonempty catName) || negb (nonempty humanName));
    [intros [= _ <-]; now left|].
  destruct (negb (present photoFile) && negb (nonempty photoUrl));
    [intros [= _ <-]; now left|].
  unfold try_or_return at 1, lift at 1.
  destruct (getCloudinaryConfig P) as [config|e] eqn:Hconfig;
    [|intros [= _ <-]; now left].
  unfold try_or_return at 1.
  destruct (resolveCanonicalPhotoUrl P photoUrl photoFile config tr)
    as [[url|e] t1] eqn:Hresolve; intros H; right;
    exists fields, photoFile, config, photoUrl, catName, humanName;
    split; [reflexivity| |reflexivity|]; (split; [reflexivity|]).
  - right. exists url, t1. now split.
  - left. exists e. now injection H as _ <-.
Qed.

(** *** Positions in a trace *)

Lemma new_event_split (tr evs before after : trace) (x : event) :
  tr ++ evs = before ++ x :: after ->
  (length tr <= length before)%nat ->
  exists pre, before = tr ++ pre /\ evs = pre ++ x :: after.
Proof.
  intros Heq Hlen. apply app_eq_app in Heq as [l [[-> Hl]|[-> Hl]]].
  - rewrite length_app in Hlen. destruct l as [|y l]; [|simpl in Hlen; lia].
    exists []. rewrite !app_nil_r. simpl in Hl. now split.
  - exists l. now split.
Qed.

Lemma last_event_split (evs pre after : trace) (w x : event) :
  evs ++ [w] = pre ++ x :: after ->
  (after = [] /\ pre = evs /\ x = w)
  \/ exists after', after = after' ++ [w] /\ evs = pre ++ x :: after'.
Proof.
  intros Heq. destruct (exists_last (l := x :: after)) as (front & y & Hfront);
    [discriminate|].
  rewrite Hfront, app_assoc in Heq. apply app_inj_tail in Heq as [-> ->].
  destruct front as [|z front]; simpl in Hfront.
  - injection Hfront as -> ->. left. now rewrite app_nil_r.
  - injection Hfront as -> ->. right. now exists front.
Qed.

Lemma ingestion_not_store (evs pre after : trace) (request : store_request) :
  forallb is_ingestion evs = true ->
  evs <> pre ++ EvStoreWrite request :: after.
Proof.
  intros Hall ->. rewrite forallb_app in Hall. simpl in Hall.
  apply andb_prop in Hall as [_ Hall]. discriminate.
Qed.

(** C5. A write to the store during a run of the handler is the last event
    of the run, and the events before it are exactly a run of the ingestion
    pipeline that succeeded: the body was parsed, the image host is
    configured, [resolveCanonicalPhotoUrl] returned a URL, that URL is the
    non-empty [secure_url] of the answer to the upload that ends the
    pipeline, and it is the photo URL of the pending record written.  So a
    run in which parsing, validation, fetch or upload fails contains no
    write. *)
Theorem store_write_only_after_canonical_url :
  forall (P : Platform) (event : lambda_event) (tr tr' : trace)
         (r : result http_response) (before after : trace)
         (request : store_request),
    handler P event tr = (r, tr') ->
    tr' = before ++ EvStoreWrite request :: after ->
    (length tr <= length before)%nat ->
    after = []
    /\ exists fields photoFile config photoUrl url,
        parseBody P event = Ok (fields, photoFile)
        /\ getCloudinaryConfig P = Ok config
        /\ resolveCanonicalPhotoUrl P photoUrl photoFile config tr = (Ok url, before)
        /\ obtained_from_upload P url before
        /\ Photo_URL (st_payload request) = url
        /\ Status (st_payload request) = "Pending".
Proof.
  intros P event tr tr' r before after request Hrun Htr Hlen.
  apply handler_runs in Hrun
    as [->|(fields & photoFile & config & photoUrl & catName & humanName
            & Hparse & Hconfig & [[e Hres]|(url & t1 & Hres & Hsave)])].
  - exfalso. apply (f_equal (fun t => length t)) in Htr.
    rewrite length_app in Htr. simpl in Htr. lia.
  - exfalso.
    destruct (resolveCanonicalPhotoUrl_ingestion P _ _ _ _ _ _ Hres)
      as (evs & Hext & Hall).
    rewrite Hext in Htr.
    destruct (new_event_split _ _ _ _ _ Htr Hlen) as (pre & _ & Hevs).
    now apply (ingestion_not_store evs pre after request Hall).
  - destruct (resolveCanonicalPhotoUrl_ingestion P _ _ _ _ _ _ Hres)
      as (evs & Ht1 & Hall).
    apply save_record_runs in Hsave as [Hsame|(req & Hext & Hurl & Hstatus)].
    + exfalso. rewrite Hsame, Ht1 in Htr.
      destruct (new_event_split _ _ _ _ _ Htr Hlen) as (pre & _ & Hevs).
      now apply (ingestion_not_store evs pre after request Hall).
    + rewrite Hext, Ht1, <- app_assoc in Htr.
      destruct (new_event_split _ _ _ _ _ Htr Hlen) as (pre & Hbefore & Hevs).
      apply last_event_split in Hevs
        as [(Hafter & Hpre & Hreq)|(after' & _ & Hevs)];
        [|exfalso; now apply (ingestion_not_store evs pre after' request Hall)].
      injection Hreq as Hreq. subst after pre req.
      split; [reflexivity|].
      exists fields, photoFile, config, photoUrl, url.
      rewrite Hbefore, <- Ht1.
      repeat split; try assumption.
      now apply (resolveCanonicalPhotoUrl_Ok P photoUrl photoFile config url tr).
Qed.

Lemma store_write_only_after_canonical_url_witness :
  handler good_platform multipart_event []
    = (Ok redirect_thanks, [EvUpload tom_upload; EvStoreWrite tom_record])
  /\ exists fields photoFile config photoUrl url,
      parseBody good_platform multipart_event = Ok (fields, photoFile)
      /\ getCloudinaryConfig good_platform = Ok config
      /\ resolveCanonicalPhotoUrl good_platform photoUrl photoFile config []
         = (Ok url, [EvUpload tom_upload])
      /\ obtained_from_upload good_platform url [EvUpload tom_upload]
      /\ Photo_URL (st_payload tom_record) = url
      /\ Status (st_payload tom_record) = "Pending".
Proof.
  assert (Hrun : handler good_platform multipart_event []
                 = (Ok redirect_thanks,
                    [EvUpload tom_upload; EvStoreWrite tom_record]))
    by (vm_compute; reflexivity).
  split; [exact Hrun|].
  apply (store_write_only_after_canonical_url good_platform multipart_event
           [] [EvUpload tom_upload; EvStoreWrite tom_record] (Ok redirect_thanks)
           [EvUpload tom_upload] [] tom_record Hrun).
  - reflexivity.
  - simpl. lia.
Defined.

(** ** Answers to two failing submissions *)


(** A non-2xx answer of the remote host is reported with status 400. *)
Example remote_404_is_400 :
  handler gone_platform multipart_event []
    = (Ok (plain 400 "photoUrl returned HTTP 404."),
       [EvDnsLookup "cats.example"; EvFetch "https://cats.example/gone.png"]).
Proof. vm_compute. reflexivity. Qed.

(** ** The record reader *)


Section SortFacts.

Context {A : Type} (cmp : A -> A -> option Z) (R : A -> A -> Prop).

(** The comparator decides the total preorder [R] on the elements that
    satisfy [ok]. *)
Context (ok : A -> Prop).
Hypothesis R_trans : forall x y z, ok x -> ok y -> ok z -> R x y -> R y z -> R x z.
Hypothesis before_R : forall x y, ok x -> ok y -> sort_compare cmp x y < 0 -> R x y.
Hypothesis not_before_R :
  forall x y, ok x -> ok y -> 0 <= sort_compare cmp x y -> R y x.









End SortFacts.






(** The exported function returns what [render_records] makes of the rows
    that the store sent (of no row at all when the answer has no [records]),
    and the empty list in every other case. *)
Lemma cats_data_renders (P : Platform) (tr tr' : trace) (r : result (list cat)) :
  cats_data P tr = (r, tr') ->
  r = Ok []
  \/ exists url records,
      airtable_get P tr url = ReadJson records
      /\ tr' = tr ++ [EvStoreRead url]
      /\ render_records P (default [] records) = r.
Proof.
  unfold cats_data.
  destruct (negb (nonempty _) || negb (nonempty _)); [intros [= <- _]; now left|].
  cbv zeta. unfold bind, perform.
  match goal with
  | |- context [airtable_get P tr ?u] =>
      set (url := u); destruct (airtable_get P tr url) as [| | |records] eqn:Hget
  end; try (intros [= <- _]; now left).
  destruct (render_records P (default [] records)) as [cats|e] eqn:Hrender.
  - unfold ret. intros H. injection H as <- <-.
    right. exists url, records. now repeat split.
  - unfold ret. intros H. injection H as <- _. now left.
Qed.



(** ** Supporting facts *)

(** The fetcher meets an oversized stream behind a content-length header
    that is absent or understated: the header test lets the response
    through, and the reader stops it with the too-large error. *)
Lemma fetch_hop_oversized_stream (P : Platform) (url checked mime : string)
    (response : Response) (pre : list bytes) (value : bytes)
    (rest : list read_step) (tr t1 : trace) :
  assertPublicUrl P url tr = (Ok checked, t1) ->
  fetch_get P t1 checked = FetchResponse response ->
  200 <= status response <= 299 ->
  num_gtZ (Number P (opt_or_else (headers_get response "content-length") "0"))
          MAX_IMAGE_BYTES = false ->
  sanitizeImageMimeType (opt_or_else (headers_get response "content-type") "")
    = Ok mime ->
  body response = Reader (map Chunk pre ++ Chunk value :: rest) ->
  byteLength (concat pre) <= MAX_IMAGE_BYTES ->
  byteLength (concat pre) + byteLength value > MAX_IMAGE_BYTES ->
  fetch_hop P url tr
    = (Throw (SubmissionError msg_too_large 413),
       (t1 ++ [EvFetch checked]) ++ repeat EvRead (S (length pre)) ++ [EvCancel]).
Proof.
  intros Hassert Hfetch Hst Hlen Hmime Hbody Hle Hgt.
  unfold fetch_hop. unfold bind at 1. rewrite Hassert.
  unfold bind at 1, perform at 1. rewrite Hfetch.
  replace ((status response >=? 300) && (status response <? 400)) with false
    by (symmetry; apply andb_false_intro1; rewrite Z.geb_leb; apply Z.leb_gt; lia).
  replace (response_ok response) with true
    by (symmetry; apply andb_true_intro; split; apply Z.leb_le; lia).
  change (negb true) with false. cbv iota. rewrite Hlen, Hmime.
  unfold bind at 1, lift at 1. unfold bind at 1.
  unfold readResponseWithLimit. rewrite Hbody.
  rewrite read_loop_over by lia. reflexivity.
Qed.

Lemma octet_texts :
  forallb octet_text_ok (map Z.of_nat (seq 0 256)) = true.
Proof. vm_compute. reflexivity. Qed.

Lemma octet_text (n : Z) :
  0 <= n <= 255 ->
  Net.v4Seg (String_of_Z n) = true /\ ~ In "."%char (Net.chars (String_of_Z n)).
Proof.
  intros Hn. pose proof octet_texts as Hall.
  rewrite forallb_forall in Hall.
  assert (Hin : In n (map Z.of_nat (seq 0 256))).
  { apply in_map_iff. exists (Z.to_nat n). split; [lia|].
    apply in_seq. lia. }
  specialize (Hall n Hin). unfold octet_text_ok in Hall.
  apply andb_prop in Hall as [Hseg Hdot]. split; [exact Hseg|].
  intros Hdotin. apply negb_true_iff in Hdot.
  assert (existsb (Ascii.eqb ".") (Net.chars (String_of_Z n)) = true).
  { apply existsb_exists. exists "."%char. split; [exact Hdotin|reflexivity]. }
  congruence.
Qed.

Lemma split_dotted (a b c d : Z) :
  0 <= a <= 255 -> 0 <= b <= 255 -> 0 <= c <= 255 -> 0 <= d <= 255 ->
  split "." (dotted a b c d)
  = [String_of_Z a; String_of_Z b; String_of_Z c; String_of_Z d].
Proof.
  intros Ha Hb Hc Hd. unfold dotted.
  change (String_of_Z a +:+ "." +:+ String_of_Z b +:+ "." +:+ String_of_Z c
          +:+ "." +:+ String_of_Z d)
    with (String_of_Z a +:+ String "."
            (String_of_Z b +:+ String "."
               (String_of_Z c +:+ String "." (String_of_Z d)))).
  rewrite !split_at_sep by (now apply octet_text).
  rewrite split_no_sep by (now apply octet_text). reflexivity.
Qed.

Lemma num_eqZ_of_Z (a z : Z) : num_eqZ (num_of_Z a) z = (a =? z).
Proof.
  unfold num_eqZ, num_of_Z.
  destruct (Z.eqb_spec a z) as [->|Hne].
  - apply Qeq_bool_iff. reflexivity.
  - destruct (Qeq_bool (inject_Z a) (inject_Z z)) eqn:E; [|reflexivity].
    apply Qeq_bool_iff in E. unfold Qeq, inject_Z in E. simpl in E. lia.
Qed.

Lemma num_geZ_of_Z (a z : Z) : num_geZ (num_of_Z a) z = (z <=? a).
Proof.
  unfold num_geZ, num_of_Z, Qle_bool, inject_Z. simpl. now rewrite !Z.mul_1_r.
Qed.

Lemma num_leZ_of_Z (a z : Z) : num_leZ (num_of_Z a) z = (a <=? z).
Proof.
  unfold num_leZ, num_of_Z, Qle_bool, inject_Z. simpl. now rewrite !Z.mul_1_r.
Qed.

(** An IPv4 literal is private exactly when it lies in one of the six
    private ranges. *)
Lemma isPrivateIpAddress_ipv4_ranges (P : Platform) (a b c d : Z) :
  reads_octets P ->
  0 <= a <= 255 -> 0 <= b <= 255 -> 0 <= c <= 255 -> 0 <= d <= 255 ->
  Net.isIP (dotted a b c d) = 4
  /\ isPrivateIpAddress P (dotted a b c d) = private_v4 a b.
Proof.
  intros Hnum Ha Hb Hc Hd.
  assert (Hip : Net.isIP (dotted a b c d) = 4).
  { unfold Net.isIP, Net.isIPv4. rewrite split_dotted by assumption.
    destruct (octet_text a Ha) as [Sa _], (octet_text b Hb) as [Sb _],
             (octet_text c Hc) as [Sc _], (octet_text d Hd) as [Sd _].
    simpl. now rewrite Sa, Sb, Sc, Sd. }
  split; [exact Hip|].
  unfold isPrivateIpAddress. rewrite Hip. simpl Z.eqb. cbv iota.
  unfold isPrivateIPv4. rewrite split_dotted by assumption.
  simpl map. rewrite !Hnum by assumption.
  simpl length. simpl Nat.eqb. simpl negb. simpl existsb. cbv iota.
  simpl nth. rewrite !num_eqZ_of_Z, num_geZ_of_Z, num_leZ_of_Z.
  unfold private_v4.
  destruct (a =? 10), (a =? 127), (a =? 169), (a =? 172), (a =? 192), (a =? 0),
           (b =? 254), (b =? 168), (16 <=? b), (b <=? 31); reflexivity.
Qed.

Lemma sample_reads_octets (lookup : trace -> string -> option (list string))
    (get : trace -> string -> fetch_outcome)
    (form : option (list (string * form_value)))
    (environment : string -> option string)
    (upload : trace -> upload_request -> upload_outcome)
    (store : trace -> store_request -> store_outcome) :
  reads_octets (sample_platform lookup get form environment upload store).
Proof.
  intros n Hn.
  assert (Hall : forallb (fun n => match sample_Number (String_of_Z n) with
                                   | Fin q => Qeq_bool q (inject_Z n)
                                   | _ => false
                                   end
                                   && match sample_Number (String_of_Z n) with
                                      | Fin (Qmake _ 1) => true
                                      | _ => false
                                      end)
                         (map Z.of_nat (seq 0 256)) = true)
    by (vm_compute; reflexivity).
  rewrite forallb_forall in Hall.
  assert (Hin : In n (map Z.of_nat (seq 0 256))).
  { apply in_map_iff. exists (Z.to_nat n). split; [lia|]. apply in_seq. lia. }
  specialize (Hall n Hin). simpl Number.
  destruct (sample_Number (String_of_Z n)) as [| |[num den]]; try discriminate.
  apply andb_prop in Hall as [Heq Hden].
  destruct den; try discriminate.
  apply Qeq_bool_iff in Heq. unfold Qeq, inject_Z in Heq. simpl in Heq.
  rewrite !Z.mul_1_r in Heq. subst num. reflexivity.
Qed.

Example private_literals :
  map (isPrivateIpAddress mixed_platform)
      ["127.0.0.1"; "10.1.2.3"; "169.254.1.1"; "172.20.0.1"; "192.168.1.1";
       "0.0.0.0"; "::1"; "fd00::1"; "fc00::1"; "fe80::1"; "93.184.216.34";
       "172.32.0.1"; "2606:2800:220:1::1"]
  = [true; true; true; true; true; true; true; true; true; true; false;
     false; false].
Proof. vm_compute. reflexivity. Qed.

(** A host name with an address in one of the private IPv4 ranges among
    its records, at any position, is refused. *)
Lemma assertPublicUrl_rejects_private_ipv4_record (P : Platform)
    (urlString : string) (parsedUrl : URL) (records : list string)
    (a b c d : Z) (tr : trace) :
  reads_octets P ->
  0 <= a <= 255 -> 0 <= b <= 255 -> 0 <= c <= 255 -> 0 <= d <= 255 ->
  private_v4 a b = true ->
  URL_new P urlString = Some parsedUrl ->
  protocol parsedUrl = "https:" \/ protocol parsedUrl = "http:" ->
  local_name (toLowerCase (hostname parsedUrl)) = false ->
  Net.isIP (toLowerCase (hostname parsedUrl)) = 0 ->
  dns_lookup P tr (toLowerCase (hostname parsedUrl)) = Some records ->
  In (dotted a b c d) records ->
  assertPublicUrl P urlString tr
    = (Throw (SubmissionError msg_internal_host 400),
       tr ++ [EvDnsLookup (toLowerCase (hostname parsedUrl))]).
Proof.
  intros Hnum Ha Hb Hc Hd Hprivate Hurl Hproto Hlocal Hip Hdns Hin.
  assert (Hpriv : isPrivateIpAddress P (dotted a b c d) = true).
  { destruct (isPrivateIpAddress_ipv4_ranges P a b c d Hnum Ha Hb Hc Hd) as [_ ->].
    exact Hprivate. }
  rewrite (assertPublicUrl_resolves P urlString parsedUrl tr Hurl Hproto Hlocal Hip).
  rewrite Hdns, (check_records_private P records _ Hin Hpriv).
  destruct records as [|x rest]; [destruct Hin|reflexivity].
Qed.

(** What the classifier answers on the addresses it is written to refuse,
    and what its answer "not private" establishes. *)
Lemma listed_private_is_classified (P : Platform) (address : string) :
  reads_octets P -> listed_private address -> isPrivateIpAddress P address = true.
Proof.
  intros Hnum [(a & b & c & d & Ha & Hb & Hc & Hd & -> & Hprivate)|[Hip Hprefix]].
  - destruct (isPrivateIpAddress_ipv4_ranges P a b c d Hnum Ha Hb Hc Hd) as [_ ->].
    exact Hprivate.
  - unfold isPrivateIpAddress. rewrite Hip.
    change (6 =? 4) with false. change (6 =? 6) with true. cbv iota.
    unfold isPrivateIPv6. cbv zeta.
    destruct Hprefix as [E|[E|[E|E]]]; rewrite E;
      rewrite ?orb_true_r; reflexivity.
Qed.

Lemma classified_public_is_cleared (P : Platform) (address : string) :
  reads_octets P -> isPrivateIpAddress P address = false -> cleared address.
Proof.
  intros Hnum Hpublic. split; [|split].
  - intros E. unfold isPrivateIpAddress in Hpublic. rewrite E in Hpublic. discriminate.
  - intros a b c d Ha Hb Hc Hd ->.
    destruct (isPrivateIpAddress_ipv4_ranges P a b c d Hnum Ha Hb Hc Hd) as [_ E].
    now rewrite <- E.
  - intros Hip. unfold isPrivateIpAddress in Hpublic. rewrite Hip in Hpublic.
    change (6 =? 4) with false in Hpublic. change (6 =? 6) with true in Hpublic.
    cbv iota in Hpublic. unfold isPrivateIPv6 in Hpublic. cbv zeta in Hpublic.
    apply orb_false_elim in Hpublic as [Hpublic Hfe80].
    apply orb_false_elim in Hpublic as [Hpublic Hfd].
    apply orb_false_elim in Hpublic as [Hloop Hfc].
    apply String.eqb_neq in Hloop. now repeat split.
Qed.

(** C1. A host name whose answer holds a public address and [fe90::1], an
    address of the link-local range [fe80::/10], passes the host check.
    Every record of the answer is examined, but the classifier does not
    count this one as private. *)
Theorem assertPublicUrl_accepts_link_local_record :
  forall (P : Platform) (urlString : string) (parsedUrl : URL) (tr : trace),
    reads_octets P ->
    URL_new P urlString = Some parsedUrl ->
    protocol parsedUrl = "https:" \/ protocol parsedUrl = "http:" ->
    local_name (toLowerCase (hostname parsedUrl)) = false ->
    Net.isIP (toLowerCase (hostname parsedUrl)) = 0 ->
    dns_lookup P tr (toLowerCase (hostname parsedUrl))
      = Some ["93.184.216.34"; "fe90::1"] ->
    Net.isIP "fe90::1" = 6
    /\ in_fe80_10 "fe90::1" = true
    /\ assertPublicUrl P urlString tr
       = (Ok (href parsedUrl),
          tr ++ [EvDnsLookup (toLowerCase (hostname parsedUrl))]).
Proof.
  intros P urlString parsedUrl tr Hnum Hurl Hproto Hlocal Hip Hdns.
  split; [reflexivity|]. split; [reflexivity|].
  rewrite (assertPublicUrl_resolves P urlString parsedUrl tr Hurl Hproto Hlocal Hip).
  rewrite Hdns, check_records_public; [reflexivity|].
  intros address [<-|[<-|[]]].
  - destruct (isPrivateIpAddress_ipv4_ranges P 93 184 216 34 Hnum) as [_ E]; try lia.
    exact E.
  - reflexivity.
Qed.

Lemma assertPublicUrl_accepts_link_local_record_witness :
  Net.isIP "fe90::1" = 6
  /\ in_fe80_10 "fe90::1" = true
  /\ assertPublicUrl rebind_platform "https://rebind.example/cat.png" []
     = (Ok "https://rebind.example/cat.png", [EvDnsLookup "rebind.example"]).
Proof.
  apply (assertPublicUrl_accepts_link_local_record rebind_platform
           "https://rebind.example/cat.png"
           (mkURL "https:" "rebind.example" "/cat.png" "https://rebind.example/cat.png")
           []).
  - apply sample_reads_octets.
  - reflexivity.
  - now left.
  - reflexivity.
  - reflexivity.
  - reflexivity.
Defined.

(** * Further properties *)

(** ** File names *)

Lemma chars_app (a b : string) : Net.chars (a +:+ b) = Net.chars a ++ Net.chars b.
Proof. unfold Net.chars. induction a as [|c a IH]; simpl; [reflexivity|]. now rewrite IH. Qed.

Lemma replace_unsafe_safe (s : string) :
  forallb is_filename_char (Net.chars (replace_unsafe s)) = true.
Proof.
  induction s as [|c s IH]; simpl; [reflexivity|].
  unfold Net.chars in *. rewrite IH, andb_true_r.
  destruct (is_filename_char c) eqn:E; [exact E|reflexivity].
Qed.

Lemma replace_unsafe_id (s : string) :
  forallb is_filename_char (Net.chars s) = true -> replace_unsafe s = s.
Proof.
  induction s as [|c s IH]; simpl; [reflexivity|].
  intros H. apply andb_prop in H as [Hc Hs]. rewrite Hc. f_equal. now apply IH.
Qed.

Lemma drop_while_none {A} (f : A -> bool) (l : list A) :
  forallb (fun x => negb (f x)) l = true -> drop_while f l = l.
Proof.
  destruct l as [|x l]; simpl; [reflexivity|].
  intros H. apply andb_prop in H as [Hx _]. apply negb_true_iff in Hx. now rewrite Hx.
Qed.

Lemma take_while_all {A} (f : A -> bool) (l : list A) :
  forallb f l = true -> take_while f l = l.
Proof.
  induction l as [|x l IH]; simpl; [reflexivity|].
  intros H. apply andb_prop in H as [Hx Hl]. rewrite Hx. f_equal. now apply IH.
Qed.

Lemma forallb_rev {A} (f : A -> bool) (l : list A) :
  forallb f l = true -> forallb f (rev l) = true.
Proof.
  rewrite !forallb_forall. intros H x Hx. apply H. now apply in_rev.
Qed.

Lemma basename_no_slash (s : string) :
  forallb (fun c => negb (is_slash c)) (Net.chars s) = true -> basename s = s.
Proof.
  intros H. unfold basename.
  rewrite drop_while_none by now apply forallb_rev.
  rewrite take_while_all by now apply forallb_rev.
  rewrite rev_involutive. apply string_of_list_ascii_of_string.
Qed.

Lemma filename_chars_no_slash (l : list ascii) :
  forallb is_filename_char l = true ->
  forallb (fun c => negb (is_slash c)) l = true.
Proof.
  rewrite !forallb_forall. intros H c Hc. specialize (H c Hc).
  unfold is_slash. destruct (Ascii.eqb_spec c "/") as [->|]; [discriminate|reflexivity].
Qed.

Lemma safeFilename_chars (filename : string) :
  nonempty (safeFilename filename) = true
  /\ forallb is_filename_char (Net.chars (safeFilename filename)) = true.
Proof.
  unfold safeFilename.
  set (base := basename (or_else filename "cat-image")).
  pose proof (replace_unsafe_safe base) as Hsafe.
  unfold or_else at 1 2.
  destruct (nonempty (replace_unsafe base)) eqn:E; [now split|].
  split; reflexivity.
Qed.

(** X1. A sanitized file name is never empty and holds only letters, digits,
    dots, underscores and dashes; a name that already has this form is kept
    as it is. *)
Theorem safeFilename_is_safe :
  forall filename : string,
    nonempty (safeFilename filename) = true
    /\ forallb is_filename_char (Net.chars (safeFilename filename)) = true
    /\ (nonempty filename = true ->
        forallb is_filename_char (Net.chars filename) = true ->
        safeFilename filename = filename).
Proof.
  intros filename. destruct (safeFilename_chars filename) as [Hne Hsafe].
  split; [exact Hne|]. split; [exact Hsafe|].
  intros Hfull Hchars. unfold safeFilename, or_else. rewrite Hfull.
  rewrite basename_no_slash by now apply filename_chars_no_slash.
  rewrite replace_unsafe_id by exact Hchars. now rewrite Hfull.
Qed.

Lemma includes_after (p a b : string) : includes p (a +:+ p +:+ b) = true.
Proof.
  assert (Hprefix : forall q r, String.prefix q (q +:+ r) = true).
  { induction q as [|c q IH]; intros r; simpl; [now destruct r|].
    destruct (ascii_dec c c); [apply IH|congruence]. }
  induction a as [|c a IH];
    [change (includes p (p +:+ b) = true)
    |change (includes p (String c (a +:+ p +:+ b)) = true)].
  - specialize (Hprefix p b). destruct (p +:+ b); cbn [includes]; now rewrite Hprefix.
  - cbn [includes]. rewrite IH. apply orb_true_r.
Qed.

Lemma extensionFromMime_safe (mime : string) :
  inherited_name (toLowerCase mime) = false ->
  forallb is_filename_char (Net.chars (extensionFromMime mime)) = true.
Proof.
  unfold extensionFromMime, inherited_name. cbv zeta. intros H.
  apply orb_false_elim in H as [-> ->].
  repeat match goal with |- context [if ?b then _ else _] => destruct b end;
    reflexivity.
Qed.

Lemma extensionFromMime_allowed (mime : string) :
  In mime ALLOWED_IMAGE_MIME_TYPES ->
  forallb is_filename_char (Net.chars (extensionFromMime mime)) = true.
Proof.
  simpl. intros [<-|[<-|[<-|[<-|[<-|[]]]]]]; reflexivity.
Qed.

(** X2. The file name derived from a URL always contains a dot: its stem,
    taken from the path, has only safe characters, and the extension of the
    media type is appended to a stem without a dot.  The whole name has only
    safe characters unless the media type, in lower case, is one of the two
    names that the table of extensions inherits.  The derivation fails only
    when the URL cannot be parsed. *)
Theorem getFilenameFromUrl_has_extension :
  forall (P : Platform) (urlString mimeType : string),
    match getFilenameFromUrl P urlString mimeType with
    | Ok name =>
        includes "." name = true
        /\ (inherited_name (toLowerCase mimeType) = false ->
            forallb is_filename_char (Net.chars name) = true)
        /\ exists stem,
            nonempty stem = true
            /\ forallb is_filename_char (Net.chars stem) = true
            /\ (name = stem
                \/ includes "." stem = false
                   /\ name = stem +:+ "." +:+ extensionFromMime mimeType)
    | Throw e => e = OtherError /\ URL_new P urlString = None
    end.
Proof.
  intros P urlString mimeType. unfold getFilenameFromUrl.
  destruct (URL_new P urlString) as [parsed|]; [|now split].
  set (fromPath := safeFilename (basename (or_else (pathname parsed) ""))).
  destruct (safeFilename_chars (basename (or_else (pathname parsed) "")))
    as [Hfull Hsafe].
  fold fromPath in Hfull, Hsafe.
  destruct (includes "." fromPath) eqn:E.
  - split; [exact E|]. split; [now intros _|].
    exists fromPath. repeat split; try assumption. now left.
  - split; [apply includes_after|]. split.
    + intros Hext.
      rewrite !chars_app, !forallb_app, Hsafe, (extensionFromMime_safe _ Hext).
      reflexivity.
    + exists fromPath. repeat split; try assumption. now right.
Qed.

Example inherited_extension_is_unsafe :
  getFilenameFromUrl good_platform "https://cats.example/cat" "constructor"
  = Ok "cat.function Object() { [native code] }"
  /\ getFilenameFromUrl good_platform "https://cats.example/cat" "__PROTO__"
     = Ok "cat.[object Object]".
Proof. split; vm_compute; reflexivity. Qed.

(** ** Accepted media types *)

(** X3. A type that the allowlist accepts is returned unchanged when it is
    submitted again, and has its own entry in the table of extensions; a
    refusal is always the same error with status 400. *)
Theorem sanitizeImageMimeType_canonical :
  forall raw : string,
    match sanitizeImageMimeType raw with
    | Ok mime =>
        sanitizeImageMimeType mime = Ok mime
        /\ In (mime, extensionFromMime mime)
              [("image/jpeg", "jpg"); ("image/png", "png"); ("image/webp", "webp");
               ("image/gif", "gif"); ("image/avif", "avif")]
    | Throw e => e = SubmissionError msg_unsupported_media 400
    end.
Proof.
  intros raw. destruct (sanitizeImageMimeType raw) as [mime|e] eqn:H.
  - apply sanitize_Ok_iff in H as [_ Hin]. simpl in Hin.
    destruct Hin as [<-|[<-|[<-|[<-|[<-|[]]]]]]; split; vm_compute; tauto.
  - unfold sanitizeImageMimeType in H. destruct (negb _); [|discriminate].
    now injection H as <-.
Qed.

(** ** Reading a body *)

Lemma read_loop_Ok (maxBytes : Z) (steps : list read_step) :
  forall (chunks : list bytes) (total : Z) (tr tr' : trace) (buf : bytes),
    read_loop maxBytes steps chunks total tr = (Ok buf, tr') ->
    total = byteLength (concat chunks) ->
    total <= maxBytes ->
    exists cs,
      steps = map Chunk cs
      /\ buf = concat (chunks ++ cs)
      /\ byteLength buf <= maxBytes.
Proof.
  induction steps as [|step steps IH]; intros chunks total tr tr' buf H Htotal Hle.
  - cbn [read_loop] in H. unfold_M. injection H as <- _. exists [].
    rewrite app_nil_r. split; [reflexivity|]. split; [reflexivity|]. now rewrite <- Htotal.
  - destruct step as [value|]; cbn [read_loop] in H;
      unfold bind at 1, perform at 1 in H; cbv beta iota zeta in H.
    + destruct (total + byteLength value >? maxBytes) eqn:E.
      * unfold_M. discriminate.
      * apply IH in H as (cs & -> & -> & Hbound).
        -- exists (value :: cs). rewrite <- app_assoc in *. now repeat split.
        -- rewrite concat_app. simpl. rewrite app_nil_r.
           unfold byteLength in *. rewrite length_app. lia.
        -- rewrite Z.gtb_ltb in E. apply Z.ltb_ge in E. exact E.
    + unfold_M. discriminate.
Qed.

Lemma readResponseWithLimit_bound (response : Response) (maxBytes : Z)
    (tr tr' : trace) (buf : bytes) :
  0 <= maxBytes ->
  readResponseWithLimit response maxBytes tr = (Ok buf, tr') ->
  byteLength buf <= maxBytes.
Proof.
  intros Hmax. unfold readResponseWithLimit. destruct (body response) as [whole|steps].
  - unfold_M. destruct whole as [whole|]; [|discriminate].
    destruct (byteLength whole >? maxBytes) eqn:E; [discriminate|].
    intros [= <- _]. rewrite Z.gtb_ltb in E. now apply Z.ltb_ge in E.
  - intros H. apply read_loop_Ok in H as (cs & _ & _ & Hbound); [exact Hbound|reflexivity|exact Hmax].
Qed.

(** X4. A body that is returned is the whole body of the response, and it is
    never longer than the limit. *)
Theorem readResponseWithLimit_returns_whole_body :
  forall (response : Response) (maxBytes : Z) (tr tr' : trace) (buf : bytes),
    0 <= maxBytes ->
    readResponseWithLimit response maxBytes tr = (Ok buf, tr') ->
    byteLength buf <= maxBytes
    /\ (body response = NoReader (Some buf)
        \/ exists chunks,
            body response = Reader (map Chunk chunks) /\ buf = concat chunks).
Proof.
  intros response maxBytes tr tr' buf Hmax H.
  split; [exact (readResponseWithLimit_bound response maxBytes tr tr' buf Hmax H)|].
  unfold readResponseWithLimit in H. destruct (body response) as [whole|steps].
  - left. unfold_M. destruct whole as [whole|]; [|discriminate].
    destruct (byteLength whole >? maxBytes); [discriminate|]. now injection H as <- _.
  - right. apply read_loop_Ok in H as (cs & -> & -> & _); [|reflexivity|exact Hmax].
    now exists cs.
Qed.

Lemma readResponseWithLimit_returns_whole_body_witness :
  byteLength [Byte.x61; Byte.x62; Byte.x63; Byte.x64; Byte.x65; Byte.x66] <= 6
  /\ (body understated_response
      = NoReader (Some [Byte.x61; Byte.x62; Byte.x63; Byte.x64; Byte.x65; Byte.x66])
      \/ exists chunks,
          body understated_response = Reader (map Chunk chunks)
          /\ [Byte.x61; Byte.x62; Byte.x63; Byte.x64; Byte.x65; Byte.x66] = concat chunks).
Proof.
  apply (readResponseWithLimit_returns_whole_body understated_response 6 []
           [EvRead; EvRead; EvRead; EvRead]).
  - lia.
  - vm_compute. reflexivity.
Defined.

(** ** The fetcher *)

Lemma cleanText_string (P : Platform) (s : string) :
  cleanText P (VString s) = Ok (trim s).
Proof.
  unfold cleanText. simpl. destruct (nonempty s) eqn:E; [reflexivity|].
  apply nonempty_false in E. now subst s.
Qed.

Lemma fetchImageFromUrl_start (P : Platform) (urlString : string) (tr : trace) :
  trim urlString <> EmptyString ->
  fetchImageFromUrl P urlString tr
  = fetch_loop P (S MAX_REDIRECTS) (trim urlString) tr.
Proof.
  intros Hne. unfold fetchImageFromUrl. rewrite cleanText_string.
  unfold bind at 1, lift at 1. apply nonempty_true in Hne. now rewrite Hne.
Qed.

Lemma assertPublicUrl_trace (P : Platform) (url : string) (tr tr' : trace)
    (r : result string) :
  assertPublicUrl P url tr = (r, tr') ->
  tr' = tr \/ exists host, tr' = tr ++ [EvDnsLookup host].
Proof.
  unfold assertPublicUrl. intros H. cbv zeta in H. unfold_M.
  split_run H; injection H as _ <-; eauto.
Qed.

Lemma filter_quiet (f g : event -> bool) (evs : trace) :
  (forall e, g e = true -> f e = false) ->
  forallb g evs = true -> List.filter f evs = [].
Proof.
  intros Hfg. induction evs as [|e evs IH]; simpl; [reflexivity|].
  intros H. apply andb_prop in H as [He Hevs]. rewrite (Hfg e He). now apply IH.
Qed.

Lemma fetch_hop_counts (P : Platform) (url : string) (tr tr' : trace)
    (r : result hop_result) :
  fetch_hop P url tr = (r, tr') ->
  exists evs,
    tr' = tr ++ evs
    /\ (count_fetches evs <= 1)%nat
    /\ (length (List.filter is_lookup evs) <= 1)%nat.
Proof.
  intros H. unfold fetch_hop in H. unfold bind at 1 in H.
  destruct (assertPublicUrl P url tr) as [[checked|e] t1] eqn:Hassert.
  - assert (Hlk : exists lk, t1 = tr ++ lk /\ count_fetches lk = 0%nat
                             /\ (length (List.filter is_lookup lk) <= 1)%nat).
    { destruct (assertPublicUrl_trace P url tr t1 _ Hassert) as [->|[host ->]].
      - exists []. rewrite app_nil_r. repeat split. simpl. lia.
      - exists [EvDnsLookup host]. repeat split. simpl. lia. }
    destruct Hlk as (lk & -> & Hlk0 & Hlk1).
    unfold bind at 1, perform at 1 in H.
    match type of H with
    | ?c _ = _ => assert (Hext : extends_by is_body_read c)
    end.
    { destruct (fetch_get P (tr ++ lk) checked); extends_steps.
      apply readResponseWithLimit_events. }
    destruct (Hext _ _ _ H) as (reads & -> & Hreads).
    exists (lk ++ [EvFetch checked] ++ reads).
    split; [now rewrite <- !app_assoc|].
    unfold count_fetches in *. rewrite !List.filter_app, !length_app.
    rewrite (filter_quiet is_fetch is_body_read reads) by (assumption || now intros []).
    rewrite (filter_quiet is_lookup is_body_read reads) by (assumption || now intros []).
    simpl. lia.
  - injection H as _ <-.
    destruct (assertPublicUrl_trace P url tr t1 _ Hassert) as [->|[host ->]].
    + exists []. rewrite app_nil_r. repeat split; unfold count_fetches; simpl; lia.
    + exists [EvDnsLookup host]. repeat split; unfold count_fetches; simpl; lia.
Qed.

Lemma fetch_loop_counts (P : Platform) (remaining : nat) :
  forall (url : string) (tr tr' : trace) (r : result image),
    fetch_loop P remaining url tr = (r, tr') ->
    exists evs,
      tr' = tr ++ evs
      /\ (count_fetches evs <= remaining)%nat
      /\ (length (List.filter is_lookup evs) <= remaining)%nat.
Proof.
  induction remaining as [|k IH]; intros url tr tr' r H; cbn [fetch_loop] in H.
  - injection H as _ <-. exists []. rewrite app_nil_r. repeat split; unfold count_fetches; simpl; lia.
  - unfold bind in H.
    destruct (fetch_hop P url tr) as [[[next|img]|e] t1] eqn:Hhop;
      destruct (fetch_hop_counts P url tr t1 _ Hhop) as (ev1 & -> & Hf1 & Hl1).
    + destruct (IH next _ _ _ H) as (ev2 & -> & Hf2 & Hl2).
      exists (ev1 ++ ev2). split; [now rewrite app_assoc|].
      unfold count_fetches in *. rewrite !List.filter_app, !length_app. lia.
    + injection H as _ <-. exists ev1. repeat split; lia.
    + injection H as _ <-. exists ev1. repeat split; lia.
Qed.

(** X5. Whatever the remote hosts answer, one call of the fetcher sends at most
    five requests and makes at most five name lookups. *)
Theorem fetchImageFromUrl_request_budget :
  forall (P : Platform) (urlString : string) (tr : trace),
    exists evs,
      snd (fetchImageFromUrl P urlString tr) = tr ++ evs
      /\ (count_fetches evs <= S MAX_REDIRECTS)%nat
      /\ (length (List.filter is_lookup evs) <= S MAX_REDIRECTS)%nat.
Proof.
  intros P urlString tr.
  destruct (fetchImageFromUrl P urlString tr) as [r tr'] eqn:H.
  unfold fetchImageFromUrl in H. rewrite cleanText_string in H.
  unfold bind at 1, lift at 1 in H.
  destruct (nonempty (trim urlString)).
  - simpl negb in H. cbv iota in H. now apply fetch_loop_counts in H.
  - injection H as _ <-. exists []. rewrite app_nil_r. repeat split; unfold count_fetches; simpl; lia.
Qed.

Lemma fetch_loop_Ok (P : Platform) (remaining : nat) :
  forall (url : string) (tr tr' : trace) (img : image),
    fetch_loop P remaining url tr = (Ok img, tr') ->
    exists current t0, fetch_hop P current t0 = (Ok (Return img), tr').
Proof.
  induction remaining as [|k IH]; intros url tr tr' img H; cbn [fetch_loop] in H.
  - discriminate.
  - unfold bind in H.
    destruct (fetch_hop P url tr) as [[[next|img']|e] t1] eqn:Hhop.
    + now apply (IH next t1).
    + unfold ret in H. injection H as <- <-. eauto.
    + discriminate.
Qed.

Lemma named_with_extension (fromPath ext : string) :
  forallb is_filename_char (Net.chars fromPath) = true ->
  forallb is_filename_char (Net.chars ext) = true ->
  forall name,
    (if includes "." fromPath then Ok fromPath else Ok (fromPath +:+ "." +:+ ext))
    = Ok name ->
    includes "." name = true /\ forallb is_filename_char (Net.chars name) = true.
Proof.
  intros Hsafe Hext name. destruct (includes "." fromPath) eqn:E; intros [= <-].
  - now split.
  - split; [apply includes_after|].
    rewrite !chars_app, !forallb_app, Hsafe, Hext. reflexivity.
Qed.

(** X6. An image that the fetcher returns has an allowed media type, a body that
    is neither empty nor over the limit, and a safe file name with an
    extension. *)
Theorem fetchImageFromUrl_image_is_valid :
  forall (P : Platform) (urlString : string) (tr tr' : trace) (img : image),
    fetchImageFromUrl P urlString tr = (Ok img, tr') ->
    In (mimeType img) ALLOWED_IMAGE_MIME_TYPES
    /\ 0 < byteLength (buffer img) <= MAX_IMAGE_BYTES
    /\ includes "." (filename img) = true
    /\ forallb is_filename_char (Net.chars (filename img)) = true
    /\ size img = None.
Proof.
  intros P urlString tr tr' img H.
  unfold fetchImageFromUrl in H. rewrite cleanText_string in H.
  unfold bind at 1, lift at 1 in H.
  destruct (nonempty (trim urlString)); [|discriminate].
  simpl negb in H. cbv iota in H.
  apply fetch_loop_Ok in H as (current & t0 & Hhop).
  apply fetch_hop_Return_inv in Hhop
    as (checked & t1 & response & _ & _ & Himg).
  destruct Himg as (_ & _ & Hmime & Hread & Hbuf & Hname & Hsize).
  apply sanitize_Ok_iff in Hmime as [_ Hmime].
  apply readResponseWithLimit_bound in Hread; [|unfold MAX_IMAGE_BYTES; lia].
  split; [exact Hmime|]. split.
  { split; [|exact Hread]. unfold byteLength.
    destruct (buffer img); [congruence|simpl; lia]. }
  unfold getFilenameFromUrl in Hname.
  destruct (URL_new P checked) as [parsed|]; [|discriminate].
  cbv zeta in Hname.
  apply named_with_extension in Hname as [Hdot Hsafe].
  - now repeat split.
  - apply safeFilename_chars.
  - now apply extensionFromMime_allowed.
Qed.

Lemma fetchImageFromUrl_image_is_valid_witness :
  In "image/png" ALLOWED_IMAGE_MIME_TYPES
  /\ 0 < byteLength [Byte.x89; Byte.x50; Byte.x4e; Byte.x47] <= MAX_IMAGE_BYTES
  /\ includes "." "cat.png" = true
  /\ forallb is_filename_char (Net.chars "cat.png") = true
  /\ @None Z = None.
Proof.
  apply (fetchImageFromUrl_image_is_valid four_platform " http://cats.example/start " []
           [EvDnsLookup "cats.example"; EvFetch "http://cats.example/start";
            EvDnsLookup "cats.example"; EvFetch "http://cats.example/cat.png";
            EvDnsLookup "cats.example"; EvFetch "http://cats.example/cat.png";
            EvDnsLookup "cats.example"; EvFetch "http://cats.example/cat.png";
            EvDnsLookup "cats.example"; EvFetch "http://cats.example/cat.png";
            EvRead; EvRead]
           (mkImage "cat.png" "image/png" None [Byte.x89; Byte.x50; Byte.x4e; Byte.x47])).
  vm_compute. reflexivity.
Defined.

(** X7. A 2xx answer whose content-length header declares more than the limit
    is refused with status 413 right after the request: its media type is
    not looked at and its body is never read. *)
Theorem declared_length_over_limit_refused :
  forall (P : Platform) (urlString checked : string) (response : Response)
         (tr t1 : trace),
    trim urlString <> EmptyString ->
    assertPublicUrl P (trim urlString) tr = (Ok checked, t1) ->
    fetch_get P t1 checked = FetchResponse response ->
    200 <= status response <= 299 ->
    num_gtZ (Number P (opt_or_else (headers_get response "content-length") "0"))
            MAX_IMAGE_BYTES = true ->
    fetchImageFromUrl P urlString tr
      = (Throw (SubmissionError msg_too_large 413), t1 ++ [EvFetch checked]).
Proof.
  intros P urlString checked response tr t1 Hne Hassert Hfetch Hst Hlen.
  rewrite fetchImageFromUrl_start by exact Hne.
  cbn [fetch_loop]. unfold bind at 1. unfold fetch_hop.
  unfold bind at 1. rewrite Hassert.
  unfold bind at 1, perform at 1. rewrite Hfetch.
  replace ((status response >=? 300) && (status response <? 400)) with false
    by (symmetry; apply andb_false_intro1; rewrite Z.geb_leb; apply Z.leb_gt; lia).
  replace (response_ok response) with true
    by (symmetry; apply andb_true_intro; split; apply Z.leb_le; lia).
  change (negb true) with false. cbv iota. rewrite Hlen. reflexivity.
Qed.

Lemma declared_length_over_limit_refused_witness :
  fetchImageFromUrl declared_platform "https://cats.example/huge.png" []
    = (Throw (SubmissionError msg_too_large 413),
       [EvDnsLookup "cats.example"; EvFetch "https://cats.example/huge.png"]).
Proof.
  apply (declared_length_over_limit_refused declared_platform
           "https://cats.example/huge.png" "https://cats.example/huge.png"
           declared_response [] [EvDnsLookup "cats.example"]).
  - discriminate.
  - vm_compute. reflexivity.
  - reflexivity.
  - simpl. lia.
  - vm_compute. reflexivity.
Defined.

(** X8. The target of a redirect goes through the host check like the first
    URL: when the check refuses it, the fetch ends with the error of the
    check, and no request is sent to the target. *)
Theorem redirect_target_is_checked :
  forall (P : Platform) (urlString last : string) (n : nat) (e : error)
         (tr t1 t2 : trace),
    trim urlString <> EmptyString ->
    (n <= MAX_REDIRECTS)%nat ->
    redirect_chain P n (trim urlString) tr last t1 ->
    assertPublicUrl P last t1 = (Throw e, t2) ->
    fetchImageFromUrl P urlString tr = (Throw e, t2)
    /\ (t2 = t1 \/ exists host, t2 = t1 ++ [EvDnsLookup host]).
Proof.
  intros P urlString last n e tr t1 t2 Hne Hn Hchain Hassert.
  split; [|exact (assertPublicUrl_trace P last t1 t2 _ Hassert)].
  rewrite fetchImageFromUrl_start by exact Hne.
  replace (S MAX_REDIRECTS) with (n + S (MAX_REDIRECTS - n))%nat by lia.
  rewrite (fetch_loop_chain P _ _ _ _ _ Hchain).
  cbn [fetch_loop]. unfold bind at 1. unfold fetch_hop.
  unfold bind at 1. now rewrite Hassert.
Qed.

Lemma redirect_target_is_checked_witness :
  fetchImageFromUrl metadata_platform "https://cats.example/tom.png" []
    = (Throw (SubmissionError msg_internal_host 400),
       [EvDnsLookup "cats.example"; EvFetch "https://cats.example/tom.png"])
  /\ ([EvDnsLookup "cats.example"; EvFetch "https://cats.example/tom.png"]
      = [EvDnsLookup "cats.example"; EvFetch "https://cats.example/tom.png"]
      \/ exists host,
          [EvDnsLookup "cats.example"; EvFetch "https://cats.example/tom.png"]
          = [EvDnsLookup "cats.example"; EvFetch "https://cats.example/tom.png"]
            ++ [EvDnsLookup host]).
Proof.
  apply (redirect_target_is_checked metadata_platform "https://cats.example/tom.png"
           "http://169.254.169.254/latest/meta-data" 1).
  - discriminate.
  - unfold MAX_REDIRECTS. lia.
  - sample_hop. apply chain_end.
  - vm_compute. reflexivity.
Defined.

(** ** Host safety, continued *)

Lemma endsWith_chars (p s : string) :
  endsWith p s = true -> forall c, In c (Net.chars p) -> In c (Net.chars s).
Proof.
  induction s as [|x s IH]; cbn [endsWith]; intros H c Hc.
  - rewrite orb_false_r in H. apply String.eqb_eq in H. now subst p.
  - apply orb_prop in H as [H|H].
    + apply String.eqb_eq in H. now subst p.
    + right. now apply IH.
Qed.

Lemma toLowerCase_id (s : string) :
  forallb (fun c => negb (is_upper c)) (Net.chars s) = true -> toLowerCase s = s.
Proof.
  unfold Net.chars. induction s as [|c s IH]; simpl; [reflexivity|].
  intros H. apply andb_prop in H as [Hc Hs]. apply negb_true_iff in Hc.
  unfold lower_char. rewrite Hc. f_equal. now apply IH.
Qed.

Lemma dotted_chars (a b c d : Z) :
  0 <= a <= 255 -> 0 <= b <= 255 -> 0 <= c <= 255 -> 0 <= d <= 255 ->
  forallb (fun x => Net.is_digit x || Ascii.eqb x ".") (Net.chars (dotted a b c d)) = true.
Proof.
  intros Ha Hb Hc Hd.
  assert (Hoctet : forall n, 0 <= n <= 255 ->
            forallb (fun x => Net.is_digit x || Ascii.eqb x ".")
                    (Net.chars (String_of_Z n)) = true).
  { intros n Hn. destruct (octet_text n Hn) as [Hseg _].
    unfold Net.v4Seg in Hseg. cbv zeta in Hseg.
    apply andb_prop in Hseg as [Hseg _]. apply andb_prop in Hseg as [Hdigits _].
    rewrite forallb_forall in *. intros x Hx. now rewrite (Hdigits x Hx). }
  unfold dotted. rewrite !chars_app, !forallb_app.
  rewrite !Hoctet by assumption. reflexivity.
Qed.

Lemma dotted_is_plain (a b c d : Z) :
  0 <= a <= 255 -> 0 <= b <= 255 -> 0 <= c <= 255 -> 0 <= d <= 255 ->
  toLowerCase (dotted a b c d) = dotted a b c d
  /\ local_name (dotted a b c d) = false.
Proof.
  intros Ha Hb Hc Hd. pose proof (dotted_chars a b c d Ha Hb Hc Hd) as Hchars.
  rewrite forallb_forall in Hchars. split.
  - apply toLowerCase_id. apply forallb_forall. intros x Hx.
    specialize (Hchars x Hx). unfold Net.is_digit, is_upper in *.
    destruct (Ascii.eqb x ".") eqn:E;
      [apply Ascii.eqb_eq in E; subst x; reflexivity|].
    rewrite orb_false_r in Hchars. apply andb_prop in Hchars as [H1 H2].
    apply N.leb_le in H1, H2. apply negb_true_iff. apply andb_false_intro1.
    apply N.leb_gt. lia.
  - assert (Hl : ~ In "l"%char (Net.chars (dotted a b c d))).
    { intros Hin. specialize (Hchars _ Hin). discriminate. }
    unfold local_name.
    destruct (String.eqb_spec (dotted a b c d) "localhost") as [E|_].
    { exfalso. apply Hl. rewrite E. simpl. tauto. }
    destruct (endsWith ".local" (dotted a b c d)) eqn:E1.
    { exfalso. apply Hl. apply (endsWith_chars _ _ E1). simpl. tauto. }
    destruct (endsWith ".localhost" (dotted a b c d)) eqn:E2; [|reflexivity].
    exfalso. apply Hl. apply (endsWith_chars _ _ E2). simpl. tauto.
Qed.

(** X9. A URL whose host is an IPv4 literal is judged on the literal alone,
    without any lookup: it is refused when the address lies in one of the six
    private ranges and accepted otherwise. *)
Theorem assertPublicUrl_ipv4_literal :
  forall (P : Platform) (urlString : string) (parsedUrl : URL) (a b c d : Z)
         (tr : trace),
    reads_octets P ->
    0 <= a <= 255 -> 0 <= b <= 255 -> 0 <= c <= 255 -> 0 <= d <= 255 ->
    URL_new P urlString = Some parsedUrl ->
    protocol parsedUrl = "https:" \/ protocol parsedUrl = "http:" ->
    hostname parsedUrl = dotted a b c d ->
    assertPublicUrl P urlString tr
      = (if private_v4 a b
         then Throw (SubmissionError msg_internal_host 400)
         else Ok (href parsedUrl),
         tr).
Proof.
  intros P urlString parsedUrl a b c d tr Hnum Ha Hb Hc Hd Hurl Hproto Hhost.
  destruct (dotted_is_plain a b c d Ha Hb Hc Hd) as [Hlower Hlocal].
  destruct (isPrivateIpAddress_ipv4_ranges P a b c d Hnum Ha Hb Hc Hd) as [Hip Hprivate].
  unfold assertPublicUrl. rewrite Hurl.
  replace (String.eqb (protocol parsedUrl) "https:"
           || String.eqb (protocol parsedUrl) "http:") with true
    by (destruct Hproto as [-> | ->]; reflexivity).
  change (negb true) with false. cbv iota zeta.
  rewrite Hhost, Hlower.
  change (String.eqb (dotted a b c d) "localhost"
          || endsWith ".local" (dotted a b c d)
          || endsWith ".localhost" (dotted a b c d))
    with (local_name (dotted a b c d)).
  rewrite Hlocal, Hip, Hprivate. simpl Z.eqb. cbv iota. simpl negb. cbv iota.
  now destruct (private_v4 a b).
Qed.

Lemma assertPublicUrl_ipv4_literal_witness :
  assertPublicUrl mixed_platform "http://169.254.169.254/latest/meta-data" []
    = (Throw (SubmissionError msg_internal_host 400), [])
  /\ assertPublicUrl mixed_platform "https://93.184.216.34/cat.png" []
     = (Ok "https://93.184.216.34/cat.png", []).
Proof.
  split.
  - apply (assertPublicUrl_ipv4_literal mixed_platform
             "http://169.254.169.254/latest/meta-data"
             (mkURL "http:" "169.254.169.254" "/latest/meta-data"
                    "http://169.254.169.254/latest/meta-data")
             169 254 169 254 []);
      try lia; try reflexivity.
    + apply sample_reads_octets.
    + now right.
  - apply (assertPublicUrl_ipv4_literal mixed_platform
             "https://93.184.216.34/cat.png"
             (mkURL "https:" "93.184.216.34" "/cat.png" "https://93.184.216.34/cat.png")
             93 184 216 34 []);
      try lia; try reflexivity.
    + apply sample_reads_octets.
    + now left.
Defined.

Lemma check_records_Ok (P : Platform) (records : list string) :
  check_records P records = Ok tt ->
  forall address, In address records -> isPrivateIpAddress P address = false.
Proof.
  induction records as [|a rest IH]; simpl; [easy|].
  destruct (isPrivateIpAddress P a) eqn:E; [discriminate|].
  intros H address [<-|Hin]; [exact E|now apply IH].
Qed.

Lemma public_address_is_ip (P : Platform) (address : string) :
  isPrivateIpAddress P address = false -> Net.isIP address <> 0.
Proof.
  unfold isPrivateIpAddress. intros H E. rewrite E in H. discriminate.
Qed.

(** X10. A URL that passes the host check was parsed, uses http or https, and
    does not name a local host.  Its host is an IP literal that the check
    has cleared, without any lookup; or it is a name that was looked up once
    and whose records, at least one, are all cleared.  A cleared address is
    an IP address; as a dotted quad it lies outside the six private IPv4
    ranges; as an IPv6 address it is not [::1] and does not begin with [fc],
    [fd] or [fe80:]. *)
Theorem assertPublicUrl_Ok_sound :
  forall (P : Platform) (urlString checked : string) (tr tr' : trace),
    reads_octets P ->
    assertPublicUrl P urlString tr = (Ok checked, tr') ->
    exists parsedUrl,
      URL_new P urlString = Some parsedUrl
      /\ checked = href parsedUrl
      /\ (protocol parsedUrl = "https:" \/ protocol parsedUrl = "http:")
      /\ local_name (toLowerCase (hostname parsedUrl)) = false
      /\ ((cleared (toLowerCase (hostname parsedUrl)) /\ tr' = tr)
          \/ (Net.isIP (toLowerCase (hostname parsedUrl)) = 0
              /\ tr' = tr ++ [EvDnsLookup (toLowerCase (hostname parsedUrl))]
              /\ exists records,
                  dns_lookup P tr (toLowerCase (hostname parsedUrl)) = Some records
                  /\ records <> []
                  /\ forall address, In address records -> cleared address)).
Proof.
  intros P urlString checked tr tr' Hnum. unfold assertPublicUrl.
  destruct (URL_new P urlString) as [parsedUrl|]; [|discriminate].
  destruct (String.eqb (protocol parsedUrl) "https:"
            || String.eqb (protocol parsedUrl) "http:") eqn:Hproto; [|discriminate].
  change (negb true) with false. cbv iota zeta.
  set (host := toLowerCase (hostname parsedUrl)).
  change (String.eqb host "localhost" || endsWith ".local" host
          || endsWith ".localhost" host) with (local_name host).
  destruct (local_name host) eqn:Hlocal; [discriminate|].
  intros H. exists parsedUrl. split; [reflexivity|].
  assert (Hscheme : protocol parsedUrl = "https:" \/ protocol parsedUrl = "http:").
  { apply orb_prop in Hproto as [E|E]; apply String.eqb_eq in E; tauto. }
  destruct (Net.isIP host =? 0) eqn:Hip.
  - apply Z.eqb_eq in Hip. change (negb true) with false in H.
    unfold bind at 1, perform at 1 in H. unfold throw in H. cbv beta iota in H.
    destruct (dns_lookup P tr host) as [records|] eqn:Hdns; [|discriminate H].
    destruct (length records =? 0)%nat eqn:Hlen; [discriminate H|].
    unfold bind, lift, ret in H.
    destruct (check_records P records) as [[]|e] eqn:Hcheck; [|discriminate H].
    injection H as <- <-.
    repeat (split; [easy|]). right. repeat (split; [easy|]).
    exists records. split; [exact Hdns|]. split.
    + intros ->. discriminate.
    + intros address Hin. apply (classified_public_is_cleared P); [exact Hnum|].
      exact (check_records_Ok P records Hcheck address Hin).
  - change (negb false) with true in H. cbv beta iota in H.
    unfold throw in H.
    destruct (isPrivateIpAddress P host) eqn:Hpriv; [discriminate H|].
    unfold ret in H. injection H as <- <-.
    repeat (split; [easy|]). left.
    split; [|reflexivity]. now apply (classified_public_is_cleared P).
Qed.

Lemma assertPublicUrl_Ok_sound_witness :
  exists parsedUrl,
    URL_new good_platform "https://cats.example/tom.png" = Some parsedUrl
    /\ "https://cats.example/tom.png" = href parsedUrl
    /\ (protocol parsedUrl = "https:" \/ protocol parsedUrl = "http:")
    /\ local_name (toLowerCase (hostname parsedUrl)) = false
    /\ ((cleared (toLowerCase (hostname parsedUrl))
         /\ [EvDnsLookup "cats.example"] = [])
        \/ (Net.isIP (toLowerCase (hostname parsedUrl)) = 0
            /\ [EvDnsLookup "cats.example"]
               = [] ++ [EvDnsLookup (toLowerCase (hostname parsedUrl))]
            /\ exists records,
                dns_lookup good_platform [] (toLowerCase (hostname parsedUrl))
                = Some records
                /\ records <> []
                /\ forall address, In address records -> cleared address)).
Proof.
  apply (assertPublicUrl_Ok_sound good_platform "https://cats.example/tom.png"
           "https://cats.example/tom.png" [] [EvDnsLookup "cats.example"]).
  - apply sample_reads_octets.
  - vm_compute. reflexivity.
Defined.

(** X27. A host name is refused with the internal-host error, after its one
    lookup, as soon as one address of the answer, at any position, is an IPv4
    address of one of the six private ranges, the IPv6 loopback, or an IPv6
    address whose text begins with [fc], [fd] or [fe80:] in either case. *)
Theorem assertPublicUrl_rejects_listed_record :
  forall (P : Platform) (urlString : string) (parsedUrl : URL)
         (records : list string) (address : string) (tr : trace),
    reads_octets P ->
    URL_new P urlString = Some parsedUrl ->
    protocol parsedUrl = "https:" \/ protocol parsedUrl = "http:" ->
    local_name (toLowerCase (hostname parsedUrl)) = false ->
    Net.isIP (toLowerCase (hostname parsedUrl)) = 0 ->
    dns_lookup P tr (toLowerCase (hostname parsedUrl)) = Some records ->
    In address records ->
    listed_private address ->
    assertPublicUrl P urlString tr
      = (Throw (SubmissionError msg_internal_host 400),
         tr ++ [EvDnsLookup (toLowerCase (hostname parsedUrl))]).
Proof.
  intros P urlString parsedUrl records address tr Hnum Hurl Hproto Hlocal Hip Hdns
         Hin Hlisted.
  pose proof (listed_private_is_classified P address Hnum Hlisted) as Hpriv.
  rewrite (assertPublicUrl_resolves P urlString parsedUrl tr Hurl Hproto Hlocal Hip).
  rewrite Hdns, (check_records_private P records address Hin Hpriv).
  destruct records as [|a rest]; [destruct Hin|reflexivity].
Qed.

Lemma assertPublicUrl_rejects_listed_record_witness :
  assertPublicUrl
    (sample_platform (fun _ _ => Some ["93.184.216.34"; "FD12:3456::1"])
       no_fetch None full_env no_upload no_store)
    "https://cats.example/a.png" []
  = (Throw (SubmissionError msg_internal_host 400), [EvDnsLookup "cats.example"]).
Proof.
  apply (assertPublicUrl_rejects_listed_record _ "https://cats.example/a.png"
           (mkURL "https:" "cats.example" "/a.png" "https://cats.example/a.png")
           ["93.184.216.34"; "FD12:3456::1"] "FD12:3456::1" []).
  - apply sample_reads_octets.
  - reflexivity.
  - now left.
  - reflexivity.
  - reflexivity.
  - reflexivity.
  - right. now left.
  - right. split; [reflexivity|]. right. right. left. reflexivity.
Defined.

(** ** Uploaded files *)

Lemma parse_entries_valid (entries : list (string * form_value)) :
  forall (fields fields' : gmap string jsvalue) (photoFile : option image)
         (file : image),
    parse_entries entries fields photoFile = Ok (fields', Some file) ->
    photoFile = Some file \/ valid_upload file.
Proof.
  induction entries as [|[key value] rest IH]; intros fields fields' photoFile file H;
    cbn [parse_entries] in H.
  - injection H as _ ->. now left.
  - destruct value as [s|f]; [now apply IH in H|].
    destruct (negb (String.eqb key "photoFile") || (file_size f =? 0)) eqn:Hskip;
      [now apply IH in H|].
    destruct (file_size f >? MAX_IMAGE_BYTES) eqn:Hbig; [discriminate|].
    destruct (sanitizeImageMimeType (or_else (file_type f) "")) as [mime|e] eqn:Hmime;
      [|discriminate].
    apply IH in H as [H|H]; [|now right]. right. injection H as <-.
    apply orb_false_elim in Hskip as [_ Hzero]. apply Z.eqb_neq in Hzero.
    rewrite Z.gtb_ltb in Hbig. apply Z.ltb_ge in Hbig.
    apply sanitize_Ok_iff in Hmime as [_ Hmime].
    unfold valid_upload, file_size in *. cbn [mimeType size buffer filename].
    pose proof (byteLength_nonneg (file_bytes f)).
    split; [exact Hmime|]. split; [reflexivity|]. split; [lia|].
    apply safeFilename_chars.
Qed.

Lemma parseBody_file (P : Platform) (event : lambda_event) (fields : fields_t)
    (file : image) :
  parseBody P event = Ok (fields, Some file) ->
  includes "multipart/form-data" (getHeader event "content-type") = true
  /\ exists entries props,
      parse_entries entries ∅ None = Ok (props, Some file).
Proof.
  unfold parseBody.
  destruct (includes "multipart/form-data" (getHeader event "content-type")).
  - destruct (formData P _ _ _) as [entries|]; [|discriminate].
    destruct (parse_entries entries ∅ None) as [[props photoFile]|e] eqn:Hparse;
      [|discriminate].
    intros [= _ ->]. split; [reflexivity|]. now exists entries, props.
  - destruct (includes "application/json" _); [|discriminate].
    destruct (JSON_parse P _); discriminate.
Qed.

(** X11. A file that comes out of the parser comes from a multipart body; it is
    not empty, not over the size limit, of an allowed media type, and it has
    a safe, non-empty file name.  Its recorded size is the length of its
    bytes. *)
Theorem parseBody_photoFile_is_valid :
  forall (P : Platform) (event : lambda_event) (fields : fields_t) (file : image),
    parseBody P event = Ok (fields, Some file) ->
    includes "multipart/form-data" (getHeader event "content-type") = true
    /\ valid_upload file.
Proof.
  intros P event fields file H.
  apply parseBody_file in H as (Hct & entries & props & Hparse).
  split; [exact Hct|].
  now destruct (parse_entries_valid entries ∅ props None file Hparse).
Qed.

Lemma parseBody_photoFile_is_valid_witness :
  includes "multipart/form-data" (getHeader multipart_event "content-type") = true
  /\ valid_upload tom_image.
Proof.
  eapply (parseBody_photoFile_is_valid good_platform multipart_event _ tom_image).
  vm_compute. reflexivity.
Defined.

(** ** The upload *)

Lemma upload_request_sent (P : Platform) (img : image) (config : cloudinaryConfig)
    (tr tr' : trace) (r : result string) :
  uploadToCloudinary P img config tr = (r, tr') ->
  exists request,
    tr' = tr ++ [EvUpload request]
    /\ up_file request = buffer img
    /\ up_file_type request = mimeType img.
Proof.
  unfold uploadToCloudinary. unfold bind at 1, get_trace at 1.
  cbv zeta. unfold bind at 1, perform at 1.
  match goal with
  | |- context [cloudinary_post P tr ?request] => set (req := request)
  end.
  intros H. exists req. split; [|now split].
  unfold_M. split_run H; now injection H as _ <-.
Qed.

(** X12. One call of the uploader sends exactly one request, whatever the image
    host answers.  The request carries the bytes and the type of the image and
    the configured key; its signature is the digest of the folder and the
    timestamp it sends, in that order, followed by the configured secret; the
    folder is left out when it is configured empty. *)
Theorem uploadToCloudinary_signed_request :
  forall (P : Platform) (img : image) (config : cloudinaryConfig) (tr : trace),
    exists request,
      snd (uploadToCloudinary P img config tr) = tr ++ [EvUpload request]
      /\ up_file request = buffer img
      /\ up_file_type request = mimeType img
      /\ nonempty (up_file_name request) = true
      /\ up_api_key request = apiKey config
      /\ up_timestamp request = String_of_Z (now_seconds P tr)
      /\ (up_folder request = None <-> folder config = EmptyString)
      /\ up_signature request
         = sha1_hex P
             (match up_folder request with
              | Some f => "folder=" +:+ f +:+ "&timestamp=" +:+ up_timestamp request
              | None => "timestamp=" +:+ up_timestamp request
              end +:+ apiSecret config).
Proof.
  intros P img config tr.
  destruct (uploadToCloudinary P img config tr) as [r tr'] eqn:H.
  unfold uploadToCloudinary in H. unfold bind at 1, get_trace at 1 in H.
  cbv zeta in H. unfold bind at 1, perform at 1 in H.
  match type of H with
  | context [cloudinary_post P tr ?request] => set (req := request) in H
  end.
  exists req. split.
  { unfold_M. split_run H; now injection H as _ <-. }
  subst req. cbn [up_file up_file_type up_file_name up_api_key up_timestamp
                  up_folder up_signature].
  repeat (split; [reflexivity|]). split.
  { unfold or_else. destruct (nonempty (filename img)) eqn:E; [exact E|reflexivity]. }
  repeat (split; [reflexivity|]). split.
  - destruct (nonempty (folder config)) eqn:E.
    + apply nonempty_true in E. split; [discriminate|contradiction].
    + apply nonempty_false in E. now split.
  - now destruct (nonempty (folder config)).
Qed.

(** ** What the handler contacts *)

(** X13. A submission with an uploaded file never makes the function look up or
    fetch anything: the run has no effect at all, or it sends the file to the
    image host in one request, followed by at most one write to the store. *)
Theorem uploaded_file_is_never_fetched :
  forall (P : Platform) (event : lambda_event) (fields : fields_t) (file : image)
         (tr tr' : trace) (r : result http_response),
    parseBody P event = Ok (fields, Some file) ->
    handler P event tr = (r, tr') ->
    tr' = tr
    \/ exists request,
        up_file request = buffer file
        /\ up_file_type request = mimeType file
        /\ (tr' = tr ++ [EvUpload request]
            \/ exists record, tr' = tr ++ [EvUpload request; EvStoreWrite record]).
Proof.
  intros P event fields file tr tr' r Hparse H.
  destruct (handler_runs P event tr tr' r H)
    as [->|(fields0 & photoFile & config & photoUrl & catName & humanName
            & Hparse' & _ & Hres)]; [now left|].
  rewrite Hparse in Hparse'. injection Hparse' as <- <-. right.
  assert (Hup : resolveCanonicalPhotoUrl P photoUrl (Some file) config
                = uploadToCloudinary P file config).
  { apply parseBody_file in Hparse as (_ & entries & props & Hentries).
    destruct (parse_entries_valid entries ∅ props None file Hentries)
      as [|(_ & _ & Hlen & _)]; [discriminate|].
    unfold resolveCanonicalPhotoUrl, byteLength in *.
    destruct (buffer file); [simpl in Hlen; lia|reflexivity]. }
  rewrite Hup in Hres.
  destruct Hres as [[e Hrun]|(url & t1 & Hrun & Hsave)];
    apply upload_request_sent in Hrun as (request & -> & Hfile & Htype);
    exists request; split; [exact Hfile| |exact Hfile|];
    (split; [exact Htype|]); [now left|].
  apply save_record_runs in Hsave as [->|(record & -> & _)]; [now left|].
  right. exists record. now rewrite <- app_assoc.
Qed.

Lemma uploaded_file_is_never_fetched_witness :
  [EvUpload tom_upload; EvStoreWrite tom_record] = []
  \/ exists request,
      up_file request = buffer tom_image
      /\ up_file_type request = mimeType tom_image
      /\ ([EvUpload tom_upload; EvStoreWrite tom_record] = [] ++ [EvUpload request]
          \/ exists record,
              [EvUpload tom_upload; EvStoreWrite tom_record]
              = [] ++ [EvUpload request; EvStoreWrite record]).
Proof.
  eapply (uploaded_file_is_never_fetched good_platform multipart_event _ tom_image
            [] _ _).
  - vm_compute. reflexivity.
  - vm_compute. reflexivity.
Defined.

(** X14. Without the complete configuration of the image host the configuration
    error has status 500, and the handler contacts nothing whatever the
    request is: no lookup, no fetch, no upload and no write. *)
Theorem handler_contacts_nothing_without_image_host :
  forall (P : Platform) (e : error),
    getCloudinaryConfig P = Throw e ->
    e = SubmissionError msg_cloudinary_config 500
    /\ forall (event : lambda_event) (tr : trace), snd (handler P event tr) = tr.
Proof.
  intros P e Hconfig. split.
  - unfold getCloudinaryConfig in Hconfig. cbv zeta in Hconfig.
    destruct (_ || _) in Hconfig; [now injection Hconfig as <-|discriminate].
  - intros event tr. destruct (handler P event tr) as [r tr'] eqn:H.
    destruct (handler_runs P event tr tr' r H)
      as [->|(_ & _ & config & _ & _ & _ & _ & Hconfig' & _)]; [reflexivity|].
    congruence.
Qed.

Lemma handler_contacts_nothing_without_image_host_witness :
  SubmissionError msg_cloudinary_config 500 = SubmissionError msg_cloudinary_config 500
  /\ forall (event : lambda_event) (tr : trace),
      snd (handler unhosted_platform event tr) = tr.
Proof.
  apply (handler_contacts_nothing_without_image_host unhosted_platform).
  vm_compute. reflexivity.
Defined.

Example unhosted_upload_is_500 :
  handler unhosted_platform multipart_event []
  = (Ok (plain 500 msg_cloudinary_config), []).
Proof. vm_compute. reflexivity. Qed.

(** ** Answers of the handler *)

Lemma all_strings_insert (props : gmap string jsvalue) (key value : string) :
  all_strings props -> all_strings (<[key := VString value]> props).
Proof.
  intros Hall k v H. apply lookup_insert_Some in H as [[_ <-]|[_ H]]; [eauto|].
  now apply (Hall k).
Qed.

Lemma parse_entries_strings (entries : list (string * form_value)) :
  forall (fields fields' : gmap string jsvalue) (photoFile photoFile' : option image),
    all_strings fields ->
    parse_entries entries fields photoFile = Ok (fields', photoFile') ->
    all_strings fields'.
Proof.
  induction entries as [|[key value] rest IH];
    intros fields fields' photoFile photoFile' Hall H; cbn [parse_entries] in H.
  - now injection H as <- _.
  - destruct value as [s|f].
    + apply IH in H; [exact H|now apply all_strings_insert].
    + destruct (negb (String.eqb key "photoFile") || (file_size f =? 0));
        [now apply IH in H|].
      destruct (file_size f >? MAX_IMAGE_BYTES); [discriminate|].
      destruct (sanitizeImageMimeType (or_else (file_type f) "")); [|discriminate].
      now apply IH in H.
Qed.

Lemma fromEntries_strings (entries : list (string * string)) :
  all_strings (fromEntries entries).
Proof.
  unfold fromEntries.
  assert (H : forall m, all_strings m ->
                all_strings (fold_left (fun m kv => <[fst kv := VString (snd kv)]> m)
                                       entries m)).
  { induction entries as [|[k v] rest IH]; intros m Hm; [exact Hm|].
    simpl. apply IH. now apply all_strings_insert. }
  apply H. intros k v Hk. rewrite lookup_empty in Hk. discriminate.
Qed.

Lemma parseBody_strings (P : Platform) (event : lambda_event) (fields : fields_t)
    (photoFile : option image) :
  includes "multipart/form-data" (getHeader event "content-type") = true
  \/ includes "application/json" (getHeader event "content-type") = false ->
  parseBody P event = Ok (fields, photoFile) ->
  exists props, fields = FieldsObject props /\ all_strings props.
Proof.
  intros Hct. unfold parseBody.
  destruct (includes "multipart/form-data" (getHeader event "content-type")).
  - destruct (formData P _ _ _) as [entries|]; [|discriminate].
    destruct (parse_entries entries ∅ None) as [[props file]|e] eqn:Hparse;
      [|discriminate].
    intros [= <- _]. exists props. split; [reflexivity|].
    apply (parse_entries_strings entries ∅ props None file); [|exact Hparse].
    intros k v Hk. rewrite lookup_empty in Hk. discriminate.
  - destruct Hct as [Hct|Hct]; [discriminate|]. rewrite Hct.
    intros [= <- _]. eexists. split; [reflexivity|apply fromEntries_strings].
Qed.

Lemma read_field_strings (P : Platform) (props : gmap string jsvalue) (name : string) :
  all_strings props -> exists text, read_field P (FieldsObject props) name = Ok text.
Proof.
  intros Hall. unfold read_field, field.
  destruct (props !! name) as [value|] eqn:E.
  - destruct (Hall name value E) as [s ->].
    cbn beta iota delta [default from_option id]. rewrite cleanText_string. eauto.
  - cbn beta iota delta [default from_option id]. unfold cleanText. simpl. eauto.
Qed.

(** X15. A request whose body is a multipart or a URL-encoded form always gets a
    response: no exception leaves the handler, whatever the form holds and
    whatever the remote services answer. *)
Theorem form_submission_always_answered :
  forall (P : Platform) (event : lambda_event) (tr : trace),
    includes "multipart/form-data" (getHeader event "content-type") = true
    \/ includes "application/json" (getHeader event "content-type") = false ->
    exists resp, fst (handler P event tr) = Ok resp.
Proof.
  intros P event tr Hct. unfold handler.
  destruct (negb (String.eqb (httpMethod event) "POST")); [eexists; reflexivity|].
  destruct (negb (nonempty _) || negb (nonempty _)); [eexists; reflexivity|].
  unfold try_or_return at 1, lift at 1.
  destruct (parseBody P event) as [[fields photoFile]|e] eqn:Hparse;
    [|eexists; reflexivity].
  destruct (parseBody_strings P event fields photoFile Hct Hparse) as (props & -> & Hall).
  cbn beta iota delta [fst snd].
  unfold bind at 1, lift at 1, field.
  destruct (truthy _); [eexists; reflexivity|].
  rewrite bind_cleanField.
  destruct (read_field_strings P props "catName" Hall) as [catName ->].
  rewrite bind_cleanField.
  destruct (read_field_strings P props "humanName" Hall) as [humanName ->].
  rewrite bind_cleanField.
  destruct (read_field_strings P props "photoUrl" Hall) as [photoUrl ->].
  destruct (negb (nonempty catName) || negb (nonempty humanName));
    [eexists; reflexivity|].
  destruct (negb (present photoFile) && negb (nonempty photoUrl));
    [eexists; reflexivity|].
  unfold try_or_return at 1, lift at 1.
  destruct (getCloudinaryConfig P) as [config|e]; [|eexists; reflexivity].
  unfold try_or_return at 1.
  destruct (resolveCanonicalPhotoUrl P photoUrl photoFile config tr)
    as [[url|e] t1]; [|eexists; reflexivity].
  unfold save_record. rewrite bind_cleanField.
  destruct (read_field_strings P props "devUrl" Hall) as [devUrl ->].
  rewrite bind_cleanField.
  destruct (read_field_strings P props "story" Hall) as [story ->].
  unfold store_submission, bind, perform.
  match goal with
  | |- context [airtable_post P t1 ?request] =>
      destruct (airtable_post P t1 request) as [|[|] st [text|]]
  end; try destruct (includes "application/json" (getHeader event "accept"));
    eexists; reflexivity.
Qed.

Lemma form_submission_always_answered_witness :
  exists resp, fst (handler html_platform multipart_event []) = Ok resp.
Proof.
  apply (form_submission_always_answered html_platform multipart_event []).
  left. vm_compute. reflexivity.
Defined.

(** X16. A JSON body that is [null] makes the handler fail with an exception
    that none of its handlers catches: reading the honeypot field of [null]
    throws.  No response is produced and nothing is contacted. *)
Theorem json_null_body_is_unhandled :
  forall (P : Platform) (event : lambda_event) (photoFile : option image)
         (tr : trace),
    accepted_request P event ->
    parseBody P event = Ok (FieldsNull, photoFile) ->
    handler P event tr = (Throw OtherError, tr).
Proof.
  intros P event photoFile tr Hacc Hparse.
  rewrite (handler_accepted P event Hacc).
  unfold try_or_return, lift at 1. rewrite Hparse. reflexivity.
Qed.

Lemma json_null_body_is_unhandled_witness :
  handler null_platform null_event [] = (Throw OtherError, []).
Proof.
  apply (json_null_body_is_unhandled null_platform null_event None []).
  - repeat split; vm_compute; discriminate.
  - vm_compute. reflexivity.
Defined.

Ltac silent_answer :=
  let H := fresh "H" in
  let Hbody := fresh "Hbody" in
  intros H Hbody;
  first
    [ discriminate H
    | injection H as <- <-;
      first [ discriminate Hbody
            | match goal with
              | e : error |- _ => destruct e; discriminate Hbody
              end ] ].

(** X17. The JSON answer is given only after the store has accepted the write:
    it has status 200, the client asked for JSON, and the photo URL it
    reports is the one of the record just written, which is the URL the image
    host returned for the upload. *)
Theorem json_answer_reports_stored_url :
  forall (P : Platform) (event : lambda_event) (tr tr' : trace)
         (resp : http_response) (url : string),
    handler P event tr = (Ok resp, tr') ->
    out_body resp = JsonOk url ->
    statusCode resp = 200
    /\ includes "application/json" (getHeader event "accept") = true
    /\ exists t1 record st text,
        tr' = t1 ++ [EvStoreWrite record]
        /\ airtable_post P t1 record = StoreResponse true st text
        /\ Photo_URL (st_payload record) = url
        /\ Status (st_payload record) = "Pending"
        /\ obtained_from_upload P url t1.
Proof.
  intros P event tr tr' resp url. unfold handler.
  destruct (negb (String.eqb (httpMethod event) "POST")); [silent_answer|].
  destruct (negb (nonempty _) || negb (nonempty _)); [silent_answer|].
  unfold try_or_return at 1, lift at 1.
  destruct (parseBody P event) as [[fields photoFile]|e]; [|silent_answer].
  cbn beta iota delta [fst snd].
  unfold bind at 1, lift at 1.
  destruct (field fields "website") as [website|e]; [|silent_answer].
  destruct (truthy website); [silent_answer|].
  rewrite bind_cleanField.
  destruct (read_field P fields "catName") as [catName|e]; [|silent_answer].
  rewrite bind_cleanField.
  destruct (read_field P fields "humanName") as [humanName|e]; [|silent_answer].
  rewrite bind_cleanField.
  destruct (read_field P fields "photoUrl") as [photoUrl|e]; [|silent_answer].
  destruct (negb (nonempty catName) || negb (nonempty humanName)); [silent_answer|].
  destruct (negb (present photoFile) && negb (nonempty photoUrl)); [silent_answer|].
  unfold try_or_return at 1, lift at 1.
  destruct (getCloudinaryConfig P) as [config|e]; [|silent_answer].
  unfold try_or_return at 1.
  destruct (resolveCanonicalPhotoUrl P photoUrl photoFile config tr)
    as [[canonical|e] t1] eqn:Hresolve; [|silent_answer].
  apply resolveCanonicalPhotoUrl_Ok in Hresolve.
  unfold save_record. rewrite bind_cleanField.
  destruct (read_field P fields "devUrl") as [devUrl|e]; [|silent_answer].
  rewrite bind_cleanField.
  destruct (read_field P fields "story") as [story|e]; [|silent_answer].
  unfold store_submission, bind, perform.
  match goal with
  | |- context [airtable_post P t1 ?request] =>
      set (req := request);
      destruct (airtable_post P t1 req) as [|[|] st [text|]] eqn:Hpost
  end; try silent_answer;
    (destruct (includes "application/json" (getHeader event "accept")) eqn:Haccept;
     [|silent_answer]);
    unfold ret; intros H Hbody; injection H as <- <-;
    cbn [out_body] in Hbody; injection Hbody as <-;
    (split; [reflexivity|]); (split; [reflexivity|]);
    eexists t1, req, st, _; (split; [reflexivity|]); (split; [exact Hpost|]);
    now repeat split.
Qed.

Lemma json_answer_reports_stored_url_witness :
  200 = 200
  /\ includes "application/json" (getHeader api_event "accept") = true
  /\ exists t1 record st text,
      [EvUpload tom_upload; EvStoreWrite tom_record] = t1 ++ [EvStoreWrite record]
      /\ airtable_post good_platform t1 record = StoreResponse true st text
      /\ Photo_URL (st_payload record) = hosted_url
      /\ Status (st_payload record) = "Pending"
      /\ obtained_from_upload good_platform hosted_url t1.
Proof.
  apply (json_answer_reports_stored_url good_platform api_event []
           [EvUpload tom_upload; EvStoreWrite tom_record]
           (mkHttp 200 [("Content-Type", "application/json")] (JsonOk hosted_url))
           hosted_url).
  - vm_compute. reflexivity.
  - reflexivity.
Defined.

(** ** Form fields *)

Lemma trimEnd_cons (c : ascii) (s : string) :
  trimEnd (String c s)
  = match trimEnd s with
    | EmptyString => if is_space c then EmptyString else String c EmptyString
    | t => String c t
    end.
Proof. reflexivity. Qed.

Lemma trimEnd_idem (s : string) : trimEnd (trimEnd s) = trimEnd s.
Proof.
  induction s as [|c s IH]; [reflexivity|].
  rewrite trimEnd_cons. destruct (trimEnd s) as [|x t] eqn:E.
  - destruct (is_space c) eqn:Hc; [reflexivity|].
    rewrite trimEnd_cons. cbn [trimEnd]. now rewrite Hc.
  - rewrite trimEnd_cons, IH. reflexivity.
Qed.

Lemma trimStart_cases (s : string) :
  trimStart s = EmptyString
  \/ exists c t, trimStart s = String c t /\ is_space c = false.
Proof.
  induction s as [|c s IH]; [now left|].
  cbn [trimStart]. destruct (is_space c) eqn:Hc; [exact IH|].
  right. now exists c, s.
Qed.

Lemma trim_idem (s : string) : trim (trim s) = trim s.
Proof.
  unfold trim. destruct (trimStart_cases s) as [->|(c & t & -> & Hc)]; [reflexivity|].
  assert (Hhead : exists u, trimEnd (String c t) = String c u).
  { rewrite trimEnd_cons. destruct (trimEnd t); [rewrite Hc|]; eauto. }
  destruct Hhead as [u Hu]. rewrite Hu. cbn [trimStart]. rewrite Hc.
  rewrite <- Hu. apply trimEnd_idem.
Qed.

(** X18. The text read from a field has no white space at either end.  A value
    that is missing, [null], empty or otherwise falsy reads as the empty
    text; a string reads as its trimmed self; reading fails only for a truthy
    value that is not a string and cannot be turned into one. *)
Theorem cleanText_is_trimmed :
  forall (P : Platform),
    (forall value : jsvalue,
        match cleanText P value with
        | Ok text => trim text = text /\ (truthy value = false -> text = EmptyString)
        | Throw e =>
            e = OtherError /\ truthy value = true /\ valueToString P value = None
        end)
    /\ (forall s : string, cleanText P (VString s) = Ok (trim s)).
Proof.
  intros P. split; [|apply cleanText_string].
  intros value. unfold cleanText.
  destruct (truthy value) eqn:Htruthy.
  - destruct value as [| |b|n|s|id];
      try (destruct (valueToString P _) eqn:E;
           [split; [apply trim_idem|discriminate]|now repeat split]).
    split; [apply trim_idem|discriminate].
  - split; reflexivity.
Qed.




(** ** The record reader, continued *)

Lemma to_cat_Throw (record : airtable_record) (e : error) :
  to_cat record = Throw e -> e = OtherError.
Proof. unfold to_cat. destruct (rec_fields record); [discriminate|]. now intros [= <-]. Qed.

Lemma map_records_bare (records : list airtable_record) (record : airtable_record) :
  In record records -> rec_fields record = None ->
  map_records records = Throw OtherError.
Proof.
  induction records as [|a rest IH]; [easy|].
  intros Hin Hbare. cbn [map_records].
  destruct (to_cat a) as [c|e] eqn:Ha.
  - destruct Hin as [->|Hin].
    + unfold to_cat in Ha. rewrite Hbare in Ha. discriminate.
    + now rewrite (IH Hin Hbare).
  - now rewrite (to_cat_Throw a e Ha).
Qed.

(** X20. The reader of the gallery never throws and asks the store at most once,
    at the address built from the configuration; without a token or a base
    it asks nothing and shows nothing.  Every cat it returns has a photo. *)
Theorem cats_data_never_throws :
  forall (P : Platform) (tr : trace),
    exists cats evs,
      cats_data P tr = (Ok cats, tr ++ evs)
      /\ (evs = [] \/ evs = [EvStoreRead (records_url P)])
      /\ (forall c, In c cats -> has_photo c = true)
      /\ (opt_or_else (env P "AIRTABLE_TOKEN") "" = EmptyString
          \/ opt_or_else (env P "AIRTABLE_BASE_ID") "" = EmptyString ->
          cats = [] /\ evs = []).
Proof.
  intros P tr. unfold cats_data.
  destruct (negb (nonempty (opt_or_else (env P "AIRTABLE_TOKEN") ""))
            || negb (nonempty (opt_or_else (env P "AIRTABLE_BASE_ID") ""))) eqn:Hconf.
  { exists [], []. rewrite app_nil_r. repeat split; tauto || easy. }
  apply orb_false_elim in Hconf as [Htoken Hbase].
  apply negb_false_iff, nonempty_true in Htoken, Hbase.
  assert (Hquiet : forall evs : trace,
            opt_or_else (env P "AIRTABLE_TOKEN") "" = EmptyString
            \/ opt_or_else (env P "AIRTABLE_BASE_ID") "" = EmptyString ->
            @nil cat = [] /\ evs = []) by (intros evs [E|E]; congruence).
  cbv zeta. unfold bind, perform. fold (records_url P).
  destruct (airtable_get P tr (records_url P)) as [| | |records];
    try (exists [], [EvStoreRead (records_url P)]; unfold ret;
         split; [reflexivity|]; split; [now right|]; split; [easy|];
         intros [E|E]; congruence).
  destruct (render_records P (default [] records)) as [cats|e] eqn:Hrender.
  - exists cats, [EvStoreRead (records_url P)]. unfold ret.
    split; [reflexivity|]. split; [now right|]. split; [|intros [E|E]; congruence].
    unfold render_records in Hrender.
    destruct (map_records (default [] records)); [|discriminate].
    injection Hrender as <-. intros c Hc. now apply List.filter_In in Hc.
  - exists [], [EvStoreRead (records_url P)]. unfold ret.
    split; [reflexivity|]. split; [now right|]. split; [easy|].
    intros [E|E]; congruence.
Qed.

(** X21. One row without a [fields] object hides the whole gallery: the reader
    returns no cat at all, whatever the other rows hold. *)
Theorem cats_data_bare_row_hides_all :
  forall (P : Platform) (tr : trace) (records : list airtable_record)
         (record : airtable_record),
    opt_or_else (env P "AIRTABLE_TOKEN") "" <> EmptyString ->
    opt_or_else (env P "AIRTABLE_BASE_ID") "" <> EmptyString ->
    airtable_get P tr (records_url P) = ReadJson (Some records) ->
    In record records ->
    rec_fields record = None ->
    cats_data P tr = (Ok [], tr ++ [EvStoreRead (records_url P)]).
Proof.
  intros P tr records record Htoken Hbase Hget Hin Hbare.
  unfold cats_data. apply nonempty_true in Htoken, Hbase.
  rewrite Htoken, Hbase. change (negb true || negb true) with false.
  cbv iota zeta. unfold bind, perform. fold (records_url P). rewrite Hget.
  change (default [] (Some records)) with records.
  unfold render_records. now rewrite (map_records_bare records record Hin Hbare).
Qed.

Lemma cats_data_bare_row_hides_all_witness :
  cats_data broken_platform []
  = (Ok [], [] ++ [EvStoreRead (records_url broken_platform)]).
Proof.
  apply (cats_data_bare_row_hides_all broken_platform [] (sample_rows ++ [bare_row])
           bare_row).
  - vm_compute. discriminate.
  - vm_compute. discriminate.
  - reflexivity.
  - apply in_or_app. right. now left.
  - reflexivity.
Defined.

Example sample_rows_are_shown :
  cats_data (with_rows good_platform (ReadJson (Some sample_rows))) []
  = (Ok sample_cats,
     [EvStoreRead ("https://api.airtable.com/v0/appBase/Cats"
                   +:+ "?view=Approved&pageSize=100")]).
Proof. vm_compute. reflexivity. Qed.

(** ** IPv4-mapped addresses *)

Lemma substring_whole (s : string) : String.substring 0 (String.length s) s = s.
Proof. induction s as [|c s IH]; simpl; [reflexivity|now rewrite IH]. Qed.

Lemma dotted_lacks (a b c d : Z) (x : ascii) :
  0 <= a <= 255 -> 0 <= b <= 255 -> 0 <= c <= 255 -> 0 <= d <= 255 ->
  Net.is_digit x || Ascii.eqb x "." = false ->
  ~ In x (Net.chars (dotted a b c d)).
Proof.
  intros Ha Hb Hc Hd Hx Hin.
  pose proof (dotted_chars a b c d Ha Hb Hc Hd) as Hchars.
  rewrite forallb_forall in Hchars. specialize (Hchars x Hin). congruence.
Qed.

Lemma dotted_isIPv4 (a b c d : Z) :
  0 <= a <= 255 -> 0 <= b <= 255 -> 0 <= c <= 255 -> 0 <= d <= 255 ->
  Net.isIPv4 (dotted a b c d) = true.
Proof.
  intros Ha Hb Hc Hd. unfold Net.isIPv4. rewrite split_dotted by assumption.
  destruct (octet_text a Ha) as [Sa _], (octet_text b Hb) as [Sb _],
           (octet_text c Hc) as [Sc _], (octet_text d Hd) as [Sd _].
  simpl. now rewrite Sa, Sb, Sc, Sd.
Qed.

Lemma mapped_isIP (a b c d : Z) :
  0 <= a <= 255 -> 0 <= b <= 255 -> 0 <= c <= 255 -> 0 <= d <= 255 ->
  Net.isIP ("::ffff:" +:+ dotted a b c d) = 6.
Proof.
  intros Ha Hb Hc Hd.
  assert (H4 : Net.isIPv4 ("::ffff:" +:+ dotted a b c d) = false).
  { unfold Net.isIPv4, dotted.
    change ("::ffff:" +:+ String_of_Z a +:+ "." +:+ String_of_Z b +:+ "."
            +:+ String_of_Z c +:+ "." +:+ String_of_Z d)
      with (("::ffff:" +:+ String_of_Z a) +:+ String "."
              (String_of_Z b +:+ String "."
                 (String_of_Z c +:+ String "." (String_of_Z d)))).
    rewrite split_at_sep.
    - rewrite !split_at_sep by (now apply octet_text).
      rewrite split_no_sep by (now apply octet_text). reflexivity.
    - rewrite chars_app. intros Hin. apply in_app_or in Hin as [Hin|Hin].
      + cbv in Hin. intuition discriminate.
      + now apply (octet_text a Ha). }
  pose proof (dotted_isIPv4 a b c d Ha Hb Hc Hd) as Hv4.
  assert (Hpercent : ~ In "%"%char (Net.chars (dotted a b c d)))
    by (now apply dotted_lacks).
  assert (Hcolon : ~ In ":"%char (Net.chars (dotted a b c d)))
    by (now apply dotted_lacks).
  set (D := dotted a b c d) in *.
  assert (H6 : Net.isIPv6 ("::ffff:" +:+ D) = true).
  { unfold Net.isIPv6. rewrite split_no_sep.
    2:{ rewrite chars_app. intros Hin. apply in_app_or in Hin as [Hin|Hin].
        - cbv in Hin. intuition discriminate.
        - now apply Hpercent. }
    unfold Net.isIPv6_address.
    change (Net.cut_double_colon ("::ffff:" +:+ D))
      with (Some (EmptyString,
                  String.substring 0 (String.length ("ffff:" +:+ D)) ("ffff:" +:+ D))).
    rewrite substring_whole.
    change (Net.groups_of false EmptyString) with (Some 0%nat).
    change (Net.groups_of true ("ffff:" +:+ D))
      with (Net.count_groups true (split ":" ("ffff" +:+ String ":" D))).
    rewrite split_at_sep by (cbv; intuition discriminate).
    rewrite split_no_sep by exact Hcolon.
    cbn [Net.count_groups]. change (Net.v6Seg "ffff") with true. cbv iota.
    rewrite Hv4. now destruct (Net.v6Seg D). }
  unfold Net.isIP. now rewrite H4, H6.
Qed.

(** X22. An IPv4-mapped IPv6 address is an IP address of version 6 that starts
    with none of the private IPv6 prefixes: it is never classified as
    private, whatever IPv4 address it embeds, loopback and private ranges
    included. *)
Theorem isPrivateIpAddress_accepts_ipv4_mapped :
  forall (P : Platform) (a b c d : Z),
    0 <= a <= 255 -> 0 <= b <= 255 -> 0 <= c <= 255 -> 0 <= d <= 255 ->
    Net.isIP ("::ffff:" +:+ dotted a b c d) = 6
    /\ isPrivateIpAddress P ("::ffff:" +:+ dotted a b c d) = false.
Proof.
  intros P a b c d Ha Hb Hc Hd.
  pose proof (mapped_isIP a b c d Ha Hb Hc Hd) as Hip. split; [exact Hip|].
  unfold isPrivateIpAddress. rewrite Hip.
  change (6 =? 4) with false. change (6 =? 6) with true. cbv iota.
  unfold isPrivateIPv6. set (D := dotted a b c d).
  change (toLowerCase ("::ffff:" +:+ D)) with ("::ffff:" +:+ toLowerCase D).
  reflexivity.
Qed.

Lemma isPrivateIpAddress_accepts_ipv4_mapped_witness :
  Net.isIP "::ffff:127.0.0.1" = 6
  /\ isPrivateIpAddress mixed_platform "::ffff:127.0.0.1" = false.
Proof.
  apply (isPrivateIpAddress_accepts_ipv4_mapped mixed_platform 127 0 0 1); lia.
Defined.

(** ** The write to the store *)

(** X23. The write to the store never throws and sends exactly one request, with
    the record and the bearer token.  When the store accepts it the answer is
    the JSON answer or the redirect, as the client asked; in every other case
    it has status 500 and a text that starts with the same words. *)
Theorem store_submission_answers :
  forall (P : Platform) (event : lambda_event) (token baseId tableName : string)
         (record : payload) (tr : trace),
    exists resp request,
      store_submission P event token baseId tableName record tr
        = (Ok resp, tr ++ [EvStoreWrite request])
      /\ st_payload request = record
      /\ st_authorization request = "Bearer " +:+ token
      /\ match airtable_post P tr request with
         | StoreResponse true _ _ =>
             if includes "application/json" (getHeader event "accept")
             then statusCode resp = 200 /\ out_body resp = JsonOk (Photo_URL record)
             else resp = redirect_thanks
         | _ =>
             statusCode resp = 500
             /\ exists m,
                 out_body resp = Text m
                 /\ String.prefix "Could not save submission." m = true
         end.
Proof.
  intros P event token baseId tableName record tr.
  unfold store_submission, bind, perform.
  match goal with
  | |- context [airtable_post P tr ?request] => set (req := request)
  end.
  destruct (airtable_post P tr req) as [|[|] st [text|]] eqn:Hpost;
    try destruct (includes "application/json" (getHeader event "accept")) eqn:Haccept;
    eexists _, req; (split; [reflexivity|]); (split; [reflexivity|]);
    (split; [reflexivity|]); rewrite Hpost; try rewrite Haccept;
    try (split; reflexivity); try reflexivity;
    (split; [reflexivity|]); eexists; split; reflexivity.
Qed.

(** ** Request headers *)

(** X24. Header names are looked up as given and in lower case only.  A request
    without a [content-type] header under that exact name is parsed as a
    URL-encoded form, whatever its body is: parsing cannot fail and gives no
    file. *)
Theorem missing_content_type_is_urlencoded :
  forall (P : Platform) (event : lambda_event),
    (forall h, ev_headers event = Some h -> h !! "content-type" = None) ->
    getHeader event "content-type" = EmptyString
    /\ parseBody P event
       = Ok (FieldsObject
               (fromEntries (URLSearchParams P (opt_or_else (ev_body event) ""))),
             None).
Proof.
  intros P event Hmissing.
  assert (Hct : getHeader event "content-type" = EmptyString).
  { unfold getHeader. change (toLowerCase "content-type") with "content-type".
    destruct (ev_headers event) as [h|].
    - cbn beta iota delta [default from_option id].
      now rewrite (Hmissing h eq_refl).
    - cbn beta iota delta [default from_option id]. now rewrite lookup_empty. }
  split; [exact Hct|]. unfold parseBody. rewrite Hct. reflexivity.
Qed.

Lemma missing_content_type_is_urlencoded_witness :
  getHeader capitalised_event "content-type" = EmptyString
  /\ parseBody good_platform capitalised_event
     = Ok (FieldsObject
             (fromEntries
                (URLSearchParams good_platform
                   (opt_or_else (ev_body capitalised_event) ""))),
           None).
Proof.
  apply (missing_content_type_is_urlencoded good_platform capitalised_event).
  intros h [= <-]. vm_compute. reflexivity.
Defined.

(** ** The handler as a whole *)

Lemma fetchImageFromUrl_loop (P : Platform) (urlString : string) (tr tr' : trace)
    (r : result image) :
  fetchImageFromUrl P urlString tr = (r, tr') ->
  tr' = tr \/ fetch_loop P (S MAX_REDIRECTS) (trim urlString) tr = (r, tr').
Proof.
  unfold fetchImageFromUrl. rewrite cleanText_string.
  unfold bind at 1, lift at 1.
  destruct (nonempty (trim urlString)).
  - change (negb true) with false. cbv iota. now right.
  - intros [= _ <-]. now left.
Qed.

Lemma fetch_hop_remote (P : Platform) (url : string) :
  extends_by is_remote (fetch_hop P url).
Proof.
  unfold fetch_hop. extends_steps.
  - apply (extends_weaken is_lookup); [now intros []|apply assertPublicUrl_events].
  - apply (extends_weaken is_body_read);
      [now intros []|apply readResponseWithLimit_events].
Qed.

Lemma fetch_loop_remote (P : Platform) (remaining : nat) :
  forall url, extends_by is_remote (fetch_loop P remaining url).
Proof.
  induction remaining as [|k IH]; intros url; cbn [fetch_loop].
  - apply extends_throw.
  - apply extends_bind; [apply fetch_hop_remote|].
    intros [next|img]; [apply IH|apply extends_ret].
Qed.

Lemma resolve_counts (P : Platform) (photoUrl : string) (photoFile : option image)
    (config : cloudinaryConfig) (tr tr' : trace) (r : result string) :
  resolveCanonicalPhotoUrl P photoUrl photoFile config tr = (r, tr') ->
  exists evs,
    tr' = tr ++ evs
    /\ (count_fetches evs <= S MAX_REDIRECTS)%nat
    /\ (length (List.filter is_upload evs) <= 1)%nat
    /\ List.filter is_store_write evs = [].
Proof.
  assert (Hupload : forall img t t' x,
            uploadToCloudinary P img config t = (x, t') ->
            exists request, t' = t ++ [EvUpload request]).
  { intros img t t' x H. apply upload_request_sent in H as (request & -> & _).
    now exists request. }
  assert (Hremote : forall t t' x,
            (remoteImage <- fetchImageFromUrl P photoUrl ;;
             uploadToCloudinary P remoteImage config) t = (x, t') ->
            exists evs,
              t' = t ++ evs
              /\ (count_fetches evs <= S MAX_REDIRECTS)%nat
              /\ (length (List.filter is_upload evs) <= 1)%nat
              /\ List.filter is_store_write evs = []).
  { intros t t' x H. unfold bind in H.
    destruct (fetchImageFromUrl P photoUrl t) as [[img|e] t1] eqn:Hfetch.
    - apply fetchImageFromUrl_loop in Hfetch as [->|Hloop].
      + apply Hupload in H as [request ->]. exists [EvUpload request].
        repeat split; unfold count_fetches; simpl; lia.
      + destruct (fetch_loop_counts P _ _ _ _ _ Hloop) as (ev1 & Ht1 & Hfetches & _).
        destruct (fetch_loop_remote P _ _ _ _ _ Hloop) as (ev1' & Ht1' & Hclass).
        rewrite Ht1 in Ht1'. apply app_inv_head in Ht1'. subst ev1' t1.
        apply Hupload in H as [request ->]. exists (ev1 ++ [EvUpload request]).
        split; [now rewrite app_assoc|].
        unfold count_fetches in *. rewrite !List.filter_app, !length_app.
        rewrite (filter_quiet is_upload is_remote ev1) by (assumption || now intros []).
        rewrite (filter_quiet is_store_write is_remote ev1)
          by (assumption || now intros []).
        simpl. repeat split; lia.
    - injection H as _ <-.
      apply fetchImageFromUrl_loop in Hfetch as [->|Hloop].
      + exists []. rewrite app_nil_r. repeat split; unfold count_fetches; simpl; lia.
      + destruct (fetch_loop_counts P _ _ _ _ _ Hloop) as (ev1 & Ht1 & Hfetches & _).
        destruct (fetch_loop_remote P _ _ _ _ _ Hloop) as (ev1' & Ht1' & Hclass).
        rewrite Ht1 in Ht1'. apply app_inv_head in Ht1'. subst ev1' t1.
        exists ev1. split; [reflexivity|]. split; [exact Hfetches|].
        rewrite (filter_quiet is_upload is_remote ev1) by (assumption || now intros []).
        rewrite (filter_quiet is_store_write is_remote ev1)
          by (assumption || now intros []).
        simpl. split; [lia|reflexivity]. }
  unfold resolveCanonicalPhotoUrl. destruct photoFile as [file|]; [|apply Hremote].
  destruct (negb (length (buffer file) =? 0)%nat); [|apply Hremote].
  intros H. apply Hupload in H as [request ->]. exists [EvUpload request].
  repeat split; unfold count_fetches; simpl; lia.
Qed.

(** X25. Whatever the request and whatever the remote services answer, one run of
    the handler sends at most five requests to remote hosts, at most one
    upload to the image host and at most one write to the store. *)
Theorem handler_effect_budget :
  forall (P : Platform) (event : lambda_event) (tr : trace),
    exists evs,
      snd (handler P event tr) = tr ++ evs
      /\ (count_fetches evs <= S MAX_REDIRECTS)%nat
      /\ (length (List.filter is_upload evs) <= 1)%nat
      /\ (length (List.filter is_store_write evs) <= 1)%nat.
Proof.
  intros P event tr. destruct (handler P event tr) as [r tr'] eqn:H.
  cbn [snd].
  destruct (handler_runs P event tr tr' r H)
    as [->|(fields & photoFile & config & photoUrl & catName & humanName
            & _ & _ & [[e Hres]|(url & t1 & Hres & Hsave)])].
  - exists []. rewrite app_nil_r. repeat split; unfold count_fetches; simpl; lia.
  - destruct (resolve_counts P _ _ _ _ _ _ Hres) as (evs & -> & Hf & Hu & Hw).
    exists evs. rewrite Hw. repeat split; simpl; lia.
  - destruct (resolve_counts P _ _ _ _ _ _ Hres) as (evs & -> & Hf & Hu & Hw).
    apply save_record_runs in Hsave as [->|(request & -> & _)].
    + exists evs. rewrite Hw. repeat split; simpl; lia.
    + exists (evs ++ [EvStoreWrite request]). split; [now rewrite app_assoc|].
      unfold count_fetches in *. rewrite !List.filter_app, !length_app, Hw.
      simpl. repeat split; lia.
Qed.

Lemma resolve_validated (P : Platform) (n0 : nat) (photoUrl : string)
    (photoFile : option image) (config : cloudinaryConfig) (tr tr' : trace)
    (r : result string) :
  fetches_validated P n0 tr ->
  resolveCanonicalPhotoUrl P photoUrl photoFile config tr = (r, tr') ->
  fetches_validated P n0 tr'.
Proof.
  intros Htr.
  assert (Hupload : forall img t t' x,
            fetches_validated P n0 t ->
            uploadToCloudinary P img config t = (x, t') ->
            fetches_validated P n0 t').
  { intros img t t' x Ht H. apply upload_request_sent in H as (request & -> & _).
    now apply validated_quiet. }
  assert (Hremote : (remoteImage <- fetchImageFromUrl P photoUrl ;;
                     uploadToCloudinary P remoteImage config) tr = (r, tr') ->
                    fetches_validated P n0 tr').
  { intros H. unfold bind in H.
    destruct (fetchImageFromUrl P photoUrl tr) as [[img|e] t1] eqn:Hfetch.
    - apply (Hupload img t1 tr' r); [|exact H].
      apply fetchImageFromUrl_loop in Hfetch as [->|Hloop]; [exact Htr|].
      exact (fetch_loop_validated P n0 _ _ _ _ _ Htr Hloop).
    - injection H as _ <-.
      apply fetchImageFromUrl_loop in Hfetch as [->|Hloop]; [exact Htr|].
      exact (fetch_loop_validated P n0 _ _ _ _ _ Htr Hloop). }
  unfold resolveCanonicalPhotoUrl. destruct photoFile as [file|]; [|exact Hremote].
  destruct (negb (length (buffer file) =? 0)%nat); [|exact Hremote].
  now apply Hupload.
Qed.

(** X26. Server-side request forgery is guarded at the entry point: in every run
    of the handler, each request to a remote host is sent right after a
    successful host check, to the URL that this check returned. *)
Theorem handler_fetches_only_checked_urls :
  forall (P : Platform) (event : lambda_event) (tr : trace),
    fetches_validated P (length tr) (snd (handler P event tr)).
Proof.
  intros P event tr. destruct (handler P event tr) as [r tr'] eqn:H.
  cbn [snd]. pose proof (validated_start P tr) as Hstart.
  destruct (handler_runs P event tr tr' r H)
    as [->|(fields & photoFile & config & photoUrl & catName & humanName
            & _ & _ & [[e Hres]|(url & t1 & Hres & Hsave)])].
  - exact Hstart.
  - exact (resolve_validated P _ _ _ _ _ _ _ Hstart Hres).
  - pose proof (resolve_validated P _ _ _ _ _ _ _ Hstart Hres) as Ht1.
    apply save_record_runs in Hsave as [->|(request & -> & _)]; [exact Ht1|].
    now apply validated_quiet.
Qed.

(** ** Status codes *)

(** *** Statuses that occur at all *)

Section RunSpec.

Context {A B : Type} (Q : B -> Prop) (E : error -> Prop).

Lemma spec_ret (b : B) : Q b -> run_spec Q E (ret b).
Proof. intros H tr r tr' [= <- <-]. exact H. Qed.

Lemma spec_throw (e : error) : E e -> run_spec Q E (@throw B e).
Proof. intros H tr r tr' [= <- <-]. exact H. Qed.

Lemma spec_lift (x : result B) : result_spec Q E x -> run_spec Q E (lift x).
Proof. intros H tr r tr' [= <- <-]. exact H. Qed.

Lemma spec_perform (oracle : trace -> B) (e : event) :
  (forall b, Q b) -> run_spec Q E (perform oracle e).
Proof. intros H tr r tr' [= <- <-]. apply H. Qed.

Lemma spec_bind (c : M A) (k : A -> M B) :
  run_spec (fun _ => True) E c -> (forall a, run_spec Q E (k a)) ->
  run_spec Q E (bind c k).
Proof.
  intros Hc Hk tr r tr'. unfold bind.
  destruct (c tr) as [[a|e] t1] eqn:Hrun; intros H.
  - apply (Hk a _ _ _ H).
  - injection H as <- <-. apply (Hc _ _ _ Hrun).
Qed.

Lemma spec_try_or_return (c : M A) (h : error -> B) (k : A -> M B) :
  run_spec (fun _ => True) (fun e => Q (h e)) c ->
  (forall a, run_spec Q E (k a)) ->
  run_spec Q E (try_or_return c h k).
Proof.
  intros Hc Hk tr r tr'. unfold try_or_return.
  destruct (c tr) as [[a|e] t1] eqn:Hrun; intros H.
  - apply (Hk a _ _ _ H).
  - injection H as <- <-. apply (Hc _ _ _ Hrun).
Qed.

End RunSpec.

Lemma spec_get_trace (Q : trace -> Prop) (E : error -> Prop) :
  (forall t, Q t) -> run_spec Q E get_trace.
Proof. intros H tr r tr' [= <- <-]. apply H. Qed.

Lemma spec_weaken {A} (Q Q' : A -> Prop) (E E' : error -> Prop) (c : M A) :
  (forall a, Q a -> Q' a) -> (forall e, E e -> E' e) ->
  run_spec Q E c -> run_spec Q' E' c.
Proof.
  intros HQ HE Hc tr r tr' H. specialize (Hc _ _ _ H).
  destruct r; [now apply HQ|now apply HE].
Qed.

(** Breaks a monadic term down to the values it returns and throws. *)
Ltac spec_steps :=
  repeat first
    [ apply spec_ret
    | apply spec_throw
    | apply spec_perform; intros ?
    | apply spec_get_trace; intros ?
    | apply spec_bind; [|intros ?]
    | apply spec_try_or_return; [|intros ?]
    | match goal with
      | |- run_spec _ _ (match ?x with _ => _ end) => destruct x
      | |- run_spec _ _ (let _ := _ in _) => cbv zeta
      end ].

(** Closes a goal about a status that is written out. *)
Ltac coded := cbn [coded_error coded_response statusCode In]; lia.

Lemma sanitizeImageMimeType_coded (raw : string) :
  result_spec (fun _ => True) coded_error (sanitizeImageMimeType raw).
Proof.
  unfold sanitizeImageMimeType. destruct (negb _); simpl; [lia|exact I].
Qed.

Lemma check_records_coded (P : Platform) (records : list string) :
  result_spec (fun _ => True) coded_error (check_records P records).
Proof.
  induction records as [|a rest IH]; simpl; [exact I|].
  destruct (isPrivateIpAddress P a); [simpl; lia|exact IH].
Qed.

Lemma default_status_coded (m : string) : coded_error (SubmissionError_default m).
Proof. simpl. lia. Qed.

Lemma cleanText_coded (P : Platform) (value : jsvalue) :
  result_spec (fun _ => True) coded_error (cleanText P value).
Proof.
  unfold cleanText. destruct (truthy value); [|exact I].
  destruct value; try destruct (valueToString P _); exact I.
Qed.

Lemma getFilenameFromUrl_coded (P : Platform) (url mime : string) :
  result_spec (fun _ => True) coded_error (getFilenameFromUrl P url mime).
Proof.
  unfold getFilenameFromUrl. destruct (URL_new P url); [|exact I].
  destruct (includes _ _); exact I.
Qed.

Lemma getCloudinaryConfig_coded (P : Platform) :
  result_spec (fun _ => True) coded_error (getCloudinaryConfig P).
Proof.
  unfold getCloudinaryConfig. destruct (_ || _); [simpl; lia|exact I].
Qed.

Lemma parse_entries_coded (entries : list (string * form_value)) :
  forall fields photoFile,
    result_spec (fun _ => True) coded_error (parse_entries entries fields photoFile).
Proof.
  induction entries as [|[key value] rest IH]; intros fields photoFile; simpl;
    [exact I|].
  destruct value as [s|f]; [apply IH|].
  destruct (_ || _); [apply IH|].
  destruct (file_size f >? MAX_IMAGE_BYTES); [simpl; lia|].
  pose proof (sanitizeImageMimeType_coded (or_else (file_type f) "")) as Hmime.
  destruct (sanitizeImageMimeType _); [apply IH|exact Hmime].
Qed.

Lemma parseBody_coded (P : Platform) (event : lambda_event) :
  result_spec (fun _ => True) coded_error (parseBody P event).
Proof.
  unfold parseBody. destruct (includes "multipart/form-data" _).
  - destruct (formData P _ _ _) as [entries|]; [|exact I].
    pose proof (parse_entries_coded entries ∅ None) as H.
    destruct (parse_entries entries ∅ None) as [[fields photoFile]|e];
      [exact I|exact H].
  - destruct (includes "application/json" _); [|exact I].
    destruct (JSON_parse P _); exact I.
Qed.

#[local] Hint Resolve sanitizeImageMimeType_coded check_records_coded
  cleanText_coded getFilenameFromUrl_coded getCloudinaryConfig_coded
  parseBody_coded default_status_coded : trace_events.

(** Closes the leaves left by [spec_steps]. *)
Ltac spec_leaves :=
  try (apply spec_lift);
  first [ exact I | solve [coded] | solve [auto with trace_events] | idtac ].

Lemma assertPublicUrl_coded (P : Platform) (url : string) :
  run_spec (fun _ => True) coded_error (assertPublicUrl P url).
Proof. unfold assertPublicUrl. spec_steps; spec_leaves. Qed.

Lemma read_loop_coded (maxBytes : Z) (steps : list read_step) :
  forall chunks total,
    run_spec (fun _ => True) coded_error (read_loop maxBytes steps chunks total).
Proof.
  induction steps as [|step steps IH]; intros chunks total; simpl.
  - spec_steps; spec_leaves.
  - destruct step; spec_steps; spec_leaves.
Qed.

Lemma readResponseWithLimit_coded (response : Response) (maxBytes : Z) :
  run_spec (fun _ => True) coded_error (readResponseWithLimit response maxBytes).
Proof.
  unfold readResponseWithLimit. destruct (body response).
  - spec_steps; spec_leaves.
  - apply read_loop_coded.
Qed.

#[local] Hint Resolve assertPublicUrl_coded readResponseWithLimit_coded
  : trace_events.

Lemma fetch_hop_coded (P : Platform) (url : string) :
  run_spec (fun _ => True) coded_error (fetch_hop P url).
Proof. unfold fetch_hop. spec_steps; spec_leaves. Qed.

#[local] Hint Resolve fetch_hop_coded : trace_events.

Lemma fetch_loop_coded (P : Platform) (remaining : nat) :
  forall url, run_spec (fun _ => True) coded_error (fetch_loop P remaining url).
Proof.
  induction remaining as [|k IH]; intros url; simpl; spec_steps; spec_leaves.
Qed.

#[local] Hint Resolve fetch_loop_coded : trace_events.

Lemma fetchImageFromUrl_coded (P : Platform) (urlString : string) :
  run_spec (fun _ => True) coded_error (fetchImageFromUrl P urlString).
Proof. unfold fetchImageFromUrl. spec_steps; spec_leaves. Qed.

Lemma uploadToCloudinary_coded (P : Platform) (img : image)
    (config : cloudinaryConfig) :
  run_spec (fun _ => True) coded_error (uploadToCloudinary P img config).
Proof. unfold uploadToCloudinary. spec_steps; spec_leaves. Qed.

#[local] Hint Resolve fetchImageFromUrl_coded uploadToCloudinary_coded
  : trace_events.

Lemma resolveCanonicalPhotoUrl_coded (P : Platform) (photoUrl : string)
    (photoFile : option image) (config : cloudinaryConfig) :
  run_spec (fun _ => True) coded_error
    (resolveCanonicalPhotoUrl P photoUrl photoFile config).
Proof. unfold resolveCanonicalPhotoUrl. spec_steps; spec_leaves. Qed.

Lemma spec_trivial {A} (c : M A) : run_spec (fun _ => True) (fun _ => True) c.
Proof. intros tr r tr' _. now destruct r. Qed.

Lemma error_response_coded (fallback : http_response) (e : error) :
  coded_response fallback -> coded_error e ->
  coded_response (error_response fallback e).
Proof.
  intros Hfallback He. destruct e as [m st|]; [|exact Hfallback].
  unfold coded_response, coded_error in *. simpl in *. lia.
Qed.

Lemma spec_caught {A} (fallback : http_response) (c : M A) :
  coded_response fallback ->
  run_spec (fun _ => True) coded_error c ->
  run_spec (fun _ => True)
    (fun e => coded_response (error_response fallback e)) c.
Proof.
  intros Hfallback. apply spec_weaken; [trivial|].
  intros e. now apply error_response_coded.
Qed.

Lemma store_submission_coded (P : Platform) (event : lambda_event)
    (token baseId tableName : string) (record : payload) :
  run_spec coded_response (fun _ => True)
    (store_submission P event token baseId tableName record).
Proof.
  unfold store_submission. cbv zeta.
  apply spec_bind; [apply spec_trivial|]. intros outcome.
  destruct outcome as [|[|] st [text|]];
    try destruct (includes _ _); apply spec_ret; unfold coded_response; simpl; lia.
Qed.

(** X28. Whatever the request and whatever the remote services answer, a
    response of the handler has one of the statuses 200, 303, 405, 400, 413,
    500 and 502.  No response has status 415. *)
Theorem handler_statuses :
  forall (P : Platform) (event : lambda_event) (tr : trace)
         (resp : http_response),
    fst (handler P event tr) = Ok resp ->
    In (statusCode resp) [200; 303; 405; 400; 413; 500; 502]
    /\ statusCode resp <> 415.
Proof.
  intros P event tr resp Hrun.
  assert (Hcoded : run_spec coded_response (fun _ => True) (handler P event)).
  { unfold handler.
    destruct (negb (String.eqb (httpMethod event) "POST"));
      [apply spec_ret; unfold coded_response; simpl; lia|].
    destruct (negb (nonempty _) || negb (nonempty _));
      [apply spec_ret; unfold coded_response; simpl; lia|].
    apply spec_try_or_return.
    { apply spec_caught; [unfold coded_response; simpl; lia|].
      apply spec_lift, parseBody_coded. }
    intros [fields photoFile]. cbn beta iota delta [fst snd].
    apply spec_bind; [apply spec_trivial|]. intros website.
    destruct (truthy website); [apply spec_ret; unfold coded_response; simpl; lia|].
    apply spec_bind; [apply spec_trivial|]. intros catName.
    apply spec_bind; [apply spec_trivial|]. intros humanName.
    apply spec_bind; [apply spec_trivial|]. intros photoUrl.
    destruct (negb (nonempty catName) || negb (nonempty humanName));
      [apply spec_ret; unfold coded_response; simpl; lia|].
    destruct (negb (present photoFile) && negb (nonempty photoUrl));
      [apply spec_ret; unfold coded_response; simpl; lia|].
    apply spec_try_or_return.
    { apply spec_caught; [unfold coded_response; simpl; lia|].
      apply spec_lift, getCloudinaryConfig_coded. }
    intros config.
    apply spec_try_or_return.
    { apply spec_caught; [unfold coded_response; simpl; lia|].
      apply resolveCanonicalPhotoUrl_coded. }
    intros canonicalPhotoUrl. unfold save_record.
    apply spec_bind; [apply spec_trivial|]. intros devUrl.
    apply spec_bind; [apply spec_trivial|]. intros story.
    apply store_submission_coded. }
  destruct (handler P event tr) as [r t1] eqn:H. cbn [fst] in Hrun. subst r.
  pose proof (Hcoded tr _ _ H) as Hstatus. unfold coded_response in Hstatus.
  split; [exact Hstatus|]. simpl in Hstatus. lia.
Qed.

(** *** The status of each failure *)



















(** A photo URL whose host answers 404 fails as a failure of the remote
    host. *)
Example remote_404_fails :
  fails_with gone_platform multipart_event [] RemoteFetch.
Proof.
  apply (photo_not_fetched gone_platform multipart_event []
           (FieldsObject
              (<["photoUrl" := VString "https://cats.example/gone.png"]>
                 (<["humanName" := VString "Jerry"]>
                    (<["catName" := VString "Tom"]> ∅))))
           "Tom" "Jerry" "https://cats.example/gone.png"
           (mkConfig "cats" "key" "secret" "catsof-dev")).
  - repeat split; try (vm_compute; congruence); try reflexivity.
    + exists VUndefined. split; reflexivity.
    + right. discriminate.
  - apply (hop_failed gone_platform _ [] 0
             "https://cats.example/gone.png" [] RemoteFetch); [unfold MAX_REDIRECTS; lia| |].
    + apply chain_end.
    + apply (answer_refused gone_platform _ []
               "https://cats.example/gone.png" [EvDnsLookup "cats.example"]
               (mkResponse 404 ∅ (Reader [])) RemoteFetch); [reflexivity|reflexivity|].
      apply status_not_ok. right. simpl. lia.
Qed.

Lemma handler_statuses_witness :
  In (statusCode (plain 400 msg_unsupported_media)) [200; 303; 405; 400; 413; 500; 502]
  /\ statusCode (plain 400 msg_unsupported_media) <> 415.
Proof.
  apply (handler_statuses html_platform multipart_event []).
  vm_compute. reflexivity.
Defined.

Lemma upload_form_ingested (upload : trace -> upload_request -> upload_outcome)
    (store : trace -> store_request -> store_outcome) :
  ingests (sample_platform public_lookup no_fetch (Some upload_form) full_env
             upload store)
    multipart_event
    (FieldsObject (<["humanName" := VString "Jerry"]>
                     (<["catName" := VString "Tom"]> ∅)))
    (Some tom_image) "Tom" "Jerry" EmptyString
    (mkConfig "cats" "key" "secret" "catsof-dev").
Proof.
  repeat split; try (vm_compute; congruence); try reflexivity.
  - exists VUndefined. split; reflexivity.
  - left. discriminate.
Qed.

(** An upload that the image host refuses fails as an upload failure, and a
    record that the store does not accept as an upstream failure. *)
Example refused_upload_fails :
  fails_with refusing_platform multipart_event [] UploadFailure.
Proof.
  apply (upload_refused refusing_platform multipart_event [] _ _ _ _ _ _
           tom_image [] tom_upload (upload_form_ingested _ _)).
  - left. repeat split. discriminate.
  - reflexivity.
  - left. reflexivity.
Qed.

Example rejected_record_fails :
  fails_with rejecting_platform multipart_event [] Upstream.
Proof.
  apply (record_not_stored rejecting_platform multipart_event [] _ _ _ _ _ _
           hosted_url [EvUpload tom_upload] tom_record (upload_form_ingested _ _)).
  - reflexivity.
  - reflexivity.
  - right. eexists _, _. reflexivity.
Qed.
